(** * eTraGo utilities over a PyPSA network

    A shallow embedding of [etrago/extras/utilities.py].  The functions of
    that file read and update a PyPSA [Network] object: component tables
    (pandas DataFrames indexed by component name) and time-dependent
    tables (DataFrames indexed by snapshot, one column per component).

    Conventions of the embedding:
    - Python floats are real numbers; rounding, infinities and signed
      zeros are not modelled, and the properties are stated so that they
      do not rest on exact arithmetic where the code rounds.  A missing
      value (NaN) in a time-dependent table is [None].  Where the code
      divides by a value that can be zero, the definition says what is
      modelled ([parallel]) or the property excludes it ([pf_results]).
    - Python ints are unbounded integers.  numpy's 64-bit integers, into
      which [astype(int)] converts, are modelled by the same unbounded
      integers: a property of such code requires the values to lie in
      the range [int64], outside of which numpy raises OverflowError or
      wraps around.
    - A network is an object on a heap, addressed by a reference: the
      functions receive the reference, as Python passes the object.
    - PyPSA's operations on tables (add, import_components_from_dataframe)
      are modelled as PyPSA carries them out; its solvers and its export
      (lopf, pf, export_to_csv_folder) are an interface, class [PyPSA];
      the solver calls are recorded in a trace.
    - PyPSA keeps the names of the components of a table distinct.
    - The file system is that of one process on Linux: directories and
      the files in them, paths with their slashes, "." and "..".
      Symbolic links, permissions, a full disk and other processes are
      not modelled; the characters of a path are code points below 256.
    - [print] and [time.time] have no effect on the modelled state and are
      left out. *)

From Stdlib Require Import ZArith Reals Lra Lia Ascii String DecimalString DecimalZ.
From stdpp Require Import base option list list_numbers sorting gmap strings.

(** ** Python built-ins *)

(** [str(z)] for an int: the decimal numeral, with a minus sign for
    negative numbers. *)
Definition py_str (z : Z) : string := NilZero.string_of_int (Z.to_int z).

(** [int(s)] for a string, as Python 3.6 and later read it: white space
    around the literal is skipped, then come an optional sign and one or
    more decimal digits, between which single underscores may stand
    ([None] stands for ValueError).  The characters of a string are the
    code points below 256: of these, [int] takes tab, line feed,
    vertical tab, form feed, carriage return, space, NEL (133) and the
    no-break space (160) for white space, and 0 to 9 for digits. *)
Definition py_isspace (c : ascii) : bool :=
  bool_decide (N_of_ascii c ∈ [9; 10; 11; 12; 13; 32; 133; 160]%N).

Definition py_isdigit (c : ascii) : bool :=
  (48 <=? N_of_ascii c)%N && (N_of_ascii c <=? 57)%N.

Fixpoint lstrip_space (s : string) : string :=
  match s with
  | EmptyString => EmptyString
  | String c s' => if py_isspace c then lstrip_space s' else s
  end.

Fixpoint rstrip_space (s : string) : string :=
  match s with
  | EmptyString => EmptyString
  | String c s' =>
      match rstrip_space s' with
      | EmptyString => if py_isspace c then EmptyString else String c EmptyString
      | r => String c r
      end
  end.

(** The digits of a literal, without its underscores: an underscore
    stands after a digit and before one.  [after_digit] tells whether
    the character before was a digit. *)
Fixpoint int_digits (after_digit : bool) (s : string) : option string :=
  match s with
  | EmptyString => if after_digit then Some EmptyString else None
  | String c s' =>
      if py_isdigit c then String c <$> int_digits true s'
      else if Ascii.eqb c "_" then
        (if after_digit then int_digits false s' else None)
      else None
  end.

Definition py_int (s : string) : option Z :=
  match rstrip_space (lstrip_space s) with
  | EmptyString => None
  | String c s' as literal =>
      if Ascii.eqb c "-" then
        d ← int_digits false s';
        Z.of_int <$> NilZero.int_of_string (String c d)
      else if Ascii.eqb c "+" then
        d ← int_digits false s';
        Z.of_int <$> NilZero.int_of_string d
      else
        d ← int_digits false literal;
        Z.of_int <$> NilZero.int_of_string d
  end.

(** [l[a:b]] for ints [a], [b]: negative bounds count from the end, and
    bounds are clipped to the length. *)
Definition slice_bound (len i : Z) : Z :=
  if (i <? 0)%Z then Z.max (i + len) 0 else Z.min i len.

Definition py_slice {A} (l : list A) (a b : Z) : list A :=
  let len := Z.of_nat (length l) in
  let a' := slice_bound len a in
  let b' := slice_bound len b in
  take (Z.to_nat (b' - a')) (drop (Z.to_nat a') l).

(** [range(n)] *)
Definition py_range (n : Z) : list Z := seqZ 0 n.

(** [s.strip(chars)]: drop leading and trailing characters that occur in
    [chars]. *)
Definition in_chars (chars : string) (c : ascii) : bool :=
  bool_decide (c ∈ list_ascii_of_string chars).

Fixpoint lstrip (chars s : string) : string :=
  match s with
  | EmptyString => EmptyString
  | String c s' => if in_chars chars c then lstrip chars s' else s
  end.

Definition string_rev (s : string) : string :=
  string_of_list_ascii (rev (list_ascii_of_string s)).

Definition py_strip (chars s : string) : string :=
  string_rev (lstrip chars (string_rev (lstrip chars s))).

(** The exceptions the modelled code can raise. *)
Inductive exn :=
  | ValueError
  | TypeError
  | AttributeError
  | ZeroDivisionError
  | FileNotFoundError
  | FileExistsError
  | NotADirectoryError
  | IsADirectoryError
  | ReferenceError.

(** ** Numbers and tables *)

#[global] Instance R_eq_dec : EqDecision R := Req_dec_T.

(** A cell of a time-dependent table: [None] is NaN. *)
Definition cell := option R.

Definition lift2 (f : R → R → R) (a b : cell) : cell :=
  match a, b with
  | Some x, Some y => Some (f x y)
  | _, _ => None
  end.

Definition cadd : cell → cell → cell := lift2 Rplus.
Definition cmul : cell → cell → cell := lift2 Rmult.
Definition cdiv : cell → cell → cell := lift2 Rdiv.
Definition csqrt (a : cell) : cell := sqrt <$> a.
Definition csquare (a : cell) : cell := (λ x, x ^ 2)%R <$> a.

(** Sum and maximum of a column, NaN skipped as pandas does.  The sum of
    a column without cells is 0; the sum of a column that has cells, all
    of them NaN, is NaN (pandas 0.20, the version of the project). *)
Definition nansum (l : list cell) : cell :=
  match l with
  | [] => Some 0%R
  | _ =>
      if forallb (λ c : cell, bool_decide (c = None)) l then None
      else Some (foldr (λ c acc, match c with Some x => (x + acc)%R | None => acc end) 0%R l)
  end.

Definition nanmax (l : list cell) : cell :=
  foldr (λ c acc, match c, acc with
                  | Some x, Some y => Some (Rmax x y)
                  | Some x, None => Some x
                  | None, _ => acc
                  end) None l.

(** A snapshot is identified by its hour of the year. *)
Definition snapshot := Z.

(** A DataFrame with one row per snapshot and one column per component. *)
Record Frame := mkFrame {
  index : list snapshot;
  columns : list string;
  data : list (list cell)
}.

Definition empty_frame : Frame := mkFrame [] [] [].

(** Position of the first occurrence of a label. *)
Fixpoint position `{EqDecision A} (x : A) (l : list A) : option nat :=
  match l with
  | [] => None
  | y :: l' => if decide (x = y) then Some 0 else S <$> position x l'
  end.

(** Cell of a frame by labels; NaN when a label is absent. *)
Definition frame_at (F : Frame) (i : snapshot) (c : string) : cell :=
  ri ← position i (index F);
  ci ← position c (columns F);
  row ← data F !! ri;
  mjoin (row !! ci).

(** Value of a Series (labels and values) by label; NaN when absent. *)
Definition series_at (labels : list string) (values : list cell) (c : string) : cell :=
  ci ← position c labels;
  mjoin (values !! ci).

(** Union of two indexes: an index equal to the other is kept as it is,
    otherwise the labels are merged and sorted. *)
Definition string_le (a b : string) : Prop := String.leb a b = true.

#[global] Instance string_le_dec : RelDecision string_le.
Proof. intros a b. unfold string_le. apply _. Defined.

Definition union_columns (a b : list string) : list string :=
  if decide (a = b) then a else merge_sort string_le (remove_dups (a ++ b)).

Definition union_index (a b : list snapshot) : list snapshot :=
  if decide (a = b) then a else merge_sort Z.le (remove_dups (a ++ b)).

(** [F op G] for two frames: aligned on both axes. *)
Definition frame_binop (f : cell → cell → cell) (F G : Frame) : Frame :=
  if decide (index F = index G ∧ columns F = columns G) then
    mkFrame (index F) (columns F)
            (zip_with (zip_with f) (data F) (data G))
  else
    let idx := union_index (index F) (index G) in
    let cols := union_columns (columns F) (columns G) in
    mkFrame idx cols
            ((λ i, (λ c, f (frame_at F i c) (frame_at G i c)) <$> cols) <$> idx).

(** [F op s] for a frame and a Series: the Series' labels are aligned with
    the frame's columns and the Series is broadcast over the rows. *)
Definition frame_series_binop (f : cell → cell → cell) (F : Frame)
    (labels : list string) (values : list cell) : Frame :=
  if decide (columns F = labels) then
    mkFrame (index F) (columns F) ((λ row, zip_with f row values) <$> data F)
  else
    let cols := union_columns (columns F) labels in
    mkFrame (index F) cols
            ((λ i, (λ c, f (frame_at F i c) (series_at labels values c)) <$> cols)
               <$> index F).

(** [F op k] for a frame and a scalar, and [F.apply(g)] elementwise. *)
Definition frame_map (g : cell → cell) (F : Frame) : Frame :=
  mkFrame (index F) (columns F) ((λ row : list cell, g <$> row) <$> data F).

(** [F.iat[t, j]]: the cell by position. *)
Definition iat (F : Frame) (t j : nat) : option cell :=
  row ← data F !! t; row !! j.

(** The [j]-th column of a frame, top to bottom. *)
Definition column (F : Frame) (j : nat) : list cell :=
  (λ row, mjoin (row !! j)) <$> data F.

(** [np.sum(F)]: the sum of every column (a Series over the columns). *)
Definition frame_sum (F : Frame) : list cell :=
  (λ j, nansum (column F j)) <$> seq 0 (length (columns F)).

(** [F.max().max()]: the largest cell of the frame, NaN for a frame
    without numbers. *)
Definition frame_max_max (F : Frame) : cell :=
  nanmax ((λ j, nanmax (column F j)) <$> seq 0 (length (columns F))).

(** [F.reindex(columns=labels)]: the columns named by [labels], in that
    order; a column of NaN for a label the frame does not have. *)
Definition reindex_columns (F : Frame) (labels : list string) : Frame :=
  mkFrame (index F) labels
          ((λ i, (λ c, frame_at F i c) <$> labels) <$> index F).

(** [df[mask]]: the rows at which the boolean mask is true. *)
Fixpoint boolean_index {A} (rows : list A) (mask : list bool) : list A :=
  match rows, mask with
  | r :: rows', m :: mask' =>
      if m then r :: boolean_index rows' mask' else boolean_index rows' mask'
  | _, _ => []
  end.

(** [s.isin(values)] elementwise. *)
Definition isin `{EqDecision A} (values : list A) (x : A) : bool :=
  bool_decide (x ∈ values).

(** ** Component tables *)

Module Bus.
Record t := mk { name : string; v_nom : R }.
End Bus.

Module Load.
Record t := mk { name : string; bus : string }.
End Load.

Module Generator.
Record t := mk {
  name : string;
  bus : string;
  carrier : string;
  marginal_cost : R;
  p_nom : cell
}.
End Generator.

Module Transformer.
Record t := mk {
  name : string;
  bus0 : string;
  bus1 : string;
  s_nom : R;
  losses : option R     (* the column exists after calc_line_losses *)
}.

Definition set_losses (v : R) (tr : t) : t :=
  mk (name tr) (bus0 tr) (bus1 tr) (s_nom tr) (Some v).
End Transformer.

(** A row of the table of lines, with the columns that a line has in
    eTraGo's data: PyPSA's own and [cables], [frequency], [geom],
    [scn_name] and [topo].  The aggregation of [group_parallel_lines]
    names every one of them and raises KeyError on a table that lacks
    one; such a table is not a value of this type. *)
Module Line.
Record t := mk {
  name : string;        (* the index label *)
  bus0 : string;
  bus1 : string;
  b : R;
  b_pu : R;
  cables : R;
  capital_cost : R;
  frequency : R;
  g : R;
  g_pu : R;
  geom : string;
  length : R;
  num_parallel : R;
  r : R;
  r_pu : R;
  s_nom : R;
  s_nom_extendable : bool;
  s_nom_max : R;
  s_nom_min : R;
  s_nom_opt : R;
  scn_name : string;
  sub_network : string;
  terrain_factor : R;
  topo : string;
  type : string;
  v_ang_max : R;
  v_ang_min : R;
  x : R;
  x_pu : R;
  v_nom : option R;     (* set by PyPSA from the buses; absent after grouping *)
  losses : option cell  (* the column exists after calc_line_losses *)
}.

Definition set_bus0 (v : string) (l : t) : t :=
  mk (name l) v (bus1 l) (b l) (b_pu l) (cables l) (capital_cost l)
     (frequency l) (g l) (g_pu l) (geom l) (length l) (num_parallel l)
     (r l) (r_pu l) (s_nom l) (s_nom_extendable l) (s_nom_max l)
     (s_nom_min l) (s_nom_opt l) (scn_name l) (sub_network l)
     (terrain_factor l) (topo l) (type l) (v_ang_max l) (v_ang_min l)
     (x l) (x_pu l) (v_nom l) (losses l).

Definition set_bus1 (v : string) (l : t) : t :=
  mk (name l) (bus0 l) v (b l) (b_pu l) (cables l) (capital_cost l)
     (frequency l) (g l) (g_pu l) (geom l) (length l) (num_parallel l)
     (r l) (r_pu l) (s_nom l) (s_nom_extendable l) (s_nom_max l)
     (s_nom_min l) (s_nom_opt l) (scn_name l) (sub_network l)
     (terrain_factor l) (topo l) (type l) (v_ang_max l) (v_ang_min l)
     (x l) (x_pu l) (v_nom l) (losses l).

Definition set_losses (v : cell) (l : t) : t :=
  mk (name l) (bus0 l) (bus1 l) (b l) (b_pu l) (cables l) (capital_cost l)
     (frequency l) (g l) (g_pu l) (geom l) (length l) (num_parallel l)
     (r l) (r_pu l) (s_nom l) (s_nom_extendable l) (s_nom_max l)
     (s_nom_min l) (s_nom_opt l) (scn_name l) (sub_network l)
     (terrain_factor l) (topo l) (type l) (v_ang_max l) (v_ang_min l)
     (x l) (x_pu l) (v_nom l) (Some v).
End Line.

(** A value in a CSV file, and a table read from or written to one. *)
Inductive value :=
  | VInt (z : Z)
  | VNum (x : R)
  | VStr (s : string).

Record Table := mkTable {
  header : list string;
  body : list (list value)
}.

(** ** The network *)

Record Network := mkNetwork {
  snapshots : list snapshot;
  buses : list Bus.t;
  lines : list Line.t;
  transformers : list Transformer.t;
  generators : list Generator.t;
  loads : list Load.t;
  carriers : list string;
  loads_t_p_set : Frame;
  generators_t_p_set : Frame;
  generators_t_p : Frame;
  lines_t_p0 : Frame;
  lines_t_q0 : Frame;
  lines_t_losses : option Frame;    (* set by calc_line_losses *)
  results_solver_time : R;          (* network.results['Solver'].Time *)
  Z_matrix : option Table           (* the optional attribute network.Z *)
}.

Definition set_lines (v : list Line.t) (n : Network) : Network :=
  mkNetwork (snapshots n) (buses n) v (transformers n) (generators n)
            (loads n) (carriers n) (loads_t_p_set n) (generators_t_p_set n)
            (generators_t_p n) (lines_t_p0 n) (lines_t_q0 n)
            (lines_t_losses n) (results_solver_time n) (Z_matrix n).

Definition set_transformers (v : list Transformer.t) (n : Network) : Network :=
  mkNetwork (snapshots n) (buses n) (lines n) v (generators n)
            (loads n) (carriers n) (loads_t_p_set n) (generators_t_p_set n)
            (generators_t_p n) (lines_t_p0 n) (lines_t_q0 n)
            (lines_t_losses n) (results_solver_time n) (Z_matrix n).

Definition set_generators (v : list Generator.t) (n : Network) : Network :=
  mkNetwork (snapshots n) (buses n) (lines n) (transformers n) v
            (loads n) (carriers n) (loads_t_p_set n) (generators_t_p_set n)
            (generators_t_p n) (lines_t_p0 n) (lines_t_q0 n)
            (lines_t_losses n) (results_solver_time n) (Z_matrix n).

Definition set_carriers (v : list string) (n : Network) : Network :=
  mkNetwork (snapshots n) (buses n) (lines n) (transformers n) (generators n)
            (loads n) v (loads_t_p_set n) (generators_t_p_set n)
            (generators_t_p n) (lines_t_p0 n) (lines_t_q0 n)
            (lines_t_losses n) (results_solver_time n) (Z_matrix n).

Definition set_generators_t_p_set (v : Frame) (n : Network) : Network :=
  mkNetwork (snapshots n) (buses n) (lines n) (transformers n) (generators n)
            (loads n) (carriers n) (loads_t_p_set n) v
            (generators_t_p n) (lines_t_p0 n) (lines_t_q0 n)
            (lines_t_losses n) (results_solver_time n) (Z_matrix n).

Definition set_lines_t_losses (v : Frame) (n : Network) : Network :=
  mkNetwork (snapshots n) (buses n) (lines n) (transformers n) (generators n)
            (loads n) (carriers n) (loads_t_p_set n) (generators_t_p_set n)
            (generators_t_p n) (lines_t_p0 n) (lines_t_q0 n)
            (Some v) (results_solver_time n) (Z_matrix n).

(** ** The world: heap of networks, file system, trace of solver calls *)

Definition ref := nat.

(** The file system as the process sees it: the directories that exist,
    each with its files, and the working directory.  A directory is
    identified by its location: the names from the root down, the root
    being [[]]. *)
Definition location := list string.

Record FS := mkFS {
  cwd : location;
  dirs : gmap location (gmap string Table)
}.

Inductive event :=
  | Lopf (network : ref) (window : list snapshot) (solver_name : string)
  | Pf (network : ref) (timeindex : list snapshot) (use_seed : bool).

Record World := mkWorld {
  heap : gmap ref Network;
  fs : FS;
  trace : list event
}.

(** ** The monad of Python statements: state and exceptions *)

Inductive result (A : Type) :=
  | Ok (a : A)
  | Raise (e : exn).
Arguments Ok {A} a.
Arguments Raise {A} e.

Definition M (A : Type) : Type := World → result A * World.

#[global] Instance M_ret : MRet M := λ A a w, (Ok a, w).
#[global] Instance M_bind : MBind M := λ A B k m w,
  match m w with
  | (Ok a, w') => k a w'
  | (Raise e, w') => (Raise e, w')
  end.

Definition raise {A} (e : exn) : M A := λ w, (Raise e, w).

(** Run the body for every element of the list, in order; an exception
    ends the loop. *)
Fixpoint for_each {A} (l : list A) (body : A → M unit) : M unit :=
  match l with
  | [] => mret tt
  | a :: l' => body a ≫= λ _, for_each l' body
  end.

(** The network object behind a reference. *)
Definition deref (network : ref) : M Network := λ w,
  match heap w !! network with
  | Some n => (Ok n, w)
  | None => (Raise ReferenceError, w)
  end.

(** Update the network object in place. *)
Definition update (network : ref) (f : Network → Network) : M unit := λ w,
  match heap w !! network with
  | Some n => (Ok tt, mkWorld (<[network := f n]> (heap w)) (fs w) (trace w))
  | None => (Raise ReferenceError, w)
  end.

Definition emit (e : event) : M unit := λ w,
  (Ok tt, mkWorld (heap w) (fs w) (trace w ++ [e])).

Definition get_fs : M FS := λ w, (Ok (fs w), w).

Definition put_fs (f : FS) : M unit := λ w,
  (Ok tt, mkWorld (heap w) f (trace w)).

(** ** The PyPSA interface *)

Class PyPSA := {
  (** the type of the callback passed as [extra_functionality] *)
  extra_functionality_t : Type;
  (** what [network.lopf(snapshots, solver_name, extra_functionality)]
      does to the network *)
  lopf : Network → list snapshot → string → option extra_functionality_t → Network;
  (** what [network.pf(snapshots, use_seed)] does to the network *)
  pf : Network → list snapshot → bool → Network;
  (** the files [network.export_to_csv_folder] writes, by name: PyPSA's
      own file names ([network.csv], [buses.csv], [lines.csv],
      [generators-p_set.csv], ...) *)
  export_to_csv_folder : Network → gmap string Table;
  (** the optimisation does not change the set of snapshots *)
  lopf_snapshots : ∀ n w s e, snapshots (lopf n w s e) = snapshots n;
  (** the export always writes the file of network attributes *)
  export_network_csv : ∀ n, is_Some (export_to_csv_folder n !! "network.csv")
}.

(** ** Queries *)

(** Get bus-ids of given voltage level(s). *)
Definition buses_of_vlvl (network : ref) (voltage_level : list R) : M (list string) :=
  net ← deref network;
  let mask := isin voltage_level <$> (Bus.v_nom <$> buses net) in
  let df := boolean_index (buses net) mask in
  mret (Bus.name <$> df).

(** Get bus-ids of a given voltage level connected to the grid. *)
Definition buses_grid_linked (network : ref) (voltage_level : list R) : M (list string) :=
  net ← deref network;
  let idx := Bus.name <$> buses net in
  let mask :=
    zip_with andb
      (zip_with orb (isin (Line.bus0 <$> lines net) <$> idx)
                    (isin (Line.bus1 <$> lines net) <$> idx))
      (isin voltage_level <$> (Bus.v_nom <$> buses net)) in
  let df := boolean_index (buses net) mask in
  mret (Bus.name <$> df).

(** Get grid lines connected to given buses. *)
Definition connected_grid_lines (network : ref) (busids : list string) : M (list Line.t) :=
  net ← deref network;
  let mask :=
    zip_with orb (isin busids <$> (Line.bus1 <$> lines net))
                 (isin busids <$> (Line.bus0 <$> lines net)) in
  mret (boolean_index (lines net) mask).

(** Get transformer connected to given buses. *)
Definition connected_transformer (network : ref) (busids : list string)
    : M (list Transformer.t) :=
  net ← deref network;
  let mask := isin busids <$> (Transformer.bus0 <$> transformers net) in
  mret (boolean_index (transformers net) mask).

(** ** load_shedding *)

Definition try {A} (e : exn) (o : option A) : M A :=
  match o with
  | Some a => mret a
  | None => raise e
  end.

(** [network.add("Carrier", name)]: PyPSA refuses a name that is already
    in use (it logs an error and returns). *)
Definition add_carrier (name : string) (n : Network) : Network :=
  if bool_decide (name ∈ carriers n) then n
  else set_carriers (carriers n ++ [name]) n.

(** [network.import_components_from_dataframe(df, "Generator")]: PyPSA
    concatenates the new rows below the component table; when a name then
    occurs twice it logs "new components for Generator are not unique"
    and returns, leaving the table as it was. *)
Definition import_components_from_dataframe (df : list Generator.t) (n : Network)
    : Network :=
  let new_df := generators n ++ df in
  if decide (NoDup (Generator.name <$> new_df)) then set_generators new_df n
  else n.

(** The range of numpy's [int64], the type of [astype(int)]. *)
Definition int64 (z : Z) : Prop := (- 2 ^ 63 <= z < 2 ^ 63)%Z.

(** [index.astype(int)] *)
Definition astype_int (labels : list string) : option (list Z) := mapM py_int labels.

(** [index.max()] of an integer index; [None] for the NaN of an empty one *)
Definition index_max (l : list Z) : option Z :=
  match l with
  | [] => None
  | z :: l' => Some (foldl Z.max z l')
  end.

(** [range(start, stop)] *)
Definition py_range2 (start stop : Z) : list Z := seqZ start (stop - start).

(** The labels of the new generators: lines 116 to 120. *)
Definition load_shedding_index (net : Network) : M (list string) :=
  ids ← try ValueError (astype_int (Generator.name <$> generators net));
  (* range() refuses the NaN that max() gives on an empty index *)
  start ← try TypeError (index_max ids);
  let nums := Z.of_nat (length (buses net)) in
  let end_ := (start + nums)%Z in
  let index := py_range2 start end_ in
  mret (py_str <$> index).

(** The DataFrame of new generators, one row per bus: lines 122 to 127. *)
Definition load_shedding_frame (marginal_cost : R) (p_nom : cell)
    (bus : list string) (index : list string) : list Generator.t :=
  zip_with (λ i b, Generator.mk i b "load shedding" marginal_cost p_nom) index bus.

(** Implement load shedding in existing network to identify feasibility
    problems.  The body of the function, for any behaviour [import] of
    [network.import_components_from_dataframe(df, "Generator")]: the
    DataFrame that the function hands to PyPSA is the argument of
    [import]. *)
Definition load_shedding_with (import : list Generator.t → Network → Network)
    (network : ref) (kwargs : gmap string R) : M unit :=
  net ← deref network;
  let marginal_cost_def := 10000%R in
  let p_nom_def := frame_max_max (loads_t_p_set net) in
  let marginal_cost := default marginal_cost_def (kwargs !! "marginal_cost") in
  let p_nom := from_option Some p_nom_def (kwargs !! "p_nom") in
  update network (add_carrier "load");;
  net ← deref network;
  index ← load_shedding_index net;
  update network
    (import (load_shedding_frame marginal_cost p_nom (Bus.name <$> buses net) index)).

(** The function with PyPSA's import. *)
Definition load_shedding : ref → gmap string R → M unit :=
  load_shedding_with import_components_from_dataframe.

(** ** results_to_csv *)

(** The [path] argument: [False] or a directory path. *)
Inductive path_arg :=
  | PathFalse
  | Path (p : string).

(** *** Paths *)

(** The names of a path: the pieces between its slashes. *)
Fixpoint split_slash (s : string) : list string :=
  match s with
  | EmptyString => [EmptyString]
  | String c s' =>
      if Ascii.eqb c "/" then EmptyString :: split_slash s'
      else match split_slash s' with
           | name :: names => String c name :: names
           | [] => [String c EmptyString]
           end
  end.

(** One name further from a directory: the empty name (a slash at an
    end of the path, two slashes in a row) and "." stay where they are,
    ".." is the parent, the root being its own. *)
Definition step (l : location) (name : string) : location :=
  if bool_decide (name = "" ∨ name = ".") then l
  else if bool_decide (name = "..") then removelast l
  else l ++ [name].

(** Where a path starts: at the root with a leading slash, at the
    working directory without. *)
Definition start (f : FS) (p : string) : location :=
  match p with
  | String "/" _ => []
  | _ => cwd f
  end.

(** The directory that a path names when every name on the way is, or is
    made, a directory. *)
Definition target (f : FS) (p : string) : location :=
  foldl step (start f p) (split_slash p).

Definition is_dir (d : gmap location (gmap string Table)) (l : location) : bool :=
  bool_decide (is_Some (d !! l)).

Definition file_at (d : gmap location (gmap string Table)) (l : location)
    (name : string) : bool :=
  bool_decide (is_Some (d !! l ≫= λ files, files !! name)).

(** What the system finds at the end of a path: a directory, a file, or
    the error of the lookup (ENOENT for a name that is not there, ENOTDIR
    for a file where the path goes on). *)
Inductive entry :=
  | IsDir (l : location)
  | IsFile (l : location) (name : string)
  | Missing (e : exn).

Fixpoint walk (d : gmap location (gmap string Table)) (l : location)
    (names : list string) : entry :=
  match names with
  | [] => IsDir l
  | name :: names' =>
      if is_dir d (step l name) then walk d (step l name) names'
      else if file_at d l name then
        match names' with
        | [] => IsFile l name
        | _ => Missing NotADirectoryError
        end
      else Missing FileNotFoundError
  end.

Definition lookup_path (f : FS) (p : string) : entry :=
  if bool_decide (p = "") then Missing FileNotFoundError
  else if is_dir (dirs f) (start f p) then walk (dirs f) (start f p) (split_slash p)
  else Missing FileNotFoundError.

(** *** The functions of [os] *)

Definition os_path_exists (p : string) (f : FS) : bool :=
  match lookup_path f p with
  | Missing _ => false
  | _ => true
  end.

Definition os_path_isdir (p : string) (f : FS) : bool :=
  match lookup_path f p with
  | IsDir _ => true
  | _ => false
  end.

(** [os.makedirs(p, exist_ok=True)]: every directory on the way that is
    missing is made, one after the other; a directory that exists is
    passed.  A file on the way ends the call: with NotADirectoryError
    when the path goes on after it, with FileExistsError when it is the
    last name.  The directories made before stay. *)
Fixpoint mkdirs (d : gmap location (gmap string Table)) (l : location)
    (names : list string) : option exn * gmap location (gmap string Table) :=
  match names with
  | [] => (None, d)
  | name :: names' =>
      if is_dir d (step l name) then mkdirs d (step l name) names'
      else if file_at d l name then
        (Some (if forallb (String.eqb "") names' then FileExistsError
               else NotADirectoryError), d)
      else mkdirs (<[step l name := ∅]> d) (step l name) names'
  end.

Definition os_makedirs (p : string) : M unit :=
  f ← get_fs;
  if bool_decide (p = "") then raise FileNotFoundError
  else if is_dir (dirs f) (start f p) then
    let r := mkdirs (dirs f) (start f p) (split_slash p) in
    put_fs (mkFS (cwd f) r.2);;
    match r.1 with
    | Some e => raise e
    | None => mret tt
    end
  else raise FileNotFoundError.

(** The path without the slashes at its end. *)
Fixpoint rstrip_empty (names : list string) : list string :=
  match names with
  | [] => []
  | name :: names' =>
      match rstrip_empty names' with
      | [] => if bool_decide (name = "") then [] else [name]
      | rest => name :: rest
      end
  end.

(** [os.mkdir(p)]: the directory above must exist, the directory itself
    must not. *)
Definition os_mkdir (p : string) : M unit :=
  f ← get_fs;
  if bool_decide (p = "") then raise FileNotFoundError
  else if is_dir (dirs f) (start f p) then
    let names := rstrip_empty (split_slash p) in
    match walk (dirs f) (start f p) (removelast names) with
    | IsDir l =>
        match last names with
        | Some name =>
            if is_dir (dirs f) (step l name) || file_at (dirs f) l name
            then raise FileExistsError
            else put_fs (mkFS (cwd f) (<[step l name := ∅]> (dirs f)))
        | None => raise FileExistsError     (* the root *)
        end
    | IsFile _ _ => raise NotADirectoryError
    | Missing e => raise e
    end
  else raise FileNotFoundError.

(** The names of the directories in a directory. *)
Definition children (d : gmap location (gmap string Table)) (l : location)
    : list string :=
  omap (λ k : location, if bool_decide (k ≠ [] ∧ removelast k = l) then last k else None)
       (map_to_list d).*1.

(** [os.listdir(p)]: the names of the files and of the directories in
    the directory, in no particular order. *)
Definition os_listdir (p : string) : M (list string) :=
  f ← get_fs;
  match lookup_path f p with
  | IsDir l =>
      mret ((map_to_list (default ∅ (dirs f !! l))).*1 ++ children (dirs f) l)
  | IsFile _ _ => raise NotADirectoryError
  | Missing e => raise e
  end.

(** A file is addressed by its directory and its name:
    [os.path.join(d, name)] and [d + '/' + name] both denote the file
    [name] of the directory [d], for every [d] but the empty path, with
    which the code does not get as far as to a file. *)
Definition read_file (d name : string) : M Table :=
  f ← get_fs;
  match lookup_path f d with
  | IsDir l =>
      match dirs f !! l ≫= λ files, files !! name with
      | Some t => mret t
      | None =>
          raise (if is_dir (dirs f) (l ++ [name]) then IsADirectoryError
                 else FileNotFoundError)
      end
  | IsFile _ _ => raise NotADirectoryError
  | Missing e => raise e
  end.

Definition write_file (d name : string) (t : Table) : M unit :=
  f ← get_fs;
  match lookup_path f d with
  | IsDir l =>
      if is_dir (dirs f) (l ++ [name]) then raise IsADirectoryError
      else put_fs (mkFS (cwd f) (<[l := <[name := t]> (default ∅ (dirs f !! l))]> (dirs f)))
  | IsFile _ _ => raise NotADirectoryError
  | Missing e => raise e
  end.

(** *** Disks and paths that the properties are about *)

(** A disk as a system has it: the root and the working directory exist;
    a directory lies in a directory, under a name that is a name; no
    directory has a file and a directory of the same name. *)
Definition well_formed (f : FS) : Prop :=
  is_Some (dirs f !! []) ∧
  is_Some (dirs f !! cwd f) ∧
  map_Forall (λ (l : location) (files : gmap string Table),
                match last l with
                | Some name =>
                    is_Some (dirs f !! removelast l) ∧
                    (name ∉ [""; "."; ".."]) ∧
                    ("/"%char ∉ list_ascii_of_string name)
                | None => True
                end ∧
                map_Forall (λ (name : string) (_ : Table), dirs f !! (l ++ [name]) = None)
                           files)
             (dirs f).

(** The length of a string in the bytes of its UTF-8 encoding. *)
Definition utf8_length (s : string) : nat :=
  foldr (λ c n, (if (N_of_ascii c <? 128)%N then 1 else 2) + n) 0
        (list_ascii_of_string s).

(** A path that the system accepts (Linux) together with the name of a
    file in it: without the character NUL, no name longer than 255 bytes,
    and with a slash and a name of 255 bytes less than 4096 bytes in
    all. *)
Definition valid_path (p : string) : Prop :=
  ("000"%char ∉ list_ascii_of_string p) ∧
  utf8_length p + 256 < 4096 ∧
  Forall (λ name, utf8_length name ≤ 255) (split_slash p).

(** The directories that a path passes, the one that it names being the
    last of them. *)
Definition on_the_way (f : FS) (p : string) (l : location) : Prop :=
  ∃ before : list string,
    before `prefix_of` split_slash p ∧ l = foldl step (start f p) before.

(** No file stands where the path needs a directory. *)
Definition no_file_on (f : FS) (p : string) : Prop :=
  ∀ (before : list string) (name : string),
    before ++ [name] `prefix_of` split_slash p →
    file_at (dirs f) (foldl step (start f p) before) name = false.

(** No directory, of the disk or made on the way of the path, stands
    where a file of these names is to be written into the directory
    that the path names. *)
Definition no_dir_for (f : FS) (p : string) (files : gmap string Table) : Prop :=
  ∀ (name : string) (l : location),
    is_Some (files !! name) →
    is_Some (dirs f !! l) ∨ on_the_way f p l →
    l ≠ target f p ++ [name].

(** [pd.read_csv]: a column without a name is called after its position. *)
Definition read_csv (t : Table) : Table :=
  mkTable (imap (λ i h, if decide (h = "") then "Unnamed: " +:+ py_str (Z.of_nat i) else h)
                (header t))
          (body t).

(** [df.to_csv(file)]: the row numbers are written as a first column
    without a name. *)
Definition to_csv (t : Table) : Table :=
  mkTable ("" :: header t) (imap (λ i row, VInt (Z.of_nat i) :: row) (body t)).

(** [df[c] = v] for a scalar [v]: the column is overwritten, or added as
    the last one. *)
Definition assign_column (c : string) (v : value) (t : Table) : Table :=
  match position c (header t) with
  | Some j => mkTable (header t) ((λ row, <[j := v]> row) <$> body t)
  | None => mkTable (header t ++ [c]) ((λ row, row ++ [v]) <$> body t)
  end.

Section with_pypsa.
Context `{PyPSA}.

(** [network.export_to_csv_folder(path)]: PyPSA makes the folder with
    [os.mkdir] when [os.path.isdir] does not find it, and writes its
    files into it, over the files of these names.  A file cannot be
    written under the name of a directory (IsADirectoryError); which
    files PyPSA has written by then is not modelled: the folder is left
    as it was. *)
Definition export (network : ref) (p : string) : M unit :=
  net ← deref network;
  f ← get_fs;
  (if os_path_isdir p f then mret tt else os_mkdir p);;
  f ← get_fs;
  match lookup_path f p with
  | IsDir l =>
      if decide (map_Forall (λ (name : string) (_ : Table),
                               dirs f !! (l ++ [name]) = None)
                            (export_to_csv_folder net))
      then put_fs (mkFS (cwd f)
                     (<[l := export_to_csv_folder net ∪ default ∅ (dirs f !! l)]>
                        (dirs f)))
      else raise IsADirectoryError
  | IsFile _ _ => raise NotADirectoryError
  | Missing e => raise e
  end.

Definition results_to_csv (network : ref) (path : path_arg) : M unit :=
  match path with
  | PathFalse => mret tt
  | Path p =>
      f ← get_fs;
      (if os_path_exists p f then mret tt else os_makedirs p);;
      export network p;;
      file ← read_file p "network.csv";
      let data := read_csv file in
      net ← deref network;
      let data := assign_column "time" (VNum (results_solver_time net)) data in
      write_file p "network.csv" (to_csv data);;
      match Z_matrix net with
      | Some z =>
          let d := py_strip "0123456789" p in
          names ← os_listdir d;
          let file := List.filter (λ i, bool_decide (i = "Z.csv")) names in
          match file with
          | _ :: _ => mret tt         (* 'Z already calculated' *)
          | [] => write_file d "Z.csv" z
          end
      | None => mret tt
      end
  end.

(** ** parallelisation *)

(** [int(a / b)]: true division, then truncation towards zero.  Python
    rounds the quotient of two ints correctly to a float; the float
    truncates to the same integer as the exact quotient as long as
    |a| + |b| is below 2^52, which the properties require where the
    snapshots of the network do not bound [a] already. *)
Definition int_div (a b : Z) : M Z :=
  if decide (b = 0%Z) then raise ZeroDivisionError else mret (a ÷ b)%Z.

Definition network_lopf (network : ref) (window : list snapshot)
    (solver_name : string) (extra : option extra_functionality_t) : M unit :=
  emit (Lopf network window solver_name);;
  update network (λ n, lopf n window solver_name extra).

Definition parallelisation (network : ref) (start_h end_h group_size : Z)
    (solver_name : string) (extra_functionality : option extra_functionality_t)
    : M unit :=
  n ← int_div (end_h - start_h + 1) group_size;
  for_each (py_range n) (λ i,
    net ← deref network;
    network_lopf network
      (py_slice (snapshots net) (group_size * i) (group_size * i + group_size))
      solver_name extra_functionality).

(** The windows handed to [network.lopf], in order of the calls. *)
Definition lopf_windows (tr : list event) : list (list snapshot) :=
  omap (λ e, match e with Lopf _ window _ => Some window | Pf _ _ _ => None end) tr.

(** ** pf_post_lopf *)

Record Scenario := mkScenario { timeindex : list snapshot }.

Definition network_pf (network : ref) (snaps : list snapshot) (use_seed : bool)
    : M unit :=
  emit (Pf network snaps use_seed);;
  update network (λ n, pf n snaps use_seed).

Definition pf_post_lopf (network : ref) (scenario : Scenario) : M ref :=
  let network_pf_ := network in
  (* For the PF, set the P to the optimised P *)
  net ← deref network_pf_;
  update network_pf_
    (set_generators_t_p_set
       (reindex_columns (generators_t_p_set net) (Generator.name <$> generators net)));;
  net ← deref network_pf_;
  update network_pf_ (set_generators_t_p_set (generators_t_p net));;
  (* execute non-linear pf *)
  network_pf network_pf_ (timeindex scenario) true;;
  mret network_pf_.
End with_pypsa.

(** ** calc_line_losses *)

(** Line 236: the apparent power S = sqrt(p² + q²) [in MW]. *)
Definition s0_lines (net : Network) : Frame :=
  frame_map csqrt
    (frame_binop cadd (frame_map csquare (lines_t_p0 net))
                      (frame_map csquare (lines_t_q0 net))).

(** Line 239: the current I = S / U [in A]; [v_nom] is the column
    [network.lines.v_nom]. *)
Definition i0_lines (net : Network) (v_nom : list R) : Frame :=
  frame_series_binop cdiv
    (frame_map (λ s, cmul s (Some 1000000%R)) (s0_lines net))
    (Line.name <$> lines net) ((λ v, Some (v * 1000)%R) <$> v_nom).

(** Line 241: the losses per line and timestep, I² * R [in MW]. *)
Definition losses_per_timestep (net : Network) (v_nom : list R) : Frame :=
  frame_map (λ c, cdiv c (Some 1000000%R))
    (frame_series_binop cmul (frame_map csquare (i0_lines net v_nom))
       (Line.name <$> lines net) ((λ l, Some (Line.r l)) <$> lines net)).

(** A frame of numbers: a row for every snapshot, a cell for every column,
    and a number (not NaN) in every cell. *)
Definition numbers (F : Frame) : Prop :=
  length (data F) = length (index F) ∧
  Forall (λ row, length row = length (columns F) ∧ Forall is_Some row) (data F).

(** A network with power-flow results: the frames of the power flow
    carry the lines as columns, in the order of the table of lines, and
    the same snapshots as rows, of which there is at least one; they hold
    a number for every line and snapshot; every line has a nominal
    voltage, which is not zero. *)
Definition pf_results (net : Network) : Prop :=
  index (lines_t_p0 net) = index (lines_t_q0 net) ∧
  index (lines_t_p0 net) ≠ [] ∧
  columns (lines_t_p0 net) = Line.name <$> lines net ∧
  columns (lines_t_q0 net) = Line.name <$> lines net ∧
  numbers (lines_t_p0 net) ∧
  numbers (lines_t_q0 net) ∧
  Forall (λ l, ∃ v : R, Line.v_nom l = Some v ∧ v ≠ 0%R) (lines net).

(** Calculate losses per line with PF result data.  The totals that the
    last lines of the function print are not kept in the network. *)
Definition calc_line_losses (network : ref) : M unit :=
  net ← deref network;
  (* the column v_nom must exist *)
  v_nom ← try AttributeError (mapM Line.v_nom (lines net));
  let losses := losses_per_timestep net v_nom in
  update network (set_lines_t_losses losses);;
  (* calculate total losses per line [in MW] *)
  let values := frame_sum losses in
  (if decide (length values = length (lines net)) then mret tt
   else raise ValueError : M unit);;
  update network (set_lines (zip_with Line.set_losses values (lines net)));;
  (* transformer losses: 99.8 % efficiency *)
  net ← deref network;
  let values := (λ tr, (Transformer.s_nom tr * (1 - 0.998))%R) <$> transformers net in
  update network (set_transformers (zip_with Transformer.set_losses values (transformers net))).

(** ** group_parallel_lines *)

(** [df.loc[line]]: the row with the label [line].  For a label that
    occurs twice pandas hands back a table instead of a row: the code
    then writes the printed form of a table into the bus columns of these
    rows, and the next visit of the label raises ValueError.  Here the
    first visit does ([None]). *)
Definition loc (line : string) (df : list Line.t) : option Line.t :=
  match List.filter (λ l, bool_decide (Line.name l = line)) df with
  | [row] => Some row
  | _ => None
  end.

(** [df.set_value(line, col, v)]: [set] writes [v] into the column. *)
Definition set_value (line : string) (set : string → Line.t → Line.t) (v : string)
    (df : list Line.t) : list Line.t :=
  (λ l, if decide (Line.name l = line) then set v l else l) <$> df.

(** The body of the loop that orders the buses of one line. *)
Definition order_buses (network : ref) (line : string) : M unit :=
  net ← deref network;
  row ← try ValueError (loc line (lines net));
  b0 ← try ValueError (py_int (Line.bus0 row));
  b1 ← try ValueError (py_int (Line.bus1 row));
  let bus0_new := py_str (Z.min b0 b1) in
  let bus1_new := py_str (Z.max b0 b1) in
  update network (λ n, set_lines (set_value line Line.set_bus0 bus0_new (lines n)) n);;
  update network (λ n, set_lines (set_value line Line.set_bus1 bus1_new (lines n)) n).

(** The two buses of a line as integers, smaller first: the unordered
    pair of its endpoints.  [None] when a bus id is not an integer. *)
Definition endpoints (l : Line.t) : option (Z * Z) :=
  b0 ← py_int (Line.bus0 l);
  b1 ← py_int (Line.bus1 l);
  Some (Z.min b0 b1, Z.max b0 b1).

(** The line with its buses in ascending order. *)
Definition ordered (l : Line.t) : Line.t :=
  match endpoints l with
  | Some (b0, b1) => Line.set_bus1 (py_str b1) (Line.set_bus0 (py_str b0) l)
  | None => l
  end.

(** The bus ids of a line that the loop can order: integers, as [int]
    reads them, that numpy's [int64] holds. *)
Definition integer_buses (l : Line.t) : Prop :=
  ∃ b0 b1 : Z,
    py_int (Line.bus0 l) = Some b0 ∧ py_int (Line.bus1 l) = Some b1 ∧
    int64 b0 ∧ int64 b1.

(** A label that the loop can treat: it names one row, whose bus ids are
    integers. *)
Definition orderable (df : list Line.t) (line : string) : Prop :=
  ∃ row, List.filter (λ l, bool_decide (Line.name l = line)) df = [row]
         ∧ is_Some (endpoints row).

(** The reducers of the aggregation. *)
Definition np_sum (x : list R) : R := foldr Rplus 0%R x.

Definition np_min (x : list R) : R :=
  match x with
  | [] => 0%R
  | v :: x' => foldl Rmin v x'
  end.

Definition np_mean (x : list R) : R := (np_sum x / INR (length x))%R.

(** [np.reciprocal(np.sum(np.reciprocal(x)))].  In floating point the
    reciprocal of 0 is inf, a sum with inf is inf, and the reciprocal of
    inf is 0: a group with a value of 0 has the result 0.  A group whose
    reciprocals sum to 0 (it has values of both signs) has the result inf
    in numpy, which is outside the model: the properties exclude it. *)
Definition parallel (x : list R) : R :=
  if bool_decide (0%R ∈ x) then 0%R else (/ np_sum (Rinv <$> x))%R.

(** [x[0]] on a group: its first row *)
Definition first (x : list string) : string := default "" (head x).

(** minimum of strings, in the order of Python's string comparison *)
Definition str_min (x : list string) : string :=
  match x with
  | [] => ""
  | v :: x' => foldl (λ a b, if String.leb a b then a else b) v x'
  end.

(** minimum of booleans: False < True *)
Definition bool_min (x : list bool) : bool := foldr andb true x.

(** [df.groupby(key)]: pandas numbers the keys in order of first
    appearance and collects the rows of every key, in table order; the
    groups are then sorted by key. *)
Fixpoint add_to_groups {K A} `{EqDecision K} (k : K) (a : A)
    (groups : list (K * list A)) : list (K * list A) :=
  match groups with
  | [] => [(k, [a])]
  | (k', x) :: groups' =>
      if decide (k = k') then (k', x ++ [a]) :: groups'
      else (k', x) :: add_to_groups k a groups'
  end.

Definition groups_of {K A} `{EqDecision K} (key : A → K) (rows : list A)
    : list (K * list A) :=
  foldl (λ groups a, add_to_groups (key a) a groups) [] rows.

(** What a grouping is: one group per key, each holding the rows of its
    key in table order. *)
Definition grouped {K A} `{EqDecision K} (key : A → K) (rows : list A)
    (groups : list (K * list A)) : Prop :=
  NoDup groups.*1 ∧
  (∀ k x, (k, x) ∈ groups → x ≠ [] ∧ x = filter (λ a, key a = k) rows) ∧
  (∀ a, a ∈ rows → key a ∈ groups.*1).

(** tuples of strings compare lexicographically *)
Definition key_le (k1 k2 : string * string) : Prop :=
  String.ltb k1.1 k2.1 = true ∨ (k1.1 = k2.1 ∧ String.leb k1.2 k2.2 = true).

#[global] Instance key_le_dec : RelDecision key_le.
Proof. intros k1 k2. unfold key_le. apply _. Defined.

Definition group_le (g1 g2 : (string * string) * list Line.t) : Prop :=
  key_le g1.1 g2.1.

#[global] Instance group_le_dec : RelDecision group_le.
Proof. intros g1 g2. unfold group_le. apply _. Defined.

Definition groupby (rows : list Line.t) : list ((string * string) * list Line.t) :=
  merge_sort group_le (groups_of (λ l, (Line.bus0 l, Line.bus1 l)) rows).

(** One row of the aggregated table: the reducers of [grouped.agg], the
    bus columns written back from the group key (lines 317 to 319), and
    the smallest old index as the new index (lines 321 and 322).  The
    columns that are not aggregated ([v_nom], [losses]) are gone. *)
Definition aggregate (k : string * string) (x : list Line.t) : Line.t :=
  Line.mk
    (str_min (Line.name <$> x))                     (* 'old_index': np.min *)
    k.1                                             (* bus0 *)
    k.2                                             (* bus1 *)
    (np_sum (Line.b <$> x))                         (* 'b': np.sum *)
    (np_sum (Line.b_pu <$> x))                      (* 'b_pu': np.sum *)
    (np_sum (Line.cables <$> x))                    (* 'cables': np.sum *)
    (np_min (Line.capital_cost <$> x))              (* 'capital_cost': np.min *)
    (np_mean (Line.frequency <$> x))                (* 'frequency': np.mean *)
    (np_sum (Line.g <$> x))                         (* 'g': np.sum *)
    (np_sum (Line.g_pu <$> x))                      (* 'g_pu': np.sum *)
    (first (Line.geom <$> x))                       (* 'geom': x[0] *)
    (np_min (Line.length <$> x))                    (* 'length': x.min() *)
    (np_sum (Line.num_parallel <$> x))              (* 'num_parallel': np.sum *)
    (parallel (Line.r <$> x))                       (* 'r' *)
    (parallel (Line.r_pu <$> x))                    (* 'r_pu' *)
    (np_sum (Line.s_nom <$> x))                     (* 's_nom': np.sum *)
    (bool_min (Line.s_nom_extendable <$> x))        (* 's_nom_extendable': x.min() *)
    (np_sum (Line.s_nom_max <$> x))                 (* 's_nom_max': np.sum *)
    (np_sum (Line.s_nom_min <$> x))                 (* 's_nom_min': np.sum *)
    (np_sum (Line.s_nom_opt <$> x))                 (* 's_nom_opt': np.sum *)
    (str_min (Line.scn_name <$> x))                 (* 'scn_name': x.min() *)
    (str_min (Line.sub_network <$> x))              (* 'sub_network': x.min() *)
    (np_min (Line.terrain_factor <$> x))            (* 'terrain_factor': x.min() *)
    (first (Line.topo <$> x))                       (* 'topo': x[0] *)
    (str_min (Line.type <$> x))                     (* 'type': x.min() *)
    (np_min (Line.v_ang_max <$> x))                 (* 'v_ang_max': x.min() *)
    (np_min (Line.v_ang_min <$> x))                 (* 'v_ang_min': x.min() *)
    (parallel (Line.x <$> x))                       (* 'x' *)
    (parallel (Line.x_pu <$> x))                    (* 'x_pu' *)
    None None.

Definition group_parallel_lines (network : ref) : M unit :=
  (* ordering of buses *)
  old_lines ← deref network;
  for_each (Line.name <$> lines old_lines) (order_buses network);;
  (* the old index is the column 'old_index' of the rows *)
  old_lines ← deref network;
  let grouped := groupby (lines old_lines) in
  (* calculating electrical properties for parallel lines *)
  let new_lines := (λ g, aggregate g.1 g.2) <$> grouped in
  update network (set_lines new_lines).

(** ** Example networks *)

Module Examples.
(** A line with the given index label and buses; the electrical
    parameters are those of a 110 kV overhead line. *)
Definition line (name bus0 bus1 : string) : Line.t :=
  Line.mk name bus0 bus1
    0 0 3 0 50 0 0 "" 10 1 2 0 260 false 260 0 0 "Status Quo" "" 1 "" ""
    0 0 4 0 (Some 110%R) None.

Definition bus1 := Bus.mk "1" 110.
Definition bus2 := Bus.mk "2" 220.
Definition bus3 := Bus.mk "3" 110.

Definition no_frame : Frame := empty_frame.

(** Three buses, three lines of which two are parallel, one
    transformer, one generator, one load, two snapshots. *)
Definition net : Network :=
  mkNetwork [1; 2]%Z
    [bus1; bus2; bus3]
    [line "7" "3" "1"; line "10" "1" "3"; line "9" "1" "2"]
    [Transformer.mk "1" "1" "2" 1000 None]
    [Generator.mk "5" "1" "wind" 0 (Some 100%R)]
    [Load.mk "1" "3"]
    []
    (mkFrame [1; 2]%Z ["1"] [[Some 30%R]; [Some 40%R]])
    (mkFrame [1; 2]%Z [] [[]; []])
    (mkFrame [1; 2]%Z ["5"] [[Some 30%R]; [Some 40%R]])
    (mkFrame [1; 2]%Z ["7"; "10"; "9"]
       [[Some 3%R; Some 0%R; Some 6%R]; [Some 0%R; Some 5%R; Some 8%R]])
    (mkFrame [1; 2]%Z ["7"; "10"; "9"]
       [[Some 4%R; Some 0%R; Some 8%R]; [Some 0%R; Some 12%R; Some 6%R]])
    None 1 None.

(** A disk with the working directory /home/etrago and nothing else. *)
Definition disk : FS :=
  mkFS ["home"; "etrago"]
       {[ [] := ∅; ["home"] := ∅; ["home"; "etrago"] := ∅ ]}.

Definition world (n : Network) : World := mkWorld {[ 0 := n ]} disk [].

(** The same network with the five snapshots of the hours 1 to 5. *)
Definition net5 : Network :=
  mkNetwork (seqZ 1 5) (buses net) (lines net) (transformers net)
    (generators net) (loads net) (carriers net) no_frame no_frame no_frame
    no_frame no_frame None 1 None.

(** Two parallel lines between buses that PyPSA's own examples would
    name: the bus ids are not integers. *)
Definition net_named : Network :=
  mkNetwork (snapshots net)
    [Bus.mk "Bus 1" 110; Bus.mk "Bus 2" 110]
    [line "1" "Bus 1" "Bus 2"; line "2" "Bus 2" "Bus 1"]
    [] [] [] [] no_frame no_frame no_frame no_frame no_frame None 1 None.

(** One bus and one generator whose label has leading zeros. *)
Definition net007 : Network :=
  mkNetwork (snapshots net) [bus1] [] []
    [Generator.mk "007" "1" "wind" 0 (Some 100%R)]
    [] [] no_frame no_frame no_frame no_frame no_frame None 1 None.

(** A PyPSA whose solvers leave the network as it is and whose export
    writes the file of network attributes only. *)
Definition pypsa : PyPSA.
Proof.
  refine {| extra_functionality_t := unit;
            lopf n _ _ _ := n;
            pf n _ _ := n;
            export_to_csv_folder _ :=
              {[ "network.csv" := mkTable ["name"; "now"] [[VStr ""; VStr "now"]] ]} |}.
  - reflexivity.
  - intros _. rewrite lookup_singleton_eq. by eexists.
Defined.
End Examples.

(** ** loading_minimization: the pyomo model of the linear OPF *)

(** [loading_minimization] is an [extra_functionality] callback: PyPSA
    calls it on the network after it has built [network.model], the
    pyomo model of the linear optimal power flow, and before it hands
    the model to the solver.  The model then has the variable
    [passive_branch_p] over the index set [passive_branch_p_index] (one
    tuple (component, line, snapshot) for every passive branch and
    snapshot) and an objective.  The function only reads and writes that
    model, which is the state that is passed here.

    A pyomo model is embedded as what the function builds: components
    by name, and expressions over variables; what a solver makes of it
    is given by [feasible] and [eval]. *)
Module Pyomo.
Section model.
(** the index tuples (c, l, t) *)
Context {K : Type}.

Inductive domain :=
  | Reals
  | PositiveReals.

Inductive expr :=
  | Const (c : R)
  | Ref (var : string) (i : K)          (* model.var[i] *)
  | Add (a b : expr)
  | Sub (a b : expr)
  | Mul (a b : expr).

Inductive constraint :=
  | Equal (a b : expr)                  (* a == b *)
  | LessEq (a b : expr).                (* a <= b *)

Inductive component :=
  | Var (index : list K) (within : domain)
  | Constraint (index : list K) (rule : K → constraint).

Record Model := mkModel {
  passive_branch_p_index : list K;
  components : gmap string component;
  objective : expr
}.

(** [sum(e for i in index)]: Python's sum starts from 0 and adds from
    the left. *)
Definition py_sum (es : list expr) : expr := foldl Add (Const 0) es.

(** Assigning a component to an attribute of the model adds it under
    that name (and replaces a component of that name). *)
Definition setattr (name : string) (c : component) (model : Model) : Model :=
  mkModel (passive_branch_p_index model) (<[name := c]> (components model))
          (objective model).

Definition loading_minimization (model : Model) (snapshots : list snapshot) : Model :=
  let model :=
    setattr "number1" (Var (passive_branch_p_index model) PositiveReals) model in
  let model :=
    setattr "number2" (Var (passive_branch_p_index model) PositiveReals) model in
  let cRule (i : K) :=
    Equal (Sub (Ref "number1" i) (Ref "number2" i)) (Ref "passive_branch_p" i) in
  let model :=
    setattr "cRule" (Constraint (passive_branch_p_index model) cRule) model in
  mkModel (passive_branch_p_index model) (components model)
    (Add (objective model)
       (Mul (Const 0.00001)
          (py_sum ((λ i, Add (Ref "number1" i) (Ref "number2" i))
                     <$> passive_branch_p_index model)))).

(** *** What the model means *)

(** A value for every variable at every index. *)
Definition valuation : Type := string → K → R.

Fixpoint eval (v : valuation) (e : expr) : R :=
  match e with
  | Const c => c
  | Ref var i => v var i
  | Add a b => (eval v a + eval v b)%R
  | Sub a b => (eval v a - eval v b)%R
  | Mul a b => (eval v a * eval v b)%R
  end.

(** pyomo's PositiveReals are the reals above 0. *)
Definition in_domain (d : domain) (x : R) : Prop :=
  match d with
  | Reals => True
  | PositiveReals => (0 < x)%R
  end.

Definition holds (v : valuation) (c : constraint) : Prop :=
  match c with
  | Equal a b => eval v a = eval v b
  | LessEq a b => (eval v a <= eval v b)%R
  end.

(** The valuation is a feasible point of the model: every variable is in
    its domain and every constraint holds, at every index. *)
Definition feasible (model : Model) (v : valuation) : Prop :=
  map_Forall (λ name c,
      match c with
      | Var index within => Forall (λ i, in_domain within (v name i)) index
      | Constraint index rule => Forall (λ i, holds v (rule i)) index
      end) (components model).

(** The variables that an expression refers to. *)
Fixpoint mentions (name : string) (e : expr) : Prop :=
  match e with
  | Const _ => False
  | Ref var _ => var = name
  | Add a b | Sub a b | Mul a b => mentions name a ∨ mentions name b
  end.

Definition constraint_mentions (name : string) (c : constraint) : Prop :=
  match c with
  | Equal a b | LessEq a b => mentions name a ∨ mentions name b
  end.

(** A model that does not use the name: no component has it and no
    constraint and not the objective refers to it. *)
Definition unused (name : string) (model : Model) : Prop :=
  components model !! name = None ∧
  ¬ mentions name (objective model) ∧
  map_Forall (λ _ c,
      match c with
      | Var _ _ => True
      | Constraint index rule => Forall (λ i, ¬ constraint_mentions name (rule i)) index
      end) (components model).

(** The sum of the absolute flows on the passive branches. *)
Definition total_flow (model : Model) (v : valuation) : R :=
  foldr Rplus 0%R ((λ i, Rabs (v "passive_branch_p" i)) <$> passive_branch_p_index model).
End model.
End Pyomo.

(** ** Further example networks *)

Module MoreExamples.
(** The generator of [Examples.net] under a name that is no integer. *)
Definition net_wind : Network :=
  set_generators [Generator.mk "wind 1" "1" "wind" 0 (Some 100%R)] Examples.net.

(** One generator whose label has leading zeros, in the network of three
    buses with its loads. *)
Definition net_zeros : Network :=
  set_generators [Generator.mk "007" "1" "wind" 0 (Some 100%R)] Examples.net.

(** A Z matrix, and [Examples.net] with it as attribute [network.Z]. *)
Definition Z : Table := mkTable ["1"; "2"] [[VInt 0; VInt 1]; [VInt 1; VInt 0]].

Definition net_Z : Network :=
  mkNetwork (snapshots Examples.net) (buses Examples.net) (lines Examples.net)
    (transformers Examples.net) (generators Examples.net) (loads Examples.net)
    (carriers Examples.net) (loads_t_p_set Examples.net)
    (generators_t_p_set Examples.net) (generators_t_p Examples.net)
    (lines_t_p0 Examples.net) (lines_t_q0 Examples.net)
    (lines_t_losses Examples.net) (results_solver_time Examples.net) (Some Z).


(** The second of two lines has a bus id that is no integer. *)
Definition net_mixed : Network :=
  set_lines [Examples.line "1" "3" "1"; Examples.line "2" "Bus 2" "1"] Examples.net.

(** The model of one line and two snapshots, without constraints. *)
Definition model : Pyomo.Model (K := string * string * snapshot) :=
  Pyomo.mkModel [("Line", "7", 1%Z); ("Line", "7", 2%Z)]
    {[ "passive_branch_p" :=
         Pyomo.Var [("Line", "7", 1%Z); ("Line", "7", 2%Z)] Pyomo.Reals ]}
    (Pyomo.Const 0).

(** A flow of 3 MW in the first hour and of -5 MW in the second. *)
Definition flows : Pyomo.valuation (K := string * string * snapshot) :=
  λ name i,
    if decide (name = "passive_branch_p") then
      (if decide (i.2 = 1%Z) then 3 else -5)%R
    else if decide (name = "number1") then
      (if decide (i.2 = 1%Z) then 4 else 1)%R
    else if decide (name = "number2") then
      (if decide (i.2 = 1%Z) then 1 else 6)%R
    else 0%R.
End MoreExamples.

(** * Properties *)

(** ** Running the monad *)

(** A list of explicit labels has no duplicates. *)
Ltac distinct_labels :=
  cbn;
  repeat (constructor;
          [by rewrite ?elem_of_cons, ?elem_of_nil; intuition discriminate|]);
  constructor.


Lemma bind_ok {A B} (m : M A) (k : A → M B) w a w' :
  m w = (Ok a, w') → (m ≫= k) w = k a w'.
Proof. intros E. unfold mbind, M_bind. by rewrite E. Qed.

Lemma bind_raise {A B} (m : M A) (k : A → M B) w e w' :
  m w = (Raise e, w') → (m ≫= k) w = (Raise e, w').
Proof. intros E. unfold mbind, M_bind. by rewrite E. Qed.

Lemma deref_ok network w n :
  heap w !! network = Some n → deref network w = (Ok n, w).
Proof. intros E. unfold deref. by rewrite E. Qed.

Lemma update_ok network f w n :
  heap w !! network = Some n →
  update network f w = (Ok tt, mkWorld (<[network := f n]> (heap w)) (fs w) (trace w)).
Proof. intros E. unfold update. by rewrite E. Qed.

(** ** Boolean masks *)

Lemma boolean_index_filter {A} (P : A → Prop) `{∀ x, Decision (P x)} (l : list A) :
  boolean_index l ((λ x, bool_decide (P x)) <$> l) = filter P l.
Proof.
  induction l as [|a l IH]; [done|]. cbn [fmap list_fmap boolean_index].
  rewrite IH. destruct (decide (P a)) as [Hp|Hp].
  - by rewrite bool_decide_eq_true_2, filter_cons_True.
  - by rewrite bool_decide_eq_false_2, filter_cons_False.
Qed.

(** ** buses_of_vlvl *)

(** C5: for every network and every list of voltage levels,
    [buses_of_vlvl] returns the index labels of the buses whose [v_nom]
    is a member of the list, in table order, and no other label. *)
Theorem buses_of_vlvl_spec (w : World) (network : ref) (net : Network)
    (voltage_level : list R) :
  heap w !! network = Some net →
  ∃ ids : list string,
    buses_of_vlvl network voltage_level w = (Ok ids, w) ∧
    ids = Bus.name <$> filter (λ b, Bus.v_nom b ∈ voltage_level) (buses net) ∧
    ∀ i, i ∈ ids ↔
         ∃ b, b ∈ buses net ∧ Bus.name b = i ∧ Bus.v_nom b ∈ voltage_level.
Proof.
  intros Hnet. eexists. split; [|split; [reflexivity|]].
  - unfold buses_of_vlvl. rewrite (bind_ok _ _ _ _ _ (deref_ok _ _ _ Hnet)).
    unfold mret, M_ret. do 3 f_equal.
    rewrite <- list_fmap_compose.
    apply (boolean_index_filter (λ b, Bus.v_nom b ∈ voltage_level)).
  - intros i. rewrite list_elem_of_fmap. split.
    + intros (b & -> & Hb). apply list_elem_of_filter in Hb as [Hv Hb]. eauto.
    + intros (b & Hb & <- & Hv). exists b. split; [done|].
      apply list_elem_of_filter. done.
Qed.

Lemma buses_of_vlvl_spec_witness :
  ∃ ids : list string,
    buses_of_vlvl 0 [110%R] (Examples.world Examples.net)
      = (Ok ids, Examples.world Examples.net) ∧
    ids = Bus.name <$> filter (λ b, Bus.v_nom b ∈ [110%R]) (buses Examples.net) ∧
    ∀ i, i ∈ ids ↔
         ∃ b, b ∈ buses Examples.net ∧ Bus.name b = i ∧ Bus.v_nom b ∈ [110%R].
Proof.
  apply (buses_of_vlvl_spec (Examples.world Examples.net) 0 Examples.net [110%R]).
  reflexivity.
Defined.

(** ** The queries leave the world as it is *)

(** C7: [buses_of_vlvl], [buses_grid_linked], [connected_grid_lines] and
    [connected_transformer] do not change the network (nor anything else
    in the world): every component table is the same after the call. *)
Theorem queries_frame (w : World) (network : ref)
    (voltage_level : list R) (busids : list string) :
  (buses_of_vlvl network voltage_level w).2 = w ∧
  (buses_grid_linked network voltage_level w).2 = w ∧
  (connected_grid_lines network busids w).2 = w ∧
  (connected_transformer network busids w).2 = w.
Proof.
  unfold buses_of_vlvl, buses_grid_linked, connected_grid_lines,
    connected_transformer, mbind, M_bind, deref, mret, M_ret.
  by destruct (heap w !! network).
Qed.

(** ** pf_post_lopf *)

Section pypsa_properties.
Context `{PyPSA}.

(** C10: [pf_post_lopf] returns the reference it was given, no new
    network object is created, and the power flow runs, once and with
    the scenario's time index and [use_seed=True], on that object after
    its [generators_t.p_set] has been replaced by [generators_t.p]: the
    network handed to the power flow has the frame [generators_t.p] of
    the given network in both places, and every other attribute as
    given. *)
Theorem pf_post_lopf_spec (w : World) (network : ref) (net : Network)
    (scenario : Scenario) :
  heap w !! network = Some net →
  ∃ (w' : World) (net_pf : Network),
    pf_post_lopf network scenario w = (Ok network, w') ∧
    heap w' = <[network := pf net_pf (timeindex scenario) true]> (heap w) ∧
    net_pf = mkNetwork (snapshots net) (buses net) (lines net) (transformers net)
               (generators net) (loads net) (carriers net) (loads_t_p_set net)
               (generators_t_p net) (generators_t_p net)
               (lines_t_p0 net) (lines_t_q0 net) (lines_t_losses net)
               (results_solver_time net) (Z_matrix net) ∧
    dom (heap w') = dom (heap w) ∧
    trace w' = trace w ++ [Pf network (timeindex scenario) true] ∧
    fs w' = fs w.
Proof.
  intros Hnet. unfold pf_post_lopf, network_pf.
  rewrite (bind_ok _ _ _ _ _ (deref_ok _ _ _ Hnet)).
  rewrite (bind_ok _ _ _ _ _ (update_ok _ _ _ _ Hnet)).
  erewrite (bind_ok (deref network)); [|apply deref_ok, lookup_insert_eq].
  erewrite (bind_ok (update network _)); [|apply update_ok, lookup_insert_eq].
  cbn [heap fs trace generators_t_p set_generators_t_p_set].
  rewrite insert_insert_eq.
  erewrite (bind_ok (emit _ ≫= _)); cycle 1.
  { unfold emit at 1. unfold mbind at 1, M_bind at 1.
    apply update_ok. cbn [heap]. apply lookup_insert_eq. }
  cbn [heap fs trace]. rewrite insert_insert_eq.
  eexists _, _. split; [reflexivity|]. cbn [heap fs trace].
  split; [reflexivity|]. split; [reflexivity|].
  repeat split. apply dom_insert_lookup_L. by eexists.
Qed.

(** ** parallelisation *)

Lemma take_seqZ (n : nat) (m len : Z) :
  (Z.of_nat n ≤ len)%Z → take n (seqZ m len) = seqZ m (Z.of_nat n).
Proof.
  intros Hn. unfold seqZ. rewrite <- fmap_take, take_seq. do 2 f_equal. lia.
Qed.

Lemma drop_seqZ (n : nat) (m len : Z) :
  drop n (seqZ m len) = seqZ (m + Z.of_nat n) (len - Z.of_nat n).
Proof.
  apply list_eq. intros i. rewrite lookup_drop.
  destruct (decide (Z.of_nat (n + i) < len)%Z).
  - rewrite !lookup_seqZ_lt by lia. f_equal. lia.
  - rewrite !lookup_seqZ_ge by lia. done.
Qed.

(** A window that lies within the snapshots. *)
Lemma py_slice_seqZ (m len a b : Z) :
  (0 ≤ a ≤ b)%Z → (b ≤ len)%Z →
  py_slice (seqZ m len) a b = seqZ (m + a) (b - a).
Proof.
  intros Ha Hb. unfold py_slice, slice_bound. rewrite length_seqZ.
  rewrite Z2Nat.id by lia.
  destruct (Z.ltb_spec a 0); [lia|]. destruct (Z.ltb_spec b 0); [lia|].
  rewrite !Z.min_l by lia. rewrite drop_seqZ, take_seqZ by lia.
  f_equal; lia.
Qed.

Lemma concat_windows (m g : Z) (k : nat) :
  (0 ≤ g)%Z →
  concat ((λ i, seqZ (m + g * i) g) <$> seqZ 0 (Z.of_nat k))
    = seqZ m (g * Z.of_nat k).
Proof.
  intros Hg. induction k as [|k IH].
  - rewrite Z.mul_0_r. reflexivity.
  - rewrite seqZ_S, fmap_app, concat_app, IH. cbn [fmap list_fmap concat].
    rewrite app_nil_r, Z.add_0_l.
    replace (g * Z.of_nat (S k))%Z with (g * Z.of_nat k + g)%Z by lia.
    rewrite seqZ_app by lia. reflexivity.
Qed.

Lemma lopf_windows_fmap (network : ref) (solver_name : string)
    (win : Z → list snapshot) (idx : list Z) :
  lopf_windows ((λ i, Lopf network (win i) solver_name) <$> idx) = win <$> idx.
Proof.
  unfold lopf_windows. induction idx as [|i idx IH]; [done|].
  cbn. by rewrite <- IH.
Qed.

(** The loop calls the solver once per index, on the window of that
    index, and the snapshots stay as they are. *)
Lemma parallelisation_loop (network : ref) (group_size : Z) (solver_name : string)
    (extra : option extra_functionality_t) (idx : list Z) (w : World) (net : Network) :
  heap w !! network = Some net →
  ∃ (w' : World) (net' : Network),
    for_each idx
      (λ i, net ← deref network;
            network_lopf network
              (py_slice (snapshots net) (group_size * i) (group_size * i + group_size))
              solver_name extra) w = (Ok tt, w') ∧
    heap w' !! network = Some net' ∧
    snapshots net' = snapshots net ∧
    fs w' = fs w ∧
    trace w' = trace w ++
      ((λ i, Lopf network
               (py_slice (snapshots net) (group_size * i)
                  (group_size * i + group_size)) solver_name) <$> idx).
Proof.
  revert w net. induction idx as [|i idx IH]; intros w net Hnet.
  - exists w, net. cbn. rewrite app_nil_r. done.
  - cbn [for_each].
    set (win := py_slice (snapshots net) (group_size * i)
                  (group_size * i + group_size)).
    set (w1 := mkWorld (<[network := lopf net win solver_name extra]> (heap w))
                       (fs w) (trace w ++ [Lopf network win solver_name])).
    destruct (IH w1 (lopf net win solver_name extra)) as (w' & net' & E & Hh & Hs & Hf & Ht).
    { apply lookup_insert_eq. }
    exists w', net'. split; [|split; [done|split; [|split; [done|]]]].
    + erewrite bind_ok; [exact E|].
      rewrite (bind_ok _ _ _ _ _ (deref_ok _ _ _ Hnet)).
      unfold network_lopf, emit. unfold mbind at 1, M_bind at 1.
      by rewrite (update_ok _ _ _ net).
    + by rewrite Hs, lopf_snapshots.
    + rewrite Ht, lopf_snapshots. cbn [trace w1 fmap list_fmap].
      by rewrite <- app_assoc.
Qed.

(** C3, as the code has it: on a network whose snapshots are the hours
    [start_h] to [end_h], and for a positive [group_size],
    [parallelisation] calls [network.lopf] floor((end_h - start_h + 1) /
    group_size) times, on consecutive windows of [group_size] snapshots;
    the snapshots solved are the first [group_size] * floor(...) hours
    of the range, each exactly once, and no other.  The hours left over
    when [group_size] does not divide the length of the range are not
    solved. *)
Theorem parallelisation_spec (w : World) (network : ref) (net : Network)
    (start_h end_h group_size : Z) (solver_name : string)
    (extra : option extra_functionality_t) :
  heap w !! network = Some net →
  (0 < group_size)%Z →
  snapshots net = seqZ start_h (end_h - start_h + 1) →
  let k := ((end_h - start_h + 1) `div` group_size)%Z in
  ∃ (w' : World) (calls : list event),
    parallelisation network start_h end_h group_size solver_name extra w
      = (Ok tt, w') ∧
    trace w' = trace w ++ calls ∧
    length calls = Z.to_nat k ∧
    lopf_windows calls
      = (λ i, seqZ (start_h + group_size * i) group_size) <$> seqZ 0 k ∧
    concat (lopf_windows calls) = seqZ start_h (group_size * k) ∧
    NoDup (concat (lopf_windows calls)) ∧
    ∀ h : snapshot, h ∈ concat (lopf_windows calls) ↔
                    (start_h ≤ h < start_h + group_size * k)%Z.
Proof.
  intros Hnet Hg Hsnap k. set (N := (end_h - start_h + 1)%Z) in *.
  assert (Hrange : py_range (N ÷ group_size) = seqZ 0 k).
  { unfold py_range, k. destruct (Z.le_gt_cases 0 N).
    - rewrite Z.quot_div_nonneg by lia. done.
    - rewrite !seqZ_nil; [done| |].
      + apply Z.lt_le_incl, Z.div_lt_upper_bound; lia.
      + pose proof (Z.quot_opp_l N group_size ltac:(lia)).
        pose proof (Z.quot_pos (- N) group_size ltac:(lia) ltac:(lia)). lia. }
  destruct (parallelisation_loop network group_size solver_name extra
              (seqZ 0 k) w net Hnet) as (w' & net' & E & _ & _ & _ & Ht).
  exists w', ((λ i, Lopf network
                      (py_slice (snapshots net) (group_size * i)
                         (group_size * i + group_size)) solver_name)
                <$> seqZ 0 k).
  assert (Hwin : lopf_windows
                   ((λ i, Lopf network
                            (py_slice (snapshots net) (group_size * i)
                               (group_size * i + group_size)) solver_name)
                      <$> seqZ 0 k)
                 = (λ i, seqZ (start_h + group_size * i) group_size) <$> seqZ 0 k).
  { rewrite lopf_windows_fmap. apply list_fmap_ext. intros j i Hi.
    apply lookup_seqZ in Hi as [-> Hj]. rewrite Hsnap.
    assert (group_size * k ≤ N)%Z by (apply Z.mul_div_le; lia).
    rewrite py_slice_seqZ by nia. f_equal. lia. }
  assert (Hcat : concat ((λ i, seqZ (start_h + group_size * i) group_size)
                           <$> seqZ 0 k) = seqZ start_h (group_size * k)).
  { destruct (Z.le_gt_cases 0 k).
    - rewrite <- (Z2Nat.id k) by done. apply concat_windows. lia.
    - rewrite !seqZ_nil by nia. done. }
  split; [|split; [done|split; [|split; [done|]]]].
  - unfold parallelisation, int_div. rewrite decide_False by lia.
    erewrite bind_ok; [|reflexivity]. fold N. rewrite Hrange. exact E.
  - by rewrite length_fmap, length_seqZ.
  - rewrite Hwin. unfold snapshot in *. rewrite Hcat.
    split; [done|]. split; [apply NoDup_seqZ|].
    intros h. rewrite elem_of_seqZ. done.
Qed.
End pypsa_properties.

(** ** results_to_csv *)

(** *** Paths and directories *)

Lemma is_dir_true d l : is_dir d l = true ↔ is_Some (d !! l).
Proof. unfold is_dir. apply bool_decide_eq_true. Qed.

Lemma is_dir_false d l : is_dir d l = false ↔ d !! l = None.
Proof.
  unfold is_dir. rewrite bool_decide_eq_false, <- eq_None_not_Some. done.
Qed.

(** A directory that is found is the one that the path names. *)
Lemma walk_target d l names l1 :
  walk d l names = IsDir l1 → l1 = foldl step l names.
Proof.
  revert l. induction names as [|name names IH]; intros l; cbn.
  - by intros [= <-].
  - destruct (is_dir d (step l name)); [apply IH|].
    destruct (file_at d l name); [by destruct names|done].
Qed.

(** Finding a directory depends on the directories alone. *)
Lemma walk_mono d d' l names l1 :
  (∀ k, is_Some (d !! k) → is_Some (d' !! k)) →
  walk d l names = IsDir l1 → walk d' l names = IsDir l1.
Proof.
  intros Hsub. revert l. induction names as [|name names IH]; intros l; cbn; [done|].
  destruct (is_dir d (step l name)) eqn:E.
  - apply is_dir_true, Hsub, is_dir_true in E. rewrite E. apply IH.
  - destruct (file_at d l name); [by destruct names|done].
Qed.

(** [makedirs] passes the directories that exist. *)
Lemma mkdirs_walk_dir d l names l1 :
  walk d l names = IsDir l1 → mkdirs d l names = (None, d).
Proof.
  revert l. induction names as [|name names IH]; intros l; cbn; [done|].
  destruct (is_dir d (step l name)); [apply IH|].
  destruct (file_at d l name); [by destruct names|done].
Qed.

Lemma mkdirs_walk_file d l names l1 name :
  walk d l names = IsFile l1 name → mkdirs d l names = (Some FileExistsError, d).
Proof.
  revert l. induction names as [|n names IH]; intros l; cbn; [done|].
  destruct (is_dir d (step l n)); [apply IH|].
  destruct (file_at d l n); [|done]. by destruct names.
Qed.

(** What [makedirs] leaves: the directories that were there, as they
    were, and new, empty ones on the way of the path. *)
Lemma mkdirs_grows d l names e d' :
  mkdirs d l names = (e, d') →
  (∀ k v, d !! k = Some v → d' !! k = Some v) ∧
  (∀ k v, d' !! k = Some v →
          d !! k = Some v ∨
          (d !! k = None ∧ v = ∅ ∧
           ∃ before, before `prefix_of` names ∧ k = foldl step l before)).
Proof.
  revert d l. induction names as [|name names IH]; intros d l; cbn.
  - intros [= <- <-]. split; [done|]. by left.
  - destruct (is_dir d (step l name)) eqn:E.
    + intros Hrun. destruct (IH _ _ Hrun) as [H1 H2]. split; [done|].
      intros k v Hk. destruct (H2 k v Hk) as [?|(? & ? & before & Hpre & ->)]; [by left|].
      right. split; [done|]. split; [done|]. exists (name :: before).
      split; [by apply prefix_cons|done].
    + destruct (file_at d l name).
      { intros [= <- <-]. split; [done|]. by left. }
      apply is_dir_false in E. intros Hrun. destruct (IH _ _ Hrun) as [H1 H2]. split.
      * intros k v Hk. apply H1. rewrite lookup_insert_ne; [done|]. congruence.
      * intros k v Hk.
        destruct (H2 k v Hk) as [Hin|(Hnone & -> & before & Hpre & ->)].
        -- destruct (decide (k = step l name)) as [->|Hne].
           ++ rewrite lookup_insert_eq in Hin. injection Hin as <-.
              right. split; [done|]. split; [done|]. exists [name].
              split; [|done]. apply prefix_cons, prefix_nil.
           ++ rewrite lookup_insert_ne in Hin by done. by left.
        -- right. split.
           { apply lookup_insert_None in Hnone. tauto. }
           split; [done|]. exists (name :: before).
           split; [by apply prefix_cons|done].
Qed.

Lemma mkdirs_keeps d l names e d' k :
  mkdirs d l names = (e, d') → is_Some (d !! k) → is_Some (d' !! k).
Proof.
  intros Hrun [v Hv]. exists v. by apply (mkdirs_grows _ _ _ _ _ Hrun).
Qed.

(** After a [makedirs] without error the path names a directory. *)
Lemma mkdirs_ok_walk d l names d' :
  mkdirs d l names = (None, d') → walk d' l names = IsDir (foldl step l names).
Proof.
  revert d l. induction names as [|name names IH]; intros d l; cbn; [done|].
  destruct (is_dir d (step l name)) eqn:E.
  - intros Hrun. apply is_dir_true in E.
    apply (mkdirs_keeps _ _ _ _ _ _ Hrun), is_dir_true in E. rewrite E. by eapply IH.
  - destruct (file_at d l name); [done|]. intros Hrun.
    assert (E' : is_dir d' (step l name) = true).
    { apply is_dir_true, (mkdirs_keeps _ _ _ _ _ _ Hrun).
      rewrite lookup_insert_eq. by eexists. }
    rewrite E'. by eapply IH.
Qed.

(** [makedirs] again, with the same outcome and nothing to make. *)
Lemma mkdirs_again d l names e d' :
  mkdirs d l names = (e, d') → mkdirs d' l names = (e, d').
Proof.
  revert d l. induction names as [|name names IH]; intros d l; cbn.
  - by intros [= <- <-].
  - destruct (is_dir d (step l name)) eqn:E.
    + intros Hrun. apply is_dir_true in E.
      apply (mkdirs_keeps _ _ _ _ _ _ Hrun), is_dir_true in E. rewrite E. by eapply IH.
    + destruct (file_at d l name) eqn:F.
      { intros [= <- <-]. by rewrite E, F. }
      intros Hrun.
      assert (E' : is_dir d' (step l name) = true).
      { apply is_dir_true, (mkdirs_keeps _ _ _ _ _ _ Hrun).
        rewrite lookup_insert_eq. by eexists. }
      rewrite E'. by eapply IH.
Qed.

(** A path to a file: the directory of the file is found, the file is
    the last name. *)
Lemma walk_file d l names l1 name :
  walk d l names = IsFile l1 name →
  ∃ before, names = before ++ [name] ∧ walk d l before = IsDir l1 ∧
            is_dir d (step l1 name) = false ∧ file_at d l1 name = true.
Proof.
  revert l. induction names as [|n names IH]; intros l; cbn; [done|].
  destruct (is_dir d (step l n)) eqn:E.
  - intros Hw. destruct (IH _ Hw) as (before & -> & Hb & Hd & Hf).
    exists (n :: before). cbn. by rewrite E.
  - destruct (file_at d l n) eqn:F; [|done]. destruct names; [|done].
    intros [= <- <-]. by exists [].
Qed.

Lemma rstrip_empty_last (before : list string) (name : string) :
  name ≠ "" → rstrip_empty (before ++ [name]) = before ++ [name].
Proof.
  intros Hn. induction before as [|b before IH]; cbn.
  - by rewrite bool_decide_eq_false_2.
  - rewrite IH. by destruct before.
Qed.

(** The listing of the directories in a directory. *)
Lemma elem_of_children d l name :
  name ∈ children d l ↔ is_Some (d !! (l ++ [name])).
Proof.
  unfold children. rewrite list_elem_of_omap. split.
  - intros (k & Hk & Hname).
    apply list_elem_of_fmap in Hk as ([k' v] & -> & Hk).
    apply elem_of_map_to_list in Hk. cbn in Hname.
    case_bool_decide as Hcond; [|done]. destruct Hcond as [_ <-].
    apply last_Some in Hname as [k0 ->]. rewrite removelast_last. by eexists.
  - intros [v Hv]. exists (l ++ [name]). split.
    + apply list_elem_of_fmap. exists (l ++ [name], v). split; [done|].
      by apply elem_of_map_to_list.
    + rewrite bool_decide_eq_true_2.
      * by rewrite last_snoc.
      * split; [by destruct l|apply removelast_last].
Qed.

(** The listing of a directory names "Z.csv" when a file or a directory
    of that name is in it. *)
Lemma listing_filter (names : list string) (name : string) :
  List.filter (λ i, bool_decide (i = name)) names = [] ↔ name ∉ names.
Proof.
  induction names as [|n names IH]; cbn.
  - split; [intros _; apply not_elem_of_nil|done].
  - rewrite not_elem_of_cons. case_bool_decide as E.
    + subst. split; [done|]. by intros [? _].
    + rewrite IH. split; [intros ?; split; congruence|tauto].
Qed.

Lemma listing_dir (d : gmap location (gmap string Table)) (l : location) (name : string) :
  List.filter (λ i, bool_decide (i = name))
    ((map_to_list (default ∅ (d !! l))).*1 ++ children d l) = [] ↔
  default ∅ (d !! l) !! name = None ∧ d !! (l ++ [name]) = None.
Proof.
  rewrite listing_filter, not_elem_of_app, elem_of_children.
  rewrite <- eq_None_not_Some.
  assert (Hfiles : name ∈ (map_to_list (default ∅ (d !! l))).*1
                   ↔ is_Some (default ∅ (d !! l) !! name)).
  { rewrite list_elem_of_fmap. split.
    - intros ([n t] & -> & Hin). apply elem_of_map_to_list in Hin. by eexists.
    - intros [t Ht]. exists (name, t). split; [done|]. by apply elem_of_map_to_list. }
  rewrite Hfiles, <- eq_None_not_Some. done.
Qed.

Lemma bind_assoc {A B C} (m : M A) (f : A → M B) (g : B → M C) (w : World) :
  (m ≫= λ a, f a ≫= g) w = ((m ≫= f) ≫= g) w.
Proof. unfold mbind, M_bind. by destruct (m w) as [[a|e] w']. Qed.

Lemma world_eta (w : World) :
  mkWorld (heap w) (mkFS (cwd (fs w)) (dirs (fs w))) (trace w) = w.
Proof. by destruct w as [h [c d] t]. Qed.

Lemma walk_is_dir d l names l1 :
  is_dir d l = true → walk d l names = IsDir l1 → is_dir d l1 = true.
Proof.
  revert l. induction names as [|name names IH]; intros l Hl; cbn.
  - by intros [= <-].
  - destruct (is_dir d (step l name)) eqn:E; [by apply IH|].
    destruct (file_at d l name); [by destruct names|done].
Qed.

Lemma step_stay (l : location) : step l "" = l.
Proof. done. Qed.

(** Lines 176 to 180 in a world: Z.csv is written unless the directory
    has a file or a directory of that name. *)
Lemma write_Z_run (d : string) (z : Table) (w : World) :
  (names ← os_listdir d;
   let file := List.filter (λ i, bool_decide (i = "Z.csv")) names in
   match file with
   | _ :: _ => mret tt
   | [] => write_file d "Z.csv" z
   end) w
  = match lookup_path (fs w) d with
    | IsDir ld =>
        (Ok tt,
         if bool_decide (default ∅ (dirs (fs w) !! ld) !! "Z.csv" = None
                         ∧ dirs (fs w) !! (ld ++ ["Z.csv"]) = None)
         then mkWorld (heap w)
                (mkFS (cwd (fs w))
                   (<[ld := <["Z.csv" := z]> (default ∅ (dirs (fs w) !! ld))]>
                      (dirs (fs w))))
                (trace w)
         else w)
    | IsFile _ _ => (Raise NotADirectoryError, w)
    | Missing e => (Raise e, w)
    end.
Proof.
  unfold os_listdir, write_file, get_fs, put_fs, mbind, M_bind, mret, M_ret, raise.
  destruct (lookup_path (fs w) d) as [ld| |e] eqn:Hd; [|done..]. cbv zeta.
  destruct (List.filter _ _) as [|n ns] eqn:Hfilter.
  - apply listing_dir in Hfilter. rewrite bool_decide_eq_true_2 by done.
    destruct Hfilter as [_ Hdir]. rewrite Hd.
    apply is_dir_false in Hdir. by rewrite Hdir.
  - rewrite bool_decide_eq_false_2; [done|].
    intros Hnone%listing_dir. by rewrite Hnone in Hfilter.
Qed.

Section results_to_csv_runs.
Context `{PyPSA}.

(** Lines 167 to 170: the directory is made where it is missing, with
    the directories above it, and the files of the export are written
    into it. *)
Lemma makedirs_export_run (w : World) (network : ref) (net : Network) (p : string) :
  heap w !! network = Some net →
  ((if os_path_exists p (fs w) then mret tt else os_makedirs p)
     ≫= λ _, export network p) w
  = if bool_decide (p = "") || negb (is_dir (dirs (fs w)) (start (fs w) p))
    then (Raise FileNotFoundError, w)
    else
      let r := mkdirs (dirs (fs w)) (start (fs w) p) (split_slash p) in
      let l := target (fs w) p in
      let w1 := mkWorld (heap w) (mkFS (cwd (fs w)) r.2) (trace w) in
      match r.1 with
      | Some e => (Raise e, w1)
      | None =>
          if decide (map_Forall (λ (name : string) (_ : Table),
                                   r.2 !! (l ++ [name]) = None)
                                (export_to_csv_folder net))
          then (Ok tt,
                mkWorld (heap w)
                  (mkFS (cwd (fs w))
                     (<[l := export_to_csv_folder net ∪ default ∅ (r.2 !! l)]> r.2))
                  (trace w))
          else (Raise IsADirectoryError, w1)
      end.
Proof.
  intros Hnet. destruct w as [h [c d] t]. cbn [fs heap trace cwd dirs] in *.
  unfold os_path_exists, lookup_path. cbn [dirs cwd].
  case_bool_decide as Hp.
  { subst p. cbn [orb]. apply bind_raise. unfold os_makedirs, get_fs, mbind, M_bind.
    cbn [fs]. by rewrite bool_decide_eq_true_2. }
  cbn [orb]. set (s := start (mkFS c d) p).
  destruct (is_dir d s) eqn:Hs; cbn [negb]; cycle 1.
  { apply bind_raise. unfold os_makedirs, get_fs, mbind, M_bind. cbn [fs dirs].
    rewrite bool_decide_eq_false_2 by done. fold s. by rewrite Hs. }
  cbv zeta. unfold target. fold s. cbn [cwd dirs].
  (* what [export] does once the path names a directory *)
  assert (Hexport : ∀ d1 : gmap location (gmap string Table),
            is_dir d1 s = true →
            walk d1 s (split_slash p) = IsDir (foldl step s (split_slash p)) →
            export network p (mkWorld h (mkFS c d1) t)
            = if decide (map_Forall (λ (name : string) (_ : Table),
                           d1 !! (foldl step s (split_slash p) ++ [name]) = None)
                           (export_to_csv_folder net))
              then (Ok tt,
                    mkWorld h
                      (mkFS c
                         (<[foldl step s (split_slash p)
                            := export_to_csv_folder net
                               ∪ default ∅ (d1 !! foldl step s (split_slash p))]> d1))
                      t)
              else (Raise IsADirectoryError, mkWorld h (mkFS c d1) t)).
  { intros d1 Hs1 Hw1. unfold export.
    rewrite (bind_ok _ _ _ _ _ (deref_ok network (mkWorld h (mkFS c d1) t) net Hnet)).
    unfold get_fs, put_fs, mbind, M_bind, mret, M_ret, raise. cbn [fs heap trace].
    unfold os_path_isdir, lookup_path. cbn [dirs cwd].
    rewrite bool_decide_eq_false_2 by done.
    change (start (mkFS c d1) p) with s. rewrite Hs1, Hw1. cbn [fs heap trace dirs cwd].
    change (start (mkFS c d1) p) with s. rewrite Hs1, Hw1.
    destruct (decide (map_Forall _ _)); reflexivity. }
  destruct (walk d s (split_slash p)) as [l1|l1 name|e0] eqn:Hwalk.
  - (* the directory exists *)
    pose proof (walk_target _ _ _ _ Hwalk) as ->.
    rewrite (mkdirs_walk_dir _ _ _ _ Hwalk). cbn [fst snd].
    erewrite bind_ok; [|reflexivity]. by apply Hexport.
  - (* a file of that name exists *)
    rewrite (mkdirs_walk_file _ _ _ _ _ Hwalk). cbn [fst snd].
    erewrite bind_ok; [|reflexivity]. unfold export.
    rewrite (bind_ok _ _ _ _ _ (deref_ok network (mkWorld h (mkFS c d) t) net Hnet)).
    erewrite bind_ok; [|reflexivity]. apply bind_raise.
    unfold os_path_isdir, lookup_path. cbn [fs dirs cwd].
    rewrite bool_decide_eq_false_2 by done. fold s. rewrite Hs, Hwalk.
    unfold os_mkdir, get_fs, mbind, M_bind, raise. cbn [fs dirs cwd].
    rewrite bool_decide_eq_false_2 by done. fold s. rewrite Hs.
    destruct (walk_file _ _ _ _ _ Hwalk) as (before & Hnames & Hbefore & Hdir & Hfile).
    assert (Hname : name ≠ "").
    { intros ->. rewrite step_stay in Hdir.
      by rewrite (walk_is_dir _ _ _ _ Hs Hbefore) in Hdir. }
    rewrite Hnames, rstrip_empty_last, removelast_last, last_snoc by done.
    by rewrite Hbefore, Hdir, Hfile.
  - (* the directory is made *)
    assert (Hmk : os_makedirs p (mkWorld h (mkFS c d) t)
                  = match (mkdirs d s (split_slash p)).1 with
                    | Some e => (Raise e, mkWorld h (mkFS c (mkdirs d s (split_slash p)).2) t)
                    | None => (Ok tt, mkWorld h (mkFS c (mkdirs d s (split_slash p)).2) t)
                    end).
    { unfold os_makedirs, get_fs, put_fs, mbind, M_bind, mret, M_ret, raise.
      cbn [fs dirs cwd heap trace].
      rewrite bool_decide_eq_false_2 by done. fold s. rewrite Hs.
      by destruct (mkdirs d s (split_slash p)).1. }
    destruct (mkdirs d s (split_slash p)) as [[e|] d1] eqn:Hrun; cbn [fst snd] in *.
    + by apply bind_raise.
    + erewrite bind_ok; [|exact Hmk]. apply Hexport.
      * apply is_dir_true, (mkdirs_keeps _ _ _ _ _ _ Hrun). by apply is_dir_true.
      * by apply mkdirs_ok_walk in Hrun.
Qed.

(** The world in which [results_to_csv] ends. *)
Lemma results_to_csv_run (w : World) (network : ref) (net : Network) (p : string)
    (exported : Table) :
  heap w !! network = Some net →
  export_to_csv_folder net !! "network.csv" = Some exported →
  results_to_csv network (Path p) w
  = if bool_decide (p = "") || negb (is_dir (dirs (fs w)) (start (fs w) p))
    then (Raise FileNotFoundError, w)
    else
      let r := mkdirs (dirs (fs w)) (start (fs w) p) (split_slash p) in
      let l := target (fs w) p in
      let w1 := mkWorld (heap w) (mkFS (cwd (fs w)) r.2) (trace w) in
      match r.1 with
      | Some e => (Raise e, w1)
      | None =>
          if decide (map_Forall (λ (name : string) (_ : Table),
                                   r.2 !! (l ++ [name]) = None)
                                (export_to_csv_folder net))
          then
            let data := assign_column "time" (VNum (results_solver_time net))
                          (read_csv exported) in
            let files := <["network.csv" := to_csv data]>
                           (export_to_csv_folder net ∪ default ∅ (r.2 !! l)) in
            let w3 := mkWorld (heap w) (mkFS (cwd (fs w)) (<[l := files]> r.2))
                        (trace w) in
            match Z_matrix net with
            | None => (Ok tt, w3)
            | Some z =>
                match lookup_path (fs w3) (py_strip "0123456789" p) with
                | IsDir ld =>
                    (Ok tt,
                     if bool_decide
                          (default ∅ (dirs (fs w3) !! ld) !! "Z.csv" = None
                           ∧ dirs (fs w3) !! (ld ++ ["Z.csv"]) = None)
                     then mkWorld (heap w3)
                            (mkFS (cwd (fs w3))
                               (<[ld := <["Z.csv" := z]>
                                          (default ∅ (dirs (fs w3) !! ld))]>
                                  (dirs (fs w3))))
                            (trace w3)
                     else w3)
                | IsFile _ _ => (Raise NotADirectoryError, w3)
                | Missing e => (Raise e, w3)
                end
            end
          else (Raise IsADirectoryError, w1)
      end.
Proof.
  intros Hnet Hexp. unfold results_to_csv.
  erewrite bind_ok; [|reflexivity]. rewrite bind_assoc.
  pose proof (makedirs_export_run w network net p Hnet) as Hrun.
  destruct (bool_decide (p = "") || negb (is_dir (dirs (fs w)) (start (fs w) p)))
    eqn:Hstart.
  { by apply bind_raise. }
  cbv zeta in *.
  apply orb_false_iff in Hstart as [Hp Hs].
  apply bool_decide_eq_false in Hp. apply negb_false_iff in Hs.
  destruct (mkdirs (dirs (fs w)) (start (fs w) p) (split_slash p)) as [[e|] d1] eqn:Hmk;
    cbn [fst snd] in *.
  { by apply bind_raise. }
  destruct (decide (map_Forall _ _)) as [Hfree|Hclash]; [|by apply bind_raise].
  erewrite bind_ok; [|exact Hrun]. clear Hrun.
  set (l := target (fs w) p) in *.
  set (old := default ∅ (d1 !! l)).
  set (e := export_to_csv_folder net) in *.
  (* the path names the directory [l] from now on *)
  assert (Hlook : ∀ files : gmap string Table,
            lookup_path (mkFS (cwd (fs w)) (<[l := files]> d1)) p = IsDir l).
  { intros files. unfold lookup_path. cbn [dirs cwd].
    rewrite bool_decide_eq_false_2 by done.
    change (start (mkFS (cwd (fs w)) (<[l:=files]> d1)) p) with (start (fs w) p).
    assert (Hsub : ∀ k, is_Some (dirs (fs w) !! k) → is_Some (<[l := files]> d1 !! k)).
    { intros k Hk. apply (mkdirs_keeps _ _ _ _ _ _ Hmk) in Hk.
      destruct (decide (k = l)) as [->|Hne].
      - rewrite lookup_insert_eq. by eexists.
      - by rewrite lookup_insert_ne. }
    assert (Hs' : is_dir (<[l := files]> d1) (start (fs w) p) = true).
    { apply is_dir_true, Hsub. by apply is_dir_true. }
    rewrite Hs'. apply (walk_mono d1).
    - intros k Hk. destruct (decide (k = l)) as [->|Hne].
      + rewrite lookup_insert_eq. by eexists.
      + by rewrite lookup_insert_ne.
    - by apply mkdirs_ok_walk in Hmk. }
  assert (Hnodir : ∀ files : gmap string Table,
            is_dir (<[l := files]> d1) (l ++ ["network.csv"]) = false).
  { intros files. apply is_dir_false. rewrite lookup_insert_ne.
    - apply (map_Forall_lookup_1 _ _ _ _ Hfree Hexp).
    - intros E. apply (f_equal length) in E. rewrite length_app in E. cbn in E. lia. }
  (* reading and rewriting network.csv *)
  erewrite bind_ok; cycle 1.
  { unfold read_file, get_fs, mbind, M_bind, mret, M_ret. cbn [fs heap trace].
    rewrite Hlook. cbn [dirs]. rewrite lookup_insert_eq. cbn [mbind option_bind].
    rewrite (lookup_union_Some_l _ _ _ _ Hexp). reflexivity. }
  erewrite bind_ok; [|by apply deref_ok].
  erewrite bind_ok; cycle 1.
  { unfold write_file, get_fs, put_fs, mbind, M_bind, mret, M_ret. cbn [fs heap trace].
    rewrite Hlook. cbn [dirs cwd]. rewrite Hnodir, lookup_insert_eq, insert_insert_eq.
    cbn [default]. reflexivity. }
  fold old.
  destruct (Z_matrix net) as [z|]; [|reflexivity].
  cbv zeta. apply write_Z_run.
Qed.
End results_to_csv_runs.

(** The column that [df[c] = v] sets, as it is written to the file. *)
Lemma assign_column_to_csv (c : string) (v : value) (t : Table) :
  Forall (λ row, length row = length (header t)) (body t) →
  ∃ j : nat,
    header (to_csv (assign_column c v t)) !! j = Some c ∧
    Forall (λ row, row !! j = Some v) (body (to_csv (assign_column c v t))).
Proof.
  intros Hwf. unfold assign_column.
  destruct (position c (header t)) as [j|] eqn:Hpos.
  - exists (S j). cbn [to_csv header body]. split.
    + cbn. clear Hwf. revert j Hpos.
      induction (header t) as [|h hs IH]; intros j Hpos; [done|].
      cbn in Hpos. destruct (decide (c = h)) as [->|Hne].
      * by injection Hpos as <-.
      * destruct (position c hs) as [j'|]; [|done].
        injection Hpos as <-. cbn. by apply IH.
    + assert (Hj : j < length (header t)).
      { clear Hwf. revert j Hpos.
        induction (header t) as [|h hs IH]; intros j Hpos; [done|].
        cbn in Hpos. destruct (decide (c = h)); [injection Hpos as <-; cbn; lia|].
        destruct (position c hs) as [j'|]; [|done].
        injection Hpos as <-. specialize (IH j' eq_refl). cbn. lia. }
      apply Forall_forall. intros row Hrow.
      apply elem_of_lookup_imap in Hrow as (i & row' & -> & Hrow').
      apply list_lookup_fmap_Some in Hrow' as (row0 & -> & Hrow0).
      cbn. apply list_lookup_insert_eq.
      rewrite Forall_forall in Hwf. rewrite (Hwf row0); [done|].
      by eapply list_elem_of_lookup_2.
  - exists (S (length (header t))). cbn [to_csv header body]. split.
    + cbn. by apply list_lookup_middle.
    + apply Forall_forall. intros row Hrow.
      apply elem_of_lookup_imap in Hrow as (i & row' & -> & Hrow').
      apply list_lookup_fmap_Some in Hrow' as (row0 & -> & Hrow0).
      cbn. apply list_lookup_middle. rewrite Forall_forall in Hwf.
      symmetry. apply Hwf. by eapply list_elem_of_lookup_2.
Qed.

(** Finding a directory by its path depends on the directories alone. *)
Lemma lookup_path_mono (c : location) (d d' : gmap location (gmap string Table))
    (q : string) (l : location) :
  (∀ k, is_Some (d !! k) → is_Some (d' !! k)) →
  lookup_path (mkFS c d) q = IsDir l → lookup_path (mkFS c d') q = IsDir l.
Proof.
  intros Hsub. unfold lookup_path. cbn [dirs].
  case_bool_decide; [done|].
  change (start (mkFS c d') q) with (start (mkFS c d) q).
  destruct (is_dir d (start (mkFS c d) q)) eqn:E; [|done].
  apply is_dir_true, Hsub, is_dir_true in E. rewrite E. by apply walk_mono.
Qed.

Lemma lookup_path_is_dir (f : FS) (q : string) (l : location) :
  lookup_path f q = IsDir l → is_Some (dirs f !! l).
Proof.
  unfold lookup_path. case_bool_decide; [done|].
  destruct (is_dir (dirs f) (start f q)) eqn:E; [|done].
  intros Hw. apply is_dir_true. by eapply walk_is_dir.
Qed.

(** A new, empty directory brings no file. *)
Lemma file_at_insert_empty d k l name :
  file_at (<[k := ∅]> d) l name = true → file_at d l name = true.
Proof.
  unfold file_at. rewrite !bool_decide_eq_true.
  destruct (decide (l = k)) as [->|Hne].
  - rewrite lookup_insert_eq. cbn. rewrite lookup_empty. by intros [? ?].
  - by rewrite lookup_insert_ne.
Qed.

(** Without a file on the way [makedirs] goes through. *)
Lemma mkdirs_clear d l names :
  (∀ before name, before ++ [name] `prefix_of` names →
                  file_at d (foldl step l before) name = false) →
  (mkdirs d l names).1 = None.
Proof.
  revert d l. induction names as [|name names IH]; intros d l Hclear; cbn; [done|].
  assert (Hrest : ∀ d', (∀ l' n, file_at d' l' n = true → file_at d l' n = true) →
            ∀ before n, before ++ [n] `prefix_of` names →
                        file_at d' (foldl step (step l name) before) n = false).
  { intros d' Hd' before n Hpre.
    destruct (file_at d' _ n) eqn:F; [|done]. apply Hd' in F.
    change (foldl step (step l name) before) with (foldl step l (name :: before)) in F.
    by rewrite (Hclear (name :: before) n) in F by (by apply prefix_cons). }
  destruct (is_dir d (step l name)).
  - apply IH. by apply Hrest.
  - pose proof (Hclear [] name (prefix_cons _ _ _ (prefix_nil _))) as F.
    cbn in F. rewrite F. apply IH, Hrest. apply file_at_insert_empty.
Qed.

Section results_to_csv_clear_way.
Context `{PyPSA}.

Lemma well_formed_start (f : FS) (p : string) :
  well_formed f → is_dir (dirs f) (start f p) = true.
Proof.
  intros (Hroot & Hcwd & _). apply is_dir_true. unfold start.
  destruct p as [|a p]; [done|].
  by destruct (Ascii.eqb_spec a "/") as [->|Hne];
    [|destruct a as [[] [] [] [] [] [] [] []]].
Qed.

(** On a path that is clear, the call gets as far as to the Z matrix. *)
Lemma results_to_csv_clear (w : World) (network : ref) (net : Network) (p : string)
    (exported : Table) :
  heap w !! network = Some net →
  export_to_csv_folder net !! "network.csv" = Some exported →
  well_formed (fs w) →
  p ≠ "" →
  no_file_on (fs w) p →
  no_dir_for (fs w) p (export_to_csv_folder net) →
  ∃ d1 : gmap location (gmap string Table),
    mkdirs (dirs (fs w)) (start (fs w) p) (split_slash p) = (None, d1) ∧
    results_to_csv network (Path p) w
    = let l := target (fs w) p in
      let data := assign_column "time" (VNum (results_solver_time net))
                    (read_csv exported) in
      let files := <["network.csv" := to_csv data]>
                     (export_to_csv_folder net ∪ default ∅ (d1 !! l)) in
      let w3 := mkWorld (heap w) (mkFS (cwd (fs w)) (<[l := files]> d1)) (trace w) in
      match Z_matrix net with
      | None => (Ok tt, w3)
      | Some z =>
          match lookup_path (fs w3) (py_strip "0123456789" p) with
          | IsDir ld =>
              (Ok tt,
               if bool_decide
                    (default ∅ (dirs (fs w3) !! ld) !! "Z.csv" = None
                     ∧ dirs (fs w3) !! (ld ++ ["Z.csv"]) = None)
               then mkWorld (heap w3)
                      (mkFS (cwd (fs w3))
                         (<[ld := <["Z.csv" := z]>
                                    (default ∅ (dirs (fs w3) !! ld))]>
                            (dirs (fs w3))))
                      (trace w3)
               else w3)
          | IsFile _ _ => (Raise NotADirectoryError, w3)
          | Missing e => (Raise e, w3)
          end
      end.
Proof.
  intros Hnet Hexp Hwf Hp Hfile Hdir.
  pose proof (mkdirs_clear (dirs (fs w)) (start (fs w) p) (split_slash p) Hfile) as Hnone.
  destruct (mkdirs (dirs (fs w)) (start (fs w) p) (split_slash p)) as [e d1] eqn:Hmk.
  cbn in Hnone. subst e. exists d1. split; [done|].
  rewrite (results_to_csv_run _ _ _ _ _ Hnet Hexp).
  rewrite bool_decide_eq_false_2, (well_formed_start _ _ Hwf) by done.
  cbn [orb negb]. rewrite Hmk. cbn [fst snd]. cbv zeta.
  destruct (decide (map_Forall _ _)) as [Hfree|Hclash]; [done|].
  destruct Hclash. intros name t Hname.
  destruct (d1 !! (target (fs w) p ++ [name])) as [v|] eqn:E; [|done].
  exfalso. apply (Hdir name (target (fs w) p ++ [name])); [by eexists| |done].
  destruct (mkdirs_grows _ _ _ _ _ Hmk) as [_ Hnew].
  destruct (Hnew _ _ E) as [Hold|(_ & _ & before & Hpre & Hloc)].
  - left. by eexists.
  - right. by exists before.
Qed.

(** C6, as the code has it.  With [path == False], [results_to_csv]
    returns None and nothing changes: no directory, no file, not the
    network.  With a path that is not empty and that the system accepts,
    on a disk on which no file stands where the path needs a directory
    and no directory where the export writes a file: the directory at
    [path] exists afterwards, it holds the files of the export, and its
    network.csv is the exported one with the column 'time' set to the
    solver time.  The files that the directory had, and that the export
    does not write, are kept; the directories that were there keep
    their files, but for the directory of the export and the one of
    Z.csv; the directories that are new are those on the way of the
    path.  The network is not changed. *)
Theorem results_to_csv_spec (w : World) (network : ref) (net : Network) (p : string) :
  heap w !! network = Some net →
  well_formed (fs w) →
  valid_path p →
  p ≠ "" →
  no_file_on (fs w) p →
  no_dir_for (fs w) p (export_to_csv_folder net) →
  results_to_csv network PathFalse w = (Ok tt, w) ∧
  ∃ (r : result unit) (w' : World) (files : gmap string Table) (exported : Table),
    results_to_csv network (Path p) w = (r, w') ∧
    (Z_matrix net = None → r = Ok tt) ∧
    heap w' = heap w ∧ trace w' = trace w ∧ cwd (fs w') = cwd (fs w) ∧
    lookup_path (fs w') p = IsDir (target (fs w) p) ∧
    dirs (fs w') !! target (fs w) p = Some files ∧
    (∀ name t, export_to_csv_folder net !! name = Some t →
               name ≠ "network.csv" → files !! name = Some t) ∧
    export_to_csv_folder net !! "network.csv" = Some exported ∧
    let data := assign_column "time" (VNum (results_solver_time net))
                  (read_csv exported) in
    files !! "network.csv" = Some (to_csv data) ∧
    (Forall (λ row, length row = length (header exported)) (body exported) →
     ∃ j : nat, header (to_csv data) !! j = Some "time" ∧
                Forall (λ row, row !! j = Some (VNum (results_solver_time net)))
                       (body (to_csv data))) ∧
    (∀ name t, default ∅ (dirs (fs w) !! target (fs w) p) !! name = Some t →
               export_to_csv_folder net !! name = None → files !! name = Some t) ∧
    (∀ l old, dirs (fs w) !! l = Some old →
              l ≠ target (fs w) p →
              Z_matrix net = None
              ∨ lookup_path (fs w') (py_strip "0123456789" p) ≠ IsDir l →
              dirs (fs w') !! l = Some old) ∧
    (∀ l, is_Some (dirs (fs w') !! l) → dirs (fs w) !! l = None →
          on_the_way (fs w) p l).
Proof.
  intros Hnet Hwf _ Hp Hfile Hdir. split; [reflexivity|].
  destruct (export_network_csv net) as [exported Hexp].
  destruct (results_to_csv_clear _ _ _ _ _ Hnet Hexp Hwf Hp Hfile Hdir)
    as (d1 & Hmk & Hrun).
  cbv zeta in Hrun.
  destruct (mkdirs_grows _ _ _ _ _ Hmk) as [Hkeep Hnew].
  set (c := cwd (fs w)) in *.
  set (l := target (fs w) p) in *.
  set (e := export_to_csv_folder net) in *.
  set (data := assign_column "time" (VNum (results_solver_time net)) (read_csv exported))
    in *.
  set (old1 := default ∅ (d1 !! l)) in *.
  set (files3 := <["network.csv" := to_csv data]> (e ∪ old1)) in *.
  set (d3 := <[l := files3]> d1) in *.
  set (W := λ d, mkWorld (heap w) (mkFS c d) (trace w)).
  set (q := py_strip "0123456789" p) in *.
  assert (Hwalk1 : walk d1 (start (fs w) p) (split_slash p) = IsDir l).
  { by apply mkdirs_ok_walk in Hmk. }
  assert (Hs1 : is_dir d1 (start (fs w) p) = true).
  { apply is_dir_true, (mkdirs_keeps _ _ _ _ _ _ Hmk), is_dir_true.
    by apply well_formed_start. }
  assert (Hl1 : is_Some (d1 !! l)).
  { apply is_dir_true. by eapply walk_is_dir. }
  assert (Hlook1 : lookup_path (mkFS c d1) p = IsDir l).
  { unfold lookup_path. cbn [dirs]. rewrite bool_decide_eq_false_2 by done.
    change (start (mkFS c d1) p) with (start (fs w) p). by rewrite Hs1. }
  assert (Hcol : Forall (λ row, length row = length (header exported)) (body exported) →
                 ∃ j : nat, header (to_csv data) !! j = Some "time" ∧
                   Forall (λ row, row !! j = Some (VNum (results_solver_time net)))
                          (body (to_csv data))).
  { intros Hrows. apply assign_column_to_csv. cbn [read_csv header body].
    by rewrite length_imap. }
  assert (Hdom3 : ∀ k, is_Some (d3 !! k) ↔ is_Some (d1 !! k)).
  { intros k. unfold d3. destruct (decide (k = l)) as [->|Hne].
    - rewrite lookup_insert_eq. split; [done|by eexists].
    - by rewrite lookup_insert_ne. }
  (* what holds of every world in which the call can end *)
  match goal with
  | |- ?G =>
      assert (Hgen : ∀ (r : result unit) (d' : gmap location (gmap string Table))
                       (files : gmap string Table),
                results_to_csv network (Path p) w = (r, W d') →
                (Z_matrix net = None → r = Ok tt) →
                (∀ k, is_Some (d' !! k) ↔ is_Some (d3 !! k)) →
                d' !! l = Some files →
                (∀ name t, files3 !! name = Some t → files !! name = Some t) →
                (∀ l', l' ≠ l →
                       Z_matrix net = None ∨ lookup_path (mkFS c d') q ≠ IsDir l' →
                       d' !! l' = d3 !! l') →
                G)
  end.
  { intros r d' files Hr Hok Hdom Hfiles Hsub Hother.
    exists r, (W d'), files, exported. cbv zeta. cbn [W heap fs trace cwd dirs].
    split; [done|]. split; [done|]. split; [done|]. split; [done|]. split; [done|].
    split.
    { apply (lookup_path_mono c d1); [|done].
      intros k Hk. by apply Hdom, Hdom3. }
    split; [done|]. split.
    { intros name t Hname Hne. apply Hsub. unfold files3.
      rewrite lookup_insert_ne by done. by apply lookup_union_Some_l. }
    split; [done|]. split.
    { apply Hsub. unfold files3. apply lookup_insert_eq. }
    split; [done|]. split.
    { intros name t Hold Hnone. apply Hsub. unfold files3.
      rewrite lookup_insert_ne by (intros <-; congruence).
      rewrite lookup_union_r by done. unfold old1.
      destruct (dirs (fs w) !! l) as [old|] eqn:El;
        [|cbn in Hold; by rewrite lookup_empty in Hold].
      rewrite (Hkeep _ _ El). exact Hold. }
    split.
    { intros l' old Hl' Hne HZ. rewrite (Hother l' Hne HZ). unfold d3.
      rewrite lookup_insert_ne by done. by apply Hkeep. }
    intros l' Hl' Hnone. apply Hdom, Hdom3 in Hl' as [v Hv].
    destruct (Hnew _ _ Hv) as [Hold|(_ & _ & before & Hpre & Hloc)]; [congruence|].
    by exists before. }
  assert (Hd3l : d3 !! l = Some files3) by apply lookup_insert_eq.
  destruct (Z_matrix net) as [z|] eqn:HZ.
  2:{ apply (Hgen (Ok tt) d3 files3); try done. }
  cbn [fs dirs cwd heap trace] in Hrun. fold d3 in Hrun.
  destruct (lookup_path (mkFS c d3) q) as [ld|l0 n0|e0] eqn:Hq.
  2:{ apply (Hgen (Raise NotADirectoryError) d3 files3); try done. }
  2:{ apply (Hgen (Raise e0) d3 files3); try done. }
  case_bool_decide as Hcond.
  2:{ apply (Hgen (Ok tt) d3 files3); try done. }
  destruct Hcond as [HnoZ HnoZdir].
  set (fd := default ∅ (d3 !! ld)) in *.
  pose proof (lookup_path_is_dir _ _ _ Hq) as Hld. cbn [dirs] in Hld.
  assert (Hdom' : ∀ k, is_Some (<[ld := <["Z.csv" := z]> fd]> d3 !! k) ↔ is_Some (d3 !! k)).
  { intros k. destruct (decide (k = ld)) as [->|Hne].
    - rewrite lookup_insert_eq. split; [done|by eexists].
    - by rewrite lookup_insert_ne. }
  assert (Hother' : ∀ l', l' ≠ l →
            Some z = None
            ∨ lookup_path (mkFS c (<[ld := <["Z.csv" := z]> fd]> d3)) q ≠ IsDir l' →
            <[ld := <["Z.csv" := z]> fd]> d3 !! l' = d3 !! l').
  { intros l' Hne [?|Hnot]; [done|]. rewrite lookup_insert_ne; [done|].
    intros <-. apply Hnot. apply (lookup_path_mono c d3); [|done].
    intros k. apply Hdom'. }
  set (dZ := <[ld := <["Z.csv" := z]> fd]> d3) in *.
  destruct (decide (ld = l)) as [Heq|Hne].
  - apply (Hgen (Ok tt) dZ (<["Z.csv" := z]> files3)); try done.
    + unfold dZ. rewrite Heq, lookup_insert_eq. unfold fd. by rewrite Heq, Hd3l.
    + intros name t Hname. rewrite lookup_insert_ne; [done|].
      intros <-. unfold fd in HnoZ. rewrite Heq, Hd3l in HnoZ. cbn in HnoZ. congruence.
  - apply (Hgen (Ok tt) dZ files3); try done.
    unfold dZ. by rewrite lookup_insert_ne.
Qed.
End results_to_csv_clear_way.


Lemma pf_post_lopf_spec_witness :
  ∃ (w' : World) (net_pf : Network),
    pf_post_lopf (H := Examples.pypsa) 0 (mkScenario [1; 2]%Z)
      (Examples.world Examples.net) = (Ok 0, w') ∧
    heap w' = <[0 := pf (PyPSA := Examples.pypsa) net_pf [1; 2]%Z true]>
                (heap (Examples.world Examples.net)) ∧
    net_pf = mkNetwork (snapshots Examples.net) (buses Examples.net)
               (lines Examples.net) (transformers Examples.net)
               (generators Examples.net) (loads Examples.net)
               (carriers Examples.net) (loads_t_p_set Examples.net)
               (generators_t_p Examples.net) (generators_t_p Examples.net)
               (lines_t_p0 Examples.net) (lines_t_q0 Examples.net)
               (lines_t_losses Examples.net)
               (results_solver_time Examples.net) (Z_matrix Examples.net) ∧
    dom (heap w') = dom (heap (Examples.world Examples.net)) ∧
    trace w' = trace (Examples.world Examples.net) ++ [Pf 0 [1; 2]%Z true] ∧
    fs w' = fs (Examples.world Examples.net).
Proof.
  apply (pf_post_lopf_spec (H := Examples.pypsa) (Examples.world Examples.net) 0
           Examples.net (mkScenario [1; 2]%Z)).
  reflexivity.
Defined.

Lemma parallelisation_spec_witness :
  ∃ (w' : World) (calls : list event),
    parallelisation (H := Examples.pypsa) 0 1 5 2 "glpk" None
      (Examples.world Examples.net5) = (Ok tt, w') ∧
    trace w' = trace (Examples.world Examples.net5) ++ calls ∧
    length calls = 2 ∧
    lopf_windows calls = (λ i, seqZ (1 + 2 * i) 2) <$> seqZ 0 2 ∧
    concat (lopf_windows calls) = seqZ 1 4 ∧
    NoDup (concat (lopf_windows calls)) ∧
    ∀ h : snapshot, h ∈ concat (lopf_windows calls) ↔ (1 ≤ h < 1 + 4)%Z.
Proof.
  apply (parallelisation_spec (H := Examples.pypsa) (Examples.world Examples.net5) 0
           Examples.net5 1 5 2 "glpk" None).
  - reflexivity.
  - lia.
  - reflexivity.
Defined.

(** C3 as stated fails: with five snapshots and windows of two, the
    solver is called twice and the fifth snapshot is never solved. *)
Lemma parallelisation_counterexample :
  ∃ w' : World,
    parallelisation (H := Examples.pypsa) 0 1 5 2 "glpk" None
      (Examples.world Examples.net5) = (Ok tt, w') ∧
    lopf_windows (trace w') = [[1; 2]; [3; 4]]%Z ∧
    ¬ (∀ h : snapshot, (1 ≤ h ≤ 5)%Z → h ∈ concat (lopf_windows (trace w'))).
Proof.
  eexists. split; [vm_compute; reflexivity|]. split; [reflexivity|].
  intros Hall. specialize (Hall 5%Z ltac:(lia)). cbn in Hall.
  repeat (apply elem_of_cons in Hall as [Hall|Hall]; [discriminate|]).
  by apply elem_of_nil in Hall.
Qed.

(** *** The example disk *)

Lemma step_length (l : location) (name : string) :
  name ≠ ".." → length l ≤ length (step l name).
Proof.
  intros Hn. unfold step. case_bool_decide; [done|].
  rewrite bool_decide_eq_false_2 by done. rewrite length_app. lia.
Qed.

Lemma foldl_step_length (l : location) (names : list string) :
  ".." ∉ names → length l ≤ length (foldl step l names).
Proof.
  revert l. induction names as [|name names IH]; intros l Hn; [done|].
  apply not_elem_of_cons in Hn as [Hne Hn]. cbn.
  etrans; [|by apply IH]. apply step_length. congruence.
Qed.

(** A path without ".." only goes down: no directory on its way lies
    below the one that it names. *)
Lemma no_dir_for_fresh (f : FS) (p : string) (files : gmap string Table) :
  ".." ∉ split_slash p →
  map_Forall (λ (l : location) (_ : gmap string Table),
                length l ≤ length (target f p)) (dirs f) →
  no_dir_for f p files.
Proof.
  intros Hup Hdirs name l _ Hl ->.
  assert (Hlen : length (target f p ++ [name]) ≤ length (target f p));
    [|rewrite length_app in Hlen; cbn in Hlen; lia].
  destruct Hl as [[v Hv]|(before & [rest Hpre] & Hloc)].
  - by apply (map_Forall_lookup_1 _ _ _ _ Hdirs Hv).
  - rewrite Hloc at 1. unfold target. rewrite Hpre, foldl_app.
    apply foldl_step_length. intros Hin. apply Hup. rewrite Hpre.
    apply elem_of_app. by right.
Qed.

(** On a disk without files no file is in the way. *)
Lemma no_file_on_empty (f : FS) (p : string) :
  map_Forall (λ (_ : location) (files : gmap string Table), files = ∅) (dirs f) →
  no_file_on f p.
Proof.
  intros Hempty before name _. unfold file_at. apply bool_decide_eq_false.
  intros [t Ht]. destruct (dirs f !! _) as [files|] eqn:E; [|done].
  rewrite (map_Forall_lookup_1 _ _ _ _ Hempty E) in Ht. cbn in Ht.
  by rewrite lookup_empty in Ht.
Qed.

Ltac not_in_list :=
  let H := fresh in
  intros H; repeat (apply elem_of_cons in H as [H|H]; [discriminate|]);
  by apply elem_of_nil in H.

Ltac valid_path_literal :=
  unfold valid_path; split; [cbn; not_in_list|];
  split; [apply Nat.ltb_lt; by vm_compute|];
  cbn [split_slash Ascii.eqb Bool.eqb]; repeat constructor; apply Nat.leb_le; by vm_compute.

Lemma disk_well_formed : well_formed Examples.disk.
Proof.
  unfold well_formed, Examples.disk. cbn [dirs cwd].
  split; [rewrite lookup_insert_eq; by eexists|]. split.
  { rewrite !lookup_insert_ne, lookup_singleton_eq by done. by eexists. }
  repeat apply map_Forall_insert_2; [..|apply map_Forall_empty];
    (split; [|apply map_Forall_empty]); cbn; [done|..].
  - split; [rewrite lookup_insert_eq; by eexists|]. split; not_in_list.
  - split; [|split; not_in_list].
    rewrite lookup_insert_ne, lookup_insert_eq by done. by eexists.
Qed.

Lemma disk_empty :
  map_Forall (λ (_ : location) (files : gmap string Table), files = ∅)
             (dirs Examples.disk).
Proof.
  unfold Examples.disk. cbn [dirs].
  by repeat apply map_Forall_insert_2; [..|apply map_Forall_empty].
Qed.

Lemma results_to_csv_spec_witness :
  let w := Examples.world Examples.net in
  let p := "results" in
  results_to_csv (H := Examples.pypsa) 0 PathFalse w = (Ok tt, w) ∧
  ∃ (r : result unit) (w' : World) (files : gmap string Table) (exported : Table),
    results_to_csv (H := Examples.pypsa) 0 (Path p) w = (r, w') ∧
    (Z_matrix Examples.net = None → r = Ok tt) ∧
    heap w' = heap w ∧ trace w' = trace w ∧ cwd (fs w') = cwd (fs w) ∧
    lookup_path (fs w') p = IsDir (target (fs w) p) ∧
    dirs (fs w') !! target (fs w) p = Some files ∧
    (∀ name t, export_to_csv_folder (PyPSA := Examples.pypsa) Examples.net !! name
               = Some t →
               name ≠ "network.csv" → files !! name = Some t) ∧
    export_to_csv_folder (PyPSA := Examples.pypsa) Examples.net !! "network.csv"
      = Some exported ∧
    let data := assign_column "time" (VNum (results_solver_time Examples.net))
                  (read_csv exported) in
    files !! "network.csv" = Some (to_csv data) ∧
    (Forall (λ row, length row = length (header exported)) (body exported) →
     ∃ j : nat, header (to_csv data) !! j = Some "time" ∧
                Forall (λ row, row !! j = Some (VNum (results_solver_time Examples.net)))
                       (body (to_csv data))) ∧
    (∀ name t, default ∅ (dirs (fs w) !! target (fs w) p) !! name = Some t →
               export_to_csv_folder (PyPSA := Examples.pypsa) Examples.net !! name = None →
               files !! name = Some t) ∧
    (∀ l old, dirs (fs w) !! l = Some old →
              l ≠ target (fs w) p →
              Z_matrix Examples.net = None
              ∨ lookup_path (fs w') (py_strip "0123456789" p) ≠ IsDir l →
              dirs (fs w') !! l = Some old) ∧
    (∀ l, is_Some (dirs (fs w') !! l) → dirs (fs w) !! l = None →
          on_the_way (fs w) p l).
Proof.
  apply (results_to_csv_spec (H := Examples.pypsa) (Examples.world Examples.net) 0
           Examples.net "results").
  - reflexivity.
  - apply disk_well_formed.
  - valid_path_literal.
  - discriminate.
  - apply no_file_on_empty, disk_empty.
  - apply no_dir_for_fresh; [cbn; not_in_list|].
    unfold Examples.world, Examples.disk. cbn [fs dirs].
    repeat apply map_Forall_insert_2; [..|apply map_Forall_empty];
      apply Nat.leb_le; by vm_compute.
Defined.

(** C6 as stated fails for the empty path: [os.makedirs('')] raises
    FileNotFoundError; no directory is made, nothing is exported and no
    network.csv is rewritten. *)
Lemma results_to_csv_counterexample :
  results_to_csv (H := Examples.pypsa) 0 (Path "") (Examples.world Examples.net)
    = (Raise FileNotFoundError, Examples.world Examples.net).
Proof.
  destruct (export_network_csv (PyPSA := Examples.pypsa) Examples.net) as [exported Hexp].
  by rewrite (results_to_csv_run (H := Examples.pypsa) _ 0 Examples.net "" exported).
Qed.

(** ** load_shedding *)

(** A label that is the decimal numeral of the integer it denotes. *)
Lemma py_int_canonical (s : string) :
  py_str <$> py_int s = Some s → ∃ z : Z, py_int s = Some z ∧ py_str z = s.
Proof.
  destruct (py_int s) as [z|]; [|done]. cbn. intros [= E]. by exists z.
Qed.

Lemma astype_int_canonical (labels : list string) :
  Forall (λ s, py_str <$> py_int s = Some s) labels →
  ∃ ids : list Z,
    astype_int labels = Some ids ∧
    Forall2 (λ s z, py_int s = Some z ∧ py_str z = s) labels ids.
Proof.
  induction 1 as [|s labels Hs _ (ids & E & HF)].
  - by exists [].
  - apply py_int_canonical in Hs as (z & Hz & Hsz). exists (z :: ids).
    unfold astype_int in *. cbn. rewrite Hz. cbn. rewrite E. cbn.
    split; [done|]. by constructor.
Qed.

Lemma foldl_max (l : list Z) (z : Z) :
  foldl Z.max z l ∈ z :: l ∧ Forall (λ y, (y ≤ foldl Z.max z l)%Z) (z :: l).
Proof.
  revert z. induction l as [|y l IH]; intros z; cbn [foldl].
  - split; [left|]. by repeat constructor.
  - destruct (IH (Z.max z y)) as [Hin Hle]. split.
    + apply elem_of_cons in Hin as [->|Hin]; [|by do 2 right].
      destruct (Z.max_spec z y) as [[_ ->]|[_ ->]]; [right|]; left.
    + apply Forall_cons in Hle as [Hm Hle].
      repeat constructor; [lia|lia|done].
Qed.

Lemma index_max_spec (ids : list Z) :
  ids ≠ [] →
  ∃ m : Z, index_max ids = Some m ∧ m ∈ ids ∧ Forall (λ z, (z ≤ m)%Z) ids.
Proof.
  destruct ids as [|z l]; [done|]. intros _. eexists. split; [reflexivity|].
  apply foldl_max.
Qed.

Lemma load_shedding_frame_names (marginal_cost : R) (p_nom : cell)
    (bus index : list string) :
  length index = length bus →
  Generator.name <$> load_shedding_frame marginal_cost p_nom bus index = index.
Proof.
  unfold load_shedding_frame. revert bus.
  induction index as [|i index IH]; intros [|b bus] Hlen; try done.
  cbn. f_equal. apply IH. by injection Hlen.
Qed.

(** The labels that lines 116 to 120 compute. *)
Lemma load_shedding_index_ok (net : Network) (w : World) :
  generators net ≠ [] →
  Forall (λ gen, py_str <$> py_int (Generator.name gen) = Some (Generator.name gen))
         (generators net) →
  ∃ m : Z,
    (∃ gen, gen ∈ generators net ∧ py_int (Generator.name gen) = Some m
            ∧ py_str m = Generator.name gen) ∧
    (∀ gen, gen ∈ generators net →
            ∃ z, py_int (Generator.name gen) = Some z ∧ (z ≤ m)%Z) ∧
    load_shedding_index net w
      = (Ok (py_str <$> seqZ m (Z.of_nat (length (buses net)))), w).
Proof.
  intros Hne Hcan.
  destruct (astype_int_canonical (Generator.name <$> generators net))
    as (ids & Hids & HF).
  { by apply Forall_fmap. }
  destruct (index_max_spec ids) as (m & Hm & Hin & Hle).
  { intros ->. apply Forall2_nil_inv_r in HF.
    by apply fmap_nil_inv in HF. }
  exists m. split; [|split].
  - apply list_elem_of_lookup in Hin as [i Hi].
    destruct (Forall2_lookup_r _ _ _ _ _ HF Hi) as (s & Hs & Hz & Hsz).
    apply list_lookup_fmap_Some in Hs as (gen & -> & Hgen).
    exists gen. split; [by eapply list_elem_of_lookup_2|done].
  - intros gen Hgen. apply list_elem_of_lookup in Hgen as [i Hi].
    assert (Hs : (Generator.name <$> generators net) !! i = Some (Generator.name gen))
      by (by apply list_lookup_fmap_Some_2).
    destruct (Forall2_lookup_l _ _ _ _ _ HF Hs) as (z & Hz & Hpz & _).
    exists z. split; [done|]. rewrite Forall_forall in Hle. apply Hle.
    by eapply list_elem_of_lookup_2.
  - unfold load_shedding_index. rewrite Hids. cbn [try].
    erewrite bind_ok; [|reflexivity]. rewrite Hm. cbn [try].
    erewrite bind_ok; [|reflexivity]. unfold py_range2.
    by replace (m + Z.of_nat (length (buses net)) - m)%Z
      with (Z.of_nat (length (buses net))) by lia.
Qed.

Lemma add_carrier_generators (name : string) (n : Network) :
  generators (add_carrier name n) = generators n.
Proof. unfold add_carrier. by destruct (bool_decide _). Qed.

Lemma add_carrier_buses (name : string) (n : Network) :
  buses (add_carrier name n) = buses n.
Proof. unfold add_carrier. by destruct (bool_decide _). Qed.

Lemma load_shedding_frame_lookup (marginal_cost : R) (p_nom : cell)
    (bus : list string) (m : Z) (i : nat) (b : string) :
  bus !! i = Some b →
  load_shedding_frame marginal_cost p_nom bus (py_str <$> seqZ m (Z.of_nat (length bus)))
    !! i
  = Some (Generator.mk (py_str (m + Z.of_nat i)) b "load shedding" marginal_cost p_nom).
Proof.
  intros Hb. unfold load_shedding_frame. apply lookup_zip_with_Some.
  eexists _, _. split; [reflexivity|]. split; [|done].
  rewrite list_lookup_fmap, lookup_seqZ_lt; [done|].
  apply lookup_lt_Some in Hb. lia.
Qed.

Lemma load_shedding_frame_length (marginal_cost : R) (p_nom : cell)
    (bus : list string) (m : Z) :
  length (load_shedding_frame marginal_cost p_nom bus
            (py_str <$> seqZ m (Z.of_nat (length bus)))) = length bus.
Proof.
  unfold load_shedding_frame.
  rewrite length_zip_with, length_fmap, length_seqZ. lia.
Qed.

(** The three ways in which [load_shedding] ends, whatever PyPSA does
    with the new generators. *)
Lemma load_shedding_with_run (import : list Generator.t → Network → Network)
    (w : World) (network : ref) (net : Network) (kwargs : gmap string R) :
  heap w !! network = Some net →
  let net1 := add_carrier "load" net in
  let w1 := mkWorld (<[network := net1]> (heap w)) (fs w) (trace w) in
  let marginal_cost := default 10000%R (kwargs !! "marginal_cost") in
  let p_nom := from_option Some (frame_max_max (loads_t_p_set net)) (kwargs !! "p_nom") in
  load_shedding_with import network kwargs w =
    match astype_int (Generator.name <$> generators net) with
    | None => (Raise ValueError, w1)
    | Some ids =>
        match index_max ids with
        | None => (Raise TypeError, w1)
        | Some m =>
            (Ok tt,
             mkWorld
               (<[network :=
                    import
                      (load_shedding_frame marginal_cost p_nom (Bus.name <$> buses net)
                         (py_str <$> seqZ m (Z.of_nat (length (buses net)))))
                      net1]> (heap w))
               (fs w) (trace w))
        end
    end.
Proof.
  intros Hnet net1 w1 marginal_cost p_nom. unfold load_shedding_with.
  rewrite (bind_ok _ _ _ _ _ (deref_ok _ _ _ Hnet)).
  rewrite (bind_ok _ _ _ _ _ (update_ok _ _ _ _ Hnet)). fold net1 w1.
  erewrite (bind_ok (deref network)); [|apply deref_ok, lookup_insert_eq].
  assert (Hgen1 : generators net1 = generators net) by apply add_carrier_generators.
  assert (Hbus1 : buses net1 = buses net) by apply add_carrier_buses.
  unfold load_shedding_index. rewrite Hgen1.
  destruct (astype_int _) as [ids|]; cbn [try];
    unfold mbind, M_bind, mret, M_ret, raise; cbv beta iota; [|reflexivity].
  destruct (index_max ids) as [m|]; cbn [try];
    unfold mret, M_ret, raise; cbv beta iota; [|reflexivity].
  erewrite update_ok; [|apply lookup_insert_eq].
  cbn [heap fs trace w1]. rewrite insert_insert_eq, !Hbus1.
  unfold py_range2.
  by replace (m + Z.of_nat (length (buses net)) - m)%Z
    with (Z.of_nat (length (buses net))) by lia.
Qed.

(** C8, as the code has it: on a network with at least one generator,
    every generator label being the numeral that Python prints for an
    integer (str(int(s)) == s) within the range of [int64], the labels
    with the number of buses added as well, [load_shedding] hands PyPSA
    one new generator per bus, in the order of the buses and of the
    carrier "load shedding", labelled str(m), str(m+1), ..., str(m+n-1),
    where m is the largest generator label as an integer and n the number
    of buses; when there is a bus, the first new label str(m) is the label
    of a generator that exists already.  What is handed to PyPSA is what
    [import] receives, whatever PyPSA then does with it. *)
Theorem load_shedding_index_spec (w : World) (network : ref) (net : Network)
    (kwargs : gmap string R) (import : list Generator.t → Network → Network) :
  heap w !! network = Some net →
  generators net ≠ [] →
  Forall (λ gen, ∃ z : Z,
            py_int (Generator.name gen) = Some z ∧ py_str z = Generator.name gen ∧
            int64 z ∧ int64 (z + Z.of_nat (length (buses net))))
         (generators net) →
  ∃ (m : Z) (df : list Generator.t) (net1 : Network),
    (∃ gen, gen ∈ generators net ∧ py_int (Generator.name gen) = Some m) ∧
    (∀ gen, gen ∈ generators net →
            ∃ z, py_int (Generator.name gen) = Some z ∧ (z ≤ m)%Z) ∧
    load_shedding_with import network kwargs w
      = (Ok tt, mkWorld (<[network := import df net1]> (heap w)) (fs w) (trace w)) ∧
    generators net1 = generators net ∧
    buses net1 = buses net ∧
    length df = length (buses net) ∧
    (∀ (i : nat) (bus : Bus.t),
       buses net !! i = Some bus →
       ∃ g : Generator.t,
         df !! i = Some g ∧
         Generator.name g = py_str (m + Z.of_nat i) ∧
         Generator.bus g = Bus.name bus ∧
         Generator.carrier g = "load shedding") ∧
    (buses net ≠ [] → py_str m ∈ Generator.name <$> generators net).
Proof.
  intros Hnet Hne Hcan.
  assert (Hcan' : Forall (λ gen, py_str <$> py_int (Generator.name gen)
                                 = Some (Generator.name gen)) (generators net)).
  { eapply Forall_impl; [exact Hcan|]. intros gen (z & -> & <- & _). done. }
  destruct (astype_int_canonical (Generator.name <$> generators net))
    as (ids & Hids & HF).
  { by apply Forall_fmap. }
  destruct (index_max_spec ids) as (m & Hm & Hin & Hle).
  { intros ->. apply Forall2_nil_inv_r in HF. by apply fmap_nil_inv in HF. }
  assert (Hmax : ∃ gen, gen ∈ generators net ∧ py_int (Generator.name gen) = Some m
                        ∧ py_str m = Generator.name gen).
  { apply list_elem_of_lookup in Hin as [i Hi].
    destruct (Forall2_lookup_r _ _ _ _ _ HF Hi) as (s & Hs & Hz & Hsz).
    apply list_lookup_fmap_Some in Hs as (gen & -> & Hgen).
    exists gen. split; [by eapply list_elem_of_lookup_2|done]. }
  destruct Hmax as (gmax & Hgmax & Hpm & Hsm).
  eexists m, _, _.
  split; [by exists gmax|]. split.
  { intros gen Hgen. apply list_elem_of_lookup in Hgen as [i Hi].
    assert (Hs : (Generator.name <$> generators net) !! i = Some (Generator.name gen))
      by (by apply list_lookup_fmap_Some_2).
    destruct (Forall2_lookup_l _ _ _ _ _ HF Hs) as (z & Hz & Hpz & _).
    exists z. split; [done|]. rewrite Forall_forall in Hle. apply Hle.
    by eapply list_elem_of_lookup_2. }
  split.
  { rewrite (load_shedding_with_run import _ _ _ _ Hnet), Hids, Hm. reflexivity. }
  split; [apply add_carrier_generators|]. split; [apply add_carrier_buses|].
  split.
  { rewrite <- (length_fmap Bus.name (buses net)) at 1 2.
    rewrite load_shedding_frame_length. by rewrite length_fmap. }
  split.
  { intros i bus Hbus. eexists. split.
    - rewrite <- (length_fmap Bus.name (buses net)).
      apply load_shedding_frame_lookup. by rewrite list_lookup_fmap, Hbus.
    - done. }
  intros _. rewrite Hsm. by apply list_elem_of_fmap_2.
Qed.

Lemma load_shedding_index_spec_witness :
  ∃ (m : Z) (df : list Generator.t) (net1 : Network),
    (∃ gen, gen ∈ generators Examples.net ∧ py_int (Generator.name gen) = Some m) ∧
    (∀ gen, gen ∈ generators Examples.net →
            ∃ z, py_int (Generator.name gen) = Some z ∧ (z ≤ m)%Z) ∧
    load_shedding_with import_components_from_dataframe 0 ∅
      (Examples.world Examples.net)
      = (Ok tt,
         mkWorld (<[0 := import_components_from_dataframe df net1]>
                    (heap (Examples.world Examples.net)))
                 (fs (Examples.world Examples.net))
                 (trace (Examples.world Examples.net))) ∧
    generators net1 = generators Examples.net ∧
    buses net1 = buses Examples.net ∧
    length df = length (buses Examples.net) ∧
    (∀ (i : nat) (bus : Bus.t),
       buses Examples.net !! i = Some bus →
       ∃ g : Generator.t,
         df !! i = Some g ∧
         Generator.name g = py_str (5 + Z.of_nat i) ∧
         Generator.bus g = Bus.name bus ∧
         Generator.carrier g = "load shedding") ∧
    (buses Examples.net ≠ [] → py_str m ∈ Generator.name <$> generators Examples.net).
Proof.
  destruct (load_shedding_index_spec (Examples.world Examples.net) 0 Examples.net ∅
              import_components_from_dataframe)
    as (m & df & net1 & Hmax & Hle & Hrun & Hgen & Hbus & Hlen & Hdf & Hfirst).
  - reflexivity.
  - discriminate.
  - apply Forall_cons. split; [|by apply Forall_nil].
    exists 5%Z. unfold int64. repeat split; try done; cbn; lia.
  - exists m, df, net1. repeat split; try done.
    assert (m = 5%Z) as ->; [|done].
    destruct Hmax as (gen & Hgen' & Hm).
    apply list_elem_of_singleton in Hgen' as ->. vm_compute in Hm. congruence.
Defined.

(** C8 as stated fails for a label that is a decimal integer but not the
    numeral Python prints: the generator "007" is the integer 7, the new
    label is "7", and no generator has that label. *)
Lemma load_shedding_index_counterexample :
  astype_int (Generator.name <$> generators Examples.net007) = Some [7%Z] ∧
  (load_shedding_index Examples.net007 (Examples.world Examples.net007)).1
    = Ok ["7"] ∧
  "7" ∉ Generator.name <$> generators Examples.net007.
Proof.
  split; [reflexivity|]. split; [reflexivity|].
  cbn. rewrite elem_of_cons, elem_of_nil. intros [?|[]]. discriminate.
Qed.

(** PyPSA refuses new components of which one has the name of a component
    that exists. *)
Lemma import_components_refused (df : list Generator.t) (n : Network) (s : string) :
  s ∈ Generator.name <$> generators n →
  s ∈ Generator.name <$> df →
  import_components_from_dataframe df n = n.
Proof.
  intros Hold Hnew. unfold import_components_from_dataframe.
  rewrite decide_False; [done|]. rewrite fmap_app. intros Hnd.
  apply NoDup_app in Hnd as (_ & Hdisj & _). by apply (Hdisj s).
Qed.

(** With a generator (labels being decimal numerals) and a bus in the
    network, the first new label is taken already, PyPSA refuses the new
    generators and the table of generators stays as it was. *)
Lemma load_shedding_refused (w : World) (network : ref) (net : Network)
    (kwargs : gmap string R) :
  heap w !! network = Some net →
  generators net ≠ [] →
  Forall (λ gen, py_str <$> py_int (Generator.name gen) = Some (Generator.name gen))
         (generators net) →
  buses net ≠ [] →
  load_shedding network kwargs w
    = (Ok tt, mkWorld (<[network := add_carrier "load" net]> (heap w)) (fs w) (trace w)).
Proof.
  intros Hnet Hne Hcan Hbus.
  set (net1 := add_carrier "load" net).
  assert (Hgen1 : generators net1 = generators net).
  { unfold net1, add_carrier. by destruct (bool_decide _). }
  assert (Hbus1 : buses net1 = buses net).
  { unfold net1, add_carrier. by destruct (bool_decide _). }
  set (w1 := mkWorld (<[network := net1]> (heap w)) (fs w) (trace w)).
  destruct (load_shedding_index_ok net1 w1) as (m & (gen & Hgen & Hm & Hgm) & _ & Hidx).
  { by rewrite Hgen1. } { by rewrite Hgen1. }
  unfold load_shedding, load_shedding_with.
  rewrite (bind_ok _ _ _ _ _ (deref_ok _ _ _ Hnet)).
  rewrite (bind_ok _ _ _ _ _ (update_ok _ _ _ _ Hnet)). fold net1 w1.
  erewrite (bind_ok (deref network)); [|apply deref_ok, lookup_insert_eq].
  rewrite (bind_ok _ _ _ _ _ Hidx).
  erewrite update_ok; [|apply lookup_insert_eq].
  cbn [heap fs trace w1]. rewrite insert_insert_eq.
  rewrite (import_components_refused _ net1 (py_str m)); [done| |].
  - rewrite Hgm. by apply list_elem_of_fmap_2.
  - rewrite load_shedding_frame_names
      by (rewrite !length_fmap, length_seqZ, Hbus1; lia).
    rewrite Hbus1, seqZ_cons by (destruct (buses net); [done|cbn; lia]).
    left.
Qed.

(** C4 on a network with the generator "5" and three buses: the labels
    computed for the new generators are "5", "6" and "7", the first is
    the label of the generator that exists, and after the call the table
    of generators holds that generator alone: no generator was added for
    any bus. *)
Theorem load_shedding_adds_no_generator :
  ∃ (w' : World) (net' : Network),
    load_shedding 0 ∅ (Examples.world Examples.net) = (Ok tt, w') ∧
    (load_shedding_index Examples.net (Examples.world Examples.net)).1
      = Ok ["5"; "6"; "7"] ∧
    heap w' !! 0 = Some net' ∧
    Bus.name <$> buses net' = ["1"; "2"; "3"] ∧
    generators net' = [Generator.mk "5" "1" "wind" 0 (Some 100%R)].
Proof.
  eexists _, _. split; [|split; [reflexivity|split; [|split]]].
  - apply (load_shedding_refused _ _ Examples.net).
    + reflexivity.
    + discriminate.
    + repeat constructor.
    + discriminate.
  - cbn [heap]. apply lookup_insert_eq.
  - reflexivity.
  - reflexivity.
Qed.

(** ** calc_line_losses *)

Lemma frame_binop_aligned (f : cell → cell → cell) (F G : Frame) :
  index F = index G → columns F = columns G →
  frame_binop f F G
    = mkFrame (index F) (columns F) (zip_with (zip_with f) (data F) (data G)).
Proof. intros Hi Hc. unfold frame_binop. by rewrite decide_True. Qed.

Lemma frame_series_binop_aligned (f : cell → cell → cell) (F : Frame)
    (labels : list string) (values : list cell) :
  columns F = labels →
  frame_series_binop f F labels values
    = mkFrame (index F) (columns F) ((λ row, zip_with f row values) <$> data F).
Proof. intros Hc. unfold frame_series_binop. by rewrite decide_True. Qed.

(** With aligned frames all the arithmetic is cell by cell. *)
Lemma iat_frame_map (g : cell → cell) (F : Frame) (t j : nat) :
  iat (frame_map g F) t j = g <$> iat F t j.
Proof.
  unfold iat, frame_map. cbn [data]. rewrite list_lookup_fmap.
  destruct (data F !! t) as [row|]; [|done]. cbn. apply list_lookup_fmap.
Qed.

Lemma iat_frame_binop (f : cell → cell → cell) (F G : Frame) (t j : nat) :
  index F = index G → columns F = columns G →
  iat (frame_binop f F G) t j
    = a ← iat F t j; b ← iat G t j; Some (f a b).
Proof.
  intros Hi Hc. rewrite frame_binop_aligned by done. unfold iat. cbn [data].
  rewrite lookup_zip_with.
  destruct (data F !! t) as [r1|]; [|done]. cbn.
  destruct (data G !! t) as [r2|]; cbn.
  - apply lookup_zip_with.
  - by destruct (r1 !! j).
Qed.

Lemma iat_frame_series_binop (f : cell → cell → cell) (F : Frame)
    (labels : list string) (values : list cell) (t j : nat) :
  columns F = labels →
  iat (frame_series_binop f F labels values) t j
    = a ← iat F t j; b ← values !! j; Some (f a b).
Proof.
  intros Hc. rewrite frame_series_binop_aligned by done. unfold iat. cbn [data].
  rewrite list_lookup_fmap.
  destruct (data F !! t) as [r1|]; [|done]. cbn. apply lookup_zip_with.
Qed.

Lemma s0_lines_shape (net : Network) :
  pf_results net →
  index (s0_lines net) = index (lines_t_p0 net) ∧
  columns (s0_lines net) = Line.name <$> lines net.
Proof.
  intros (Hidx & _ & Hp & Hq & _). unfold s0_lines.
  rewrite frame_binop_aligned by (cbn; congruence). done.
Qed.

Lemma i0_lines_shape (net : Network) (v_nom : list R) :
  pf_results net →
  index (i0_lines net v_nom) = index (lines_t_p0 net) ∧
  columns (i0_lines net v_nom) = Line.name <$> lines net.
Proof.
  intros Hpf. destruct (s0_lines_shape net Hpf) as [Hi Hc]. unfold i0_lines.
  rewrite frame_series_binop_aligned by done. done.
Qed.

Lemma losses_per_timestep_shape (net : Network) (v_nom : list R) :
  pf_results net →
  index (losses_per_timestep net v_nom) = index (lines_t_p0 net) ∧
  columns (losses_per_timestep net v_nom) = Line.name <$> lines net.
Proof.
  intros Hpf. destruct (i0_lines_shape net v_nom Hpf) as [Hi Hc].
  unfold losses_per_timestep.
  rewrite frame_series_binop_aligned by done. done.
Qed.

Lemma losses_per_timestep_iat (net : Network) (v_nom : list R)
    (t j : nat) (p q : cell) (line : Line.t) (v : R) :
  pf_results net →
  iat (lines_t_p0 net) t j = Some p →
  iat (lines_t_q0 net) t j = Some q →
  lines net !! j = Some line → v_nom !! j = Some v →
  iat (losses_per_timestep net v_nom) t j =
    Some (cdiv (cmul (csquare (cdiv (cmul (csqrt (cadd (csquare p) (csquare q)))
                                          (Some 1000000%R))
                                    (Some (v * 1000)%R)))
                     (Some (Line.r line)))
               (Some 1000000%R)).
Proof.
  intros Hpf Hpj Hqj Hline Hv.
  destruct (s0_lines_shape net Hpf) as [_ Hc0].
  destruct (i0_lines_shape net v_nom Hpf) as [_ Hc1].
  destruct Hpf as (Hidx & _ & Hp & Hq & _).
  unfold losses_per_timestep. rewrite iat_frame_map.
  rewrite iat_frame_series_binop by done. rewrite iat_frame_map.
  unfold i0_lines. rewrite iat_frame_series_binop by done. rewrite iat_frame_map.
  unfold s0_lines. rewrite iat_frame_map.
  rewrite iat_frame_binop by (cbn; congruence).
  rewrite !iat_frame_map, Hpj, Hqj. cbn.
  rewrite !list_lookup_fmap, Hv, Hline. done.
Qed.

(** The arithmetic on frames keeps a frame of numbers a frame of numbers;
    NaN comes only from NaN. *)
Lemma numbers_frame_map (g : cell → cell) (F : Frame) :
  (∀ c, is_Some c → is_Some (g c)) → numbers F → numbers (frame_map g F).
Proof.
  intros Hg [Hlen Hrows]. split; cbn [frame_map data index columns].
  - by rewrite length_fmap.
  - apply Forall_fmap. eapply Forall_impl; [exact Hrows|].
    intros row [Hl Hr]. cbn. split; [by rewrite length_fmap|].
    apply Forall_fmap. eapply Forall_impl; [exact Hr|]. done.
Qed.

Lemma numbers_frame_binop (f : cell → cell → cell) (F G : Frame) :
  index F = index G → columns F = columns G →
  (∀ a b, is_Some a → is_Some b → is_Some (f a b)) →
  numbers F → numbers G → numbers (frame_binop f F G).
Proof.
  intros Hi Hc Hf [HlF HrF] [HlG HrG]. rewrite frame_binop_aligned by done.
  split; cbn [data index columns].
  - rewrite length_zip_with. rewrite HlF, HlG, Hi. lia.
  - apply Forall_forall. intros row Hrow.
    apply elem_of_zip_with in Hrow as (r1 & r2 & -> & H1 & H2).
    rewrite Forall_forall in HrF, HrG.
    destruct (HrF _ H1) as [L1 S1], (HrG _ H2) as [L2 S2]. split.
    + rewrite length_zip_with. unfold cell in *. rewrite L1, L2, Hc. lia.
    + apply Forall_forall. intros c Hcell.
      apply elem_of_zip_with in Hcell as (a & b & -> & Ha & Hb).
      rewrite Forall_forall in S1, S2. by apply Hf; [apply S1|apply S2].
Qed.

Lemma numbers_frame_series_binop (f : cell → cell → cell) (F : Frame)
    (labels : list string) (values : list cell) :
  columns F = labels → length values = length labels → Forall is_Some values →
  (∀ a b, is_Some a → is_Some b → is_Some (f a b)) →
  numbers F → numbers (frame_series_binop f F labels values).
Proof.
  intros Hc Hlen Hvals Hf [HlF HrF]. rewrite frame_series_binop_aligned by done.
  split; cbn [data index columns].
  - by rewrite length_fmap.
  - apply Forall_fmap. eapply Forall_impl; [exact HrF|].
    intros row [Hl Hr]. cbn. split.
    + rewrite length_zip_with. unfold cell in *. rewrite Hl, Hlen, Hc. lia.
    + apply Forall_forall. intros c Hcell.
      apply elem_of_zip_with in Hcell as (a & b & -> & Ha & Hb).
      rewrite Forall_forall in Hr, Hvals. by apply Hf; [apply Hr|apply Hvals].
Qed.

Lemma losses_per_timestep_numbers (net : Network) (v_nom : list R) :
  pf_results net → length v_nom = length (lines net) →
  numbers (losses_per_timestep net v_nom).
Proof.
  intros Hpf Hlen.
  destruct (s0_lines_shape net Hpf) as [_ Hc0].
  destruct (i0_lines_shape net v_nom Hpf) as [_ Hc1].
  destruct Hpf as (Hidx & _ & Hp & Hq & Np & Nq & _).
  assert (Hlift : ∀ (g : R → R → R) (a b : cell),
            is_Some a → is_Some b → is_Some (lift2 g a b)).
  { by intros g a b [x ->] [y ->]. }
  assert (Hmap : ∀ (g : R → R) (c : cell), is_Some c → is_Some (g <$> c)).
  { by intros g c [x ->]. }
  unfold losses_per_timestep.
  apply numbers_frame_map; [intros c Hc; by apply Hlift|].
  apply numbers_frame_series_binop;
    [done|by rewrite !length_fmap| |intros a b; apply Hlift|].
  { apply Forall_fmap, Forall_forall. intros l _. by eexists. }
  apply numbers_frame_map; [apply Hmap|]. unfold i0_lines.
  apply numbers_frame_series_binop;
    [done|by rewrite !length_fmap| |intros a b; apply Hlift|].
  { apply Forall_fmap, Forall_forall. intros v _. by eexists. }
  apply numbers_frame_map; [intros c Hc; by apply Hlift|]. unfold s0_lines.
  apply numbers_frame_map; [apply Hmap|].
  apply numbers_frame_binop; cbn [frame_map index columns];
    [done|congruence|intros a b; apply Hlift|..];
    by apply numbers_frame_map; [apply Hmap|].
Qed.

(** A column of a frame of numbers, as the list of its numbers. *)
Lemma column_numbers (F : Frame) (j : nat) :
  numbers F → j < length (columns F) →
  ∃ xs : list R,
    column F j = Some <$> xs ∧ length xs = length (index F) ∧
    ∀ (t : nat) (x : R), xs !! t = Some x →
      ∃ row, data F !! t = Some row ∧ row !! j = Some (Some x).
Proof.
  intros [Hlen Hrows] Hj. unfold column. rewrite <- Hlen. clear Hlen.
  induction Hrows as [|row rows [Hl Hr] _ IH].
  - exists []. by repeat split.
  - destruct IH as (xs & E & L & Hxs).
    destruct (lookup_lt_is_Some_2 row j) as [c Hc]; [lia|].
    rewrite Forall_forall in Hr.
    destruct (Hr c) as [x ->]; [by eapply list_elem_of_lookup_2|].
    exists (x :: xs). rewrite !fmap_cons. unfold cell in *. rewrite Hc. cbn [mjoin option_join].
    split; [by f_equal|]. split; [cbn; by f_equal|].
    intros [|t] y Ht; cbn in Ht.
    + injection Ht as <-. by exists row.
    + by apply Hxs.
Qed.

(** The sum of a column of numbers, with a cell at least. *)
Lemma nansum_numbers (xs : list R) :
  xs ≠ [] → nansum (Some <$> xs) = Some (foldr Rplus 0%R xs).
Proof.
  destruct xs as [|x xs]; [done|]. intros _.
  cbn [fmap list_fmap nansum forallb]. rewrite bool_decide_eq_false_2 by done.
  cbn [andb]. f_equal. change (Some x :: (Some <$> xs)) with (Some <$> x :: xs).
  generalize (x :: xs). clear.
  induction l as [|y l IH]; [done|]. cbn. by rewrite <- IH.
Qed.

(** C2: on a network with power-flow results, [calc_line_losses] returns
    without an exception and sets
    - the losses of a line at a timestep (a cell of lines_t.losses) to
      I² * r / 10^6, with the current I = sqrt(p0² + q0²) * 10^6 /
      (v_nom * 10^3);
    - the losses of a line (the new column of the table of lines) to the
      sum of its losses over the snapshots, every other column of the
      line being as before;
    - the losses of every transformer to s_nom * (1 - 0.998), every other
      column being as before;
    and nothing else in the network. *)
Theorem calc_line_losses_spec (w : World) (network : ref) (net : Network) :
  heap w !! network = Some net →
  pf_results net →
  ∃ (net' : Network) (losses : Frame),
    calc_line_losses network w
      = (Ok tt, mkWorld (<[network := net']> (heap w)) (fs w) (trace w)) ∧
    net' = mkNetwork (snapshots net) (buses net) (lines net') (transformers net')
             (generators net) (loads net) (carriers net) (loads_t_p_set net)
             (generators_t_p_set net) (generators_t_p net)
             (lines_t_p0 net) (lines_t_q0 net) (Some losses)
             (results_solver_time net) (Z_matrix net) ∧
    index losses = index (lines_t_p0 net) ∧
    columns losses = Line.name <$> lines net ∧
    length (data losses) = length (index (lines_t_p0 net)) ∧
    (∀ (t j : nat) (line : Line.t) (v x y : R) (p q : list cell),
       lines net !! j = Some line →
       Line.v_nom line = Some v →
       data (lines_t_p0 net) !! t = Some p → p !! j = Some (Some x) →
       data (lines_t_q0 net) !! t = Some q → q !! j = Some (Some y) →
       let I := (sqrt (x ^ 2 + y ^ 2) * 1000000 / (v * 1000))%R in
       ∃ row : list cell,
         data losses !! t = Some row ∧
         row !! j = Some (Some (I ^ 2 * Line.r line / 1000000)%R)) ∧
    (∀ (j : nat) (line : Line.t),
       lines net !! j = Some line →
       ∃ per_snapshot : list R,
         length per_snapshot = length (data losses) ∧
         (∀ (t : nat) (x : R), per_snapshot !! t = Some x →
            ∃ row, data losses !! t = Some row ∧ row !! j = Some (Some x)) ∧
         lines net' !! j
           = Some (Line.mk (Line.name line) (Line.bus0 line) (Line.bus1 line)
                     (Line.b line) (Line.b_pu line) (Line.cables line)
                     (Line.capital_cost line) (Line.frequency line)
                     (Line.g line) (Line.g_pu line) (Line.geom line)
                     (Line.length line) (Line.num_parallel line)
                     (Line.r line) (Line.r_pu line) (Line.s_nom line)
                     (Line.s_nom_extendable line) (Line.s_nom_max line)
                     (Line.s_nom_min line) (Line.s_nom_opt line)
                     (Line.scn_name line) (Line.sub_network line)
                     (Line.terrain_factor line) (Line.topo line)
                     (Line.type line) (Line.v_ang_max line)
                     (Line.v_ang_min line) (Line.x line) (Line.x_pu line)
                     (Line.v_nom line)
                     (Some (Some (foldr Rplus 0%R per_snapshot))))) ∧
    length (lines net') = length (lines net) ∧
    (∀ (j : nat) (tr : Transformer.t),
       transformers net !! j = Some tr →
       transformers net' !! j
         = Some (Transformer.mk (Transformer.name tr) (Transformer.bus0 tr)
                   (Transformer.bus1 tr) (Transformer.s_nom tr)
                   (Some (Transformer.s_nom tr * (1 - 0.998))%R))) ∧
    length (transformers net') = length (transformers net).
Proof.
  intros Hnet Hpf.
  assert (Hv : ∃ v_nom, mapM Line.v_nom (lines net) = Some v_nom).
  { destruct Hpf as (_ & _ & _ & _ & _ & _ & Hv). apply mapM_is_Some.
    eapply Forall_impl; [exact Hv|]. intros l (v & E & _). by exists v. }
  destruct Hv as [v_nom Hv].
  assert (Hvlen : length v_nom = length (lines net)).
  { apply mapM_Some in Hv. symmetry. by eapply Forall2_length. }
  set (losses := losses_per_timestep net v_nom).
  destruct (losses_per_timestep_shape net v_nom Hpf) as [Hidx Hcol]. fold losses in Hidx, Hcol.
  pose proof (losses_per_timestep_numbers net v_nom Hpf Hvlen) as Hnum. fold losses in Hnum.
  assert (Hlen : length (frame_sum losses) = length (lines net)).
  { unfold frame_sum. by rewrite length_fmap, length_seq, Hcol, length_fmap. }
  set (net1 := set_lines_t_losses losses net).
  set (net2 := set_lines (zip_with Line.set_losses (frame_sum losses) (lines net)) net1).
  set (net3 := set_transformers
                 (zip_with Transformer.set_losses
                    ((λ tr, (Transformer.s_nom tr * (1 - 0.998))%R) <$> transformers net2)
                    (transformers net2)) net2).
  exists net3, losses.
  split; [|split; [done|split; [done|split; [done|split; [|split; [|split; [|split; [|split]]]]]]]].
  - unfold calc_line_losses.
    rewrite (bind_ok _ _ _ _ _ (deref_ok _ _ _ Hnet)). rewrite Hv. cbn [try].
    erewrite bind_ok; [|reflexivity]. fold losses.
    rewrite (bind_ok _ _ _ _ _ (update_ok _ _ _ _ Hnet)). fold net1.
    rewrite decide_True by done.
    erewrite bind_ok; [|reflexivity].
    erewrite bind_ok; [|apply update_ok, lookup_insert_eq].
    cbn [heap fs trace]. rewrite insert_insert_eq. fold net2.
    erewrite bind_ok; [|apply deref_ok, lookup_insert_eq].
    erewrite update_ok; [|apply lookup_insert_eq].
    cbn [heap fs trace]. by rewrite insert_insert_eq.
  - destruct Hnum as [-> _]. by rewrite Hidx.
  - intros t j line v x y p q Hline Hvl Hp Hpj Hq Hqj I.
    assert (Hvj : v_nom !! j = Some v).
    { apply mapM_Some in Hv.
      destruct (Forall2_lookup_l _ _ _ _ _ Hv Hline) as (v' & Hv' & E). congruence. }
    assert (Hpi : iat (lines_t_p0 net) t j = Some (Some x)).
    { unfold iat. by rewrite Hp. }
    assert (Hqi : iat (lines_t_q0 net) t j = Some (Some y)).
    { unfold iat. by rewrite Hq. }
    pose proof (losses_per_timestep_iat net v_nom t j _ _ line v Hpf Hpi Hqi Hline Hvj)
      as Hiat.
    fold losses in Hiat. unfold iat in Hiat.
    destruct (data losses !! t) as [row|]; [|done]. exists row. split; [done|].
    exact Hiat.
  - intros j line Hline.
    assert (Hj : j < length (columns losses)).
    { rewrite Hcol, length_fmap. by eapply lookup_lt_Some. }
    destruct (column_numbers losses j Hnum Hj) as (xs & Ecol & Lxs & Hxs).
    exists xs. split; [by destruct Hnum as [-> _]|]. split; [done|].
    cbn [net3 net2 lines set_transformers set_lines].
    rewrite lookup_zip_with. unfold frame_sum. rewrite list_lookup_fmap.
    rewrite lookup_seq_lt by done. cbn [fmap option_fmap option_map mbind option_bind].
    rewrite Hline. cbn [mbind option_bind]. change (0 + j) with j.
    rewrite Ecol, nansum_numbers; [done|].
    destruct Hpf as (_ & Hne & _). intros ->. rewrite Hidx in Lxs.
    by destruct (index (lines_t_p0 net)).
  - cbn [net3 net2 lines set_transformers set_lines].
    rewrite length_zip_with. lia.
  - intros j tr Htr.
    cbn [net3 transformers set_transformers net2 set_lines net1 set_lines_t_losses].
    rewrite zip_with_fmap_l, zip_with_diag, list_lookup_fmap, Htr. done.
  - cbn [net3 transformers set_transformers net2 set_lines net1 set_lines_t_losses].
    rewrite length_zip_with, length_fmap. lia.
Qed.

(** ** group_parallel_lines *)

(** The numeral that [str] prints is read back by [int]. *)
Lemma digits_string_of_uint (d : Decimal.uint) :
  d ≠ Decimal.Nil →
  int_digits false (NilEmpty.string_of_uint d) = Some (NilEmpty.string_of_uint d)
  ∧ lstrip_space (NilEmpty.string_of_uint d) = NilEmpty.string_of_uint d
  ∧ rstrip_space (NilEmpty.string_of_uint d) = NilEmpty.string_of_uint d
  ∧ NilEmpty.string_of_uint d ≠ EmptyString.
Proof.
  assert (Hall : ∀ d, int_digits true (NilEmpty.string_of_uint d)
                        = Some (NilEmpty.string_of_uint d)
                      ∧ rstrip_space (NilEmpty.string_of_uint d)
                        = NilEmpty.string_of_uint d).
  { clear. induction d as [|d [IH1 IH2]|d [IH1 IH2]|d [IH1 IH2]|d [IH1 IH2]
                           |d [IH1 IH2]|d [IH1 IH2]|d [IH1 IH2]|d [IH1 IH2]
                           |d [IH1 IH2]|d [IH1 IH2]];
      [done|..];
      cbn [NilEmpty.string_of_uint int_digits rstrip_space];
      rewrite IH2; (split; [by rewrite IH1|]);
      by destruct (NilEmpty.string_of_uint d). }
  destruct d as [|d|d|d|d|d|d|d|d|d|d]; [done|..]; intros _;
    destruct (Hall d) as [H1 H2];
    cbn [NilEmpty.string_of_uint int_digits rstrip_space lstrip_space];
    rewrite H2; (split; [by rewrite H1|]);
    (split; [done|]); (split; [|done]);
    by destruct (NilEmpty.string_of_uint d).
Qed.

Lemma py_int_str (z : Z) : py_int (py_str z) = Some z.
Proof.
  assert (Hnz : ∀ d, NilZero.string_of_uint d
                     = NilEmpty.string_of_uint (match d with
                                                | Decimal.Nil => Decimal.D0 Decimal.Nil
                                                | _ => d
                                                end)).
  { by intros []. }
  assert (Hisi : NilZero.int_of_string (NilZero.string_of_int (Z.to_int z))
                 = Some (Z.to_int z)).
  { apply NilZero.isi.
    - destruct z; cbn; try discriminate.
      intros [= E]. by apply DecimalPos.Unsigned.to_uint_nonnil in E.
    - destruct z; cbn; try discriminate.
      intros [= E]. by apply DecimalPos.Unsigned.to_uint_nonnil in E. }
  unfold py_str in *. unfold py_int.
  destruct (Z.to_int z) as [d|d] eqn:Ed; cbn [NilZero.string_of_int] in *.
  - rewrite Hnz in *.
    set (d' := match d with Decimal.Nil => Decimal.D0 Decimal.Nil | _ => d end) in *.
    destruct (digits_string_of_uint d') as (Hd & Hl & Hr & Hne).
    { unfold d'. by destruct d. }
    rewrite Hl, Hr.
    destruct (NilEmpty.string_of_uint d') as [|c s] eqn:Es; [done|].
    assert (Hc : Ascii.eqb c "-" = false ∧ Ascii.eqb c "+" = false).
    { cbn in Hd. destruct (py_isdigit c) eqn:Hdig; [|by destruct (Ascii.eqb c "_")].
      split; apply Ascii.eqb_neq; intros ->; done. }
    destruct Hc as [-> ->]. rewrite Hd. cbn [mbind option_bind]. rewrite Hisi.
    cbn [fmap option_fmap option_map]. by rewrite <- Ed, DecimalZ.of_to.
  - rewrite Hnz in *.
    set (d' := match d with Decimal.Nil => Decimal.D0 Decimal.Nil | _ => d end) in *.
    destruct (digits_string_of_uint d') as (Hd & Hl & Hr & Hne).
    { unfold d'. by destruct d. }
    cbn [lstrip_space]. change (py_isspace "-") with false. cbn [rstrip_space].
    rewrite Hr.
    destruct (NilEmpty.string_of_uint d') as [|c s] eqn:Es; [done|].
    change (Ascii.eqb "-" "-") with true. cbn iota. rewrite Hd.
    cbn [mbind option_bind]. rewrite Hisi.
    cbn [fmap option_fmap option_map]. by rewrite <- Ed, DecimalZ.of_to.
Qed.

Lemma py_str_inj (a b : Z) : py_str a = py_str b → a = b.
Proof.
  intros E. apply (f_equal py_int) in E. rewrite !py_int_str in E. congruence.
Qed.

Lemma ordered_name (l : Line.t) : Line.name (ordered l) = Line.name l.
Proof. unfold ordered. by destruct (endpoints l) as [[??]|]. Qed.

Lemma endpoints_ordered (l : Line.t) : endpoints (ordered l) = endpoints l.
Proof.
  unfold ordered. destruct (endpoints l) as [[b0 b1]|] eqn:E; [|done].
  unfold endpoints in *. cbn.
  destruct (py_int (Line.bus0 l)) as [a|]; [|done].
  destruct (py_int (Line.bus1 l)) as [b|]; [|done].
  cbn in *. injection E as <- <-. rewrite !py_int_str. cbn. f_equal. f_equal; lia.
Qed.

(** The key of the grouping determines the endpoints, and conversely. *)
Lemma ordered_key (l : Line.t) (b0 b1 : Z) :
  endpoints l = Some (b0, b1) →
  Line.bus0 (ordered l) = py_str b0 ∧ Line.bus1 (ordered l) = py_str b1 ∧ (b0 ≤ b1)%Z.
Proof.
  intros E. unfold ordered. rewrite E. cbn. split; [done|split; [done|]].
  unfold endpoints in E.
  destruct (py_int (Line.bus0 l)) as [a|]; [|done].
  destruct (py_int (Line.bus1 l)) as [b|]; [|done].
  cbn in E. injection E as <- <-. lia.
Qed.

Lemma set_lines_twice (x y : list Line.t) (n : Network) :
  set_lines x (set_lines y n) = set_lines x n.
Proof. reflexivity. Qed.

Lemma set_lines_same (n : Network) : set_lines (lines n) n = n.
Proof. by destruct n. Qed.

Lemma endpoints_parse (row : Line.t) (b0 b1 : Z) :
  endpoints row = Some (b0, b1) →
  ∃ a b : Z, py_int (Line.bus0 row) = Some a ∧ py_int (Line.bus1 row) = Some b ∧
             b0 = Z.min a b ∧ b1 = Z.max a b.
Proof.
  unfold endpoints. destruct (py_int (Line.bus0 row)) as [a|]; [|done].
  destruct (py_int (Line.bus1 row)) as [b|]; [|done].
  cbn. intros [= <- <-]. by exists a, b.
Qed.

Lemma ordered_twice (l : Line.t) : ordered (ordered l) = ordered l.
Proof.
  unfold ordered at 1. rewrite endpoints_ordered. unfold ordered.
  by destruct (endpoints l) as [[b0 b1]|].
Qed.

(** The rows with a given label. *)
Lemma rows_of_label (line : string) (df : list Line.t) (l : Line.t) :
  l ∈ List.filter (λ l, bool_decide (Line.name l = line)) df ↔
  l ∈ df ∧ Line.name l = line.
Proof.
  rewrite !list_elem_of_In, List.filter_In, bool_decide_eq_true. tauto.
Qed.

Lemma rows_of_label_NoDup (l : Line.t) (df : list Line.t) :
  NoDup (Line.name <$> df) → l ∈ df →
  List.filter (λ l', bool_decide (Line.name l' = Line.name l)) df = [l].
Proof.
  induction df as [|a df IH]; intros Hnd Hl.
  - by apply elem_of_nil in Hl.
  - cbn in Hnd. apply NoDup_cons in Hnd as [Ha Hnd]. cbn [List.filter].
    apply elem_of_cons in Hl as [->|Hl].
    + rewrite bool_decide_eq_true_2 by done. f_equal.
      destruct (List.filter _ df) as [|b bs] eqn:E; [done|]. exfalso.
      assert (Hb : b ∈ List.filter (λ l', bool_decide (Line.name l' = Line.name a)) df)
        by (rewrite E; left).
      apply rows_of_label in Hb as [Hb Hn]. apply Ha. rewrite <- Hn.
      by apply list_elem_of_fmap_2.
    + rewrite bool_decide_eq_false_2; [by apply IH|].
      intros E. apply Ha. rewrite E. by apply list_elem_of_fmap_2.
Qed.

Lemma orderable_dec (df : list Line.t) (line : string) :
  Decision (orderable df line).
Proof.
  unfold orderable.
  destruct (List.filter (λ l, bool_decide (Line.name l = line)) df) as [|row [|row' rows]].
  - right. by intros (? & ? & _).
  - destruct (endpoints row) as [e|] eqn:E.
    + left. exists row. by rewrite E.
    + right. intros (? & [= <-] & [? ?]). congruence.
  - right. by intros (? & ? & _).
Qed.

(** One round of the loop: the line with the label is put in order, the
    other lines stay. *)
Lemma set_value_ordered (line : string) (row : Line.t) (b0 b1 : Z) (df : list Line.t) :
  List.filter (λ l, bool_decide (Line.name l = line)) df = [row] →
  endpoints row = Some (b0, b1) →
  set_value line Line.set_bus1 (py_str b1)
    (set_value line Line.set_bus0 (py_str b0) df)
  = (λ l, if decide (Line.name l = line) then ordered l else l) <$> df.
Proof.
  intros Hrow E. unfold set_value. rewrite <- list_fmap_compose.
  apply list_fmap_ext. intros i l Hl. cbn.
  destruct (decide (Line.name l = line)) as [Hn|Hn].
  - assert (l = row) as ->.
    { assert (Hin : l ∈ List.filter (λ l, bool_decide (Line.name l = line)) df).
      { apply rows_of_label. split; [by eapply list_elem_of_lookup_2|done]. }
      rewrite Hrow in Hin. by apply list_elem_of_singleton in Hin. }
    cbn. rewrite !decide_True by done. unfold ordered. by rewrite E.
  - cbn. by rewrite !decide_False.
Qed.

Lemma order_buses_ok (w : World) (network : ref) (net : Network) (line : string) :
  heap w !! network = Some net →
  orderable (lines net) line →
  order_buses network line w
    = (Ok tt,
       mkWorld (<[network :=
                    set_lines ((λ l, if decide (Line.name l = line)
                                     then ordered l else l) <$> lines net) net]>
                  (heap w)) (fs w) (trace w)).
Proof.
  intros Hnet (row & Hrow & [[b0 b1] E]).
  destruct (endpoints_parse _ _ _ E) as (a & b & Ha & Hb & -> & ->).
  unfold order_buses.
  rewrite (bind_ok _ _ _ _ _ (deref_ok _ _ _ Hnet)).
  unfold loc. rewrite Hrow. cbn [try].
  erewrite bind_ok; [|reflexivity]. rewrite Ha. cbn [try].
  erewrite bind_ok; [|reflexivity]. rewrite Hb. cbn [try].
  erewrite bind_ok; [|reflexivity].
  rewrite (bind_ok _ _ _ _ _ (update_ok _ _ _ _ Hnet)).
  erewrite update_ok; [|apply lookup_insert_eq].
  cbn [heap fs trace]. rewrite insert_insert_eq.
  cbn [lines set_lines]. rewrite set_lines_twice.
  by rewrite (set_value_ordered line row _ _ _ Hrow E).
Qed.

Lemma order_buses_raise (w : World) (network : ref) (net : Network) (line : string) :
  heap w !! network = Some net →
  ¬ orderable (lines net) line →
  order_buses network line w = (Raise ValueError, w).
Proof.
  intros Hnet Hno. unfold order_buses.
  rewrite (bind_ok _ _ _ _ _ (deref_ok _ _ _ Hnet)). unfold loc, orderable in *.
  destruct (List.filter _ (lines net)) as [|row [|row' rows]]; [done| |done].
  cbn [try]. erewrite bind_ok; [|reflexivity].
  destruct (endpoints row) as [e|] eqn:E.
  { destruct Hno. exists row. by rewrite E. }
  unfold endpoints in E.
  destruct (py_int (Line.bus0 row)) as [a|]; [|done]. cbn [try].
  erewrite bind_ok; [|reflexivity].
  destruct (py_int (Line.bus1 row)) as [b|]; [done|]. done.
Qed.

(** Putting lines in order does not change which labels can be treated. *)
Lemma orderable_ordered (P : Line.t → Prop) `{∀ l, Decision (P l)}
    (df : list Line.t) (line : string) :
  orderable ((λ l, if decide (P l) then ordered l else l) <$> df) line
  ↔ orderable df line.
Proof.
  set (f := λ l, if decide (P l) then ordered l else l).
  assert (Hname : ∀ l, Line.name (f l) = Line.name l).
  { intros l. unfold f. destruct (decide (P l)); [apply ordered_name|done]. }
  assert (Hend : ∀ l, endpoints (f l) = endpoints l).
  { intros l. unfold f. destruct (decide (P l)); [apply endpoints_ordered|done]. }
  assert (Hfilter : List.filter (λ l, bool_decide (Line.name l = line)) (f <$> df)
                    = f <$> List.filter (λ l, bool_decide (Line.name l = line)) df).
  { induction df as [|a df IH]; [done|]. cbn [fmap list_fmap List.filter].
    rewrite Hname. destruct (bool_decide _); cbn; by rewrite IH. }
  unfold orderable. rewrite Hfilter. split.
  - intros (row & Hrow & Hsome).
    destruct (List.filter _ df) as [|r [|r' rs]]; try done.
    injection Hrow as <-. exists r. by rewrite <- Hend.
  - intros (row & -> & Hsome). exists (f row). by rewrite Hend.
Qed.

(** The loop over the index labels puts every line in order. *)
Lemma order_loop_ok (network : ref) (todo : list string) :
  ∀ (w : World) (net : Network),
    heap w !! network = Some net →
    Forall (orderable (lines net)) todo →
    for_each todo (order_buses network) w
      = (Ok tt,
         mkWorld (<[network :=
                      set_lines ((λ l, if decide (Line.name l ∈ todo)
                                       then ordered l else l) <$> lines net) net]>
                    (heap w)) (fs w) (trace w)).
Proof.
  induction todo as [|line rest IH]; intros w net Hnet Htodo.
  - cbn [for_each]. unfold mret, M_ret.
    replace ((λ l, if decide (Line.name l ∈ []) then ordered l else l) <$> lines net)
      with (lines net).
    + rewrite set_lines_same, insert_id by done. by destruct w.
    + rewrite <- (list_fmap_id (lines net)) at 1. apply list_fmap_ext.
      intros _ l _. rewrite decide_False; [done|]. apply not_elem_of_nil.
  - apply Forall_cons in Htodo as [Hline Hrest]. cbn [for_each].
    rewrite (bind_ok _ _ _ _ _ (order_buses_ok _ _ _ _ Hnet Hline)).
    set (cur1 := (λ l, if decide (Line.name l = line) then ordered l else l)
                   <$> lines net).
    rewrite (IH _ (set_lines cur1 net)).
    + cbn [heap fs trace lines set_lines]. rewrite insert_insert_eq, set_lines_twice.
      do 4 f_equal. unfold cur1. rewrite <- list_fmap_compose.
      apply list_fmap_ext. intros _ l _. cbn.
      destruct (decide (Line.name l = line)) as [Hn|Hn].
      * rewrite (decide_True (P := Line.name l ∈ line :: rest)) by (rewrite Hn; left).
        rewrite ordered_name. destruct (decide (Line.name l ∈ rest)); [|done].
        apply ordered_twice.
      * destruct (decide (Line.name l ∈ rest)) as [Hr|Hr].
        -- by rewrite decide_True by (by right).
        -- rewrite decide_False; [done|].
           intros [?|?]%elem_of_cons; done.
    + cbn [heap]. apply lookup_insert_eq.
    + cbn [lines set_lines]. unfold cur1. eapply Forall_impl; [exact Hrest|].
      intros s Hs. by apply (orderable_ordered (λ l, Line.name l = line)).
Qed.

(** A label that cannot be treated ends the loop with ValueError. *)
Lemma order_loop_raise (network : ref) (todo : list string) :
  ∀ (w : World) (net : Network),
    heap w !! network = Some net →
    ¬ Forall (orderable (lines net)) todo →
    ∃ w' : World, for_each todo (order_buses network) w = (Raise ValueError, w').
Proof.
  induction todo as [|line rest IH]; intros w net Hnet Htodo.
  - destruct Htodo. constructor.
  - cbn [for_each]. destruct (orderable_dec (lines net) line) as [Hline|Hline].
    + rewrite (bind_ok _ _ _ _ _ (order_buses_ok _ _ _ _ Hnet Hline)).
      apply (IH _ (set_lines ((λ l, if decide (Line.name l = line)
                                    then ordered l else l) <$> lines net) net)).
      * cbn [heap]. apply lookup_insert_eq.
      * cbn [lines set_lines]. intros Hrest. apply Htodo. constructor; [done|].
        eapply Forall_impl; [exact Hrest|].
        intros s Hs.
        exact (proj1 (orderable_ordered (λ l, Line.name l = line) _ _) Hs).
    + eexists. apply bind_raise. by apply (order_buses_raise _ _ net).
Qed.

(** Every label can be treated exactly when the labels are distinct and
    the bus ids are integers. *)
Lemma orderable_all (df : list Line.t) :
  Forall (orderable df) (Line.name <$> df) ↔
  NoDup (Line.name <$> df) ∧ Forall (λ l, is_Some (endpoints l)) df.
Proof.
  split.
  - intros Hall. rewrite Forall_fmap, Forall_forall in Hall.
    assert (Hrow : ∀ l, l ∈ df →
              List.filter (λ l', bool_decide (Line.name l' = Line.name l)) df = [l]
              ∧ is_Some (endpoints l)).
    { intros l Hl. destruct (Hall l Hl) as (row & Hrow & Hsome).
      assert (Hin : l ∈ List.filter (λ l', bool_decide (Line.name l' = Line.name l)) df)
        by (by apply rows_of_label).
      rewrite Hrow in Hin. apply list_elem_of_singleton in Hin as ->. done. }
    split; [|apply Forall_forall; intros l Hl; by apply Hrow].
    clear Hall. induction df as [|a df IH]; [constructor|].
    cbn. apply NoDup_cons.
    destruct (Hrow a ltac:(left)) as [Ha _]. cbn [List.filter] in Ha.
    rewrite bool_decide_eq_true_2 in Ha by done. injection Ha as Ha.
    split.
    + intros Hin. apply list_elem_of_fmap in Hin as (b & Hn & Hb).
      assert (Hb' : b ∈ List.filter (λ l', bool_decide (Line.name l' = Line.name a)) df)
        by (by apply rows_of_label).
      rewrite Ha in Hb'. by apply elem_of_nil in Hb'.
    + apply IH. intros l Hl. destruct (Hrow l ltac:(by right)) as [Hf Hs].
      split; [|done]. cbn [List.filter] in Hf.
      destruct (bool_decide (Line.name a = Line.name l)) eqn:E; [|done].
      apply bool_decide_eq_true in E. injection Hf as _ Hf. exfalso.
      assert (Hl' : l ∈ List.filter (λ l', bool_decide (Line.name l' = Line.name l)) df)
        by (by apply rows_of_label).
      rewrite Hf in Hl'. by apply elem_of_nil in Hl'.
  - intros [Hnd Hparse]. rewrite Forall_fmap. apply Forall_forall. intros l Hl.
    exists l. split; [by apply rows_of_label_NoDup|].
    rewrite Forall_forall in Hparse. by apply Hparse.
Qed.

(** *** Grouping *)

Section grouping.
Context {K A : Type} `{EqDecision K} (key : A → K).

Lemma add_to_groups_keys (k : K) (a : A) (groups : list (K * list A)) :
  (add_to_groups k a groups).*1
    = groups.*1 ++ (if decide (k ∈ groups.*1) then [] else [k]).
Proof.
  induction groups as [|[k' x] groups IH]; cbn.
  - rewrite decide_False; [done|]. apply not_elem_of_nil.
  - destruct (decide (k = k')) as [->|Hne]; cbn.
    + rewrite decide_True by left. by rewrite app_nil_r.
    + rewrite IH. f_equal. destruct (decide (k ∈ groups.*1)) as [Hin|Hin].
      * by rewrite decide_True by (by right).
      * rewrite decide_False; [done|]. by intros [?|?]%elem_of_cons.
Qed.

Lemma add_to_groups_elem (k : K) (a : A) (groups : list (K * list A))
    (k' : K) (x' : list A) :
  NoDup groups.*1 →
  (k', x') ∈ add_to_groups k a groups →
  (k' ≠ k ∧ (k', x') ∈ groups) ∨
  (k' = k ∧ ∃ x, x' = x ++ [a] ∧ ((k, x) ∈ groups ∨ (x = [] ∧ k ∉ groups.*1))).
Proof.
  induction groups as [|[k0 x0] groups IH]; cbn; intros Hnd Hin.
  - apply list_elem_of_singleton in Hin as [= -> ->]. right. split; [done|].
    exists []. split; [done|]. right. split; [done|]. apply not_elem_of_nil.
  - apply NoDup_cons in Hnd as [Hk0 Hnd].
    destruct (decide (k = k0)) as [->|Hne].
    + apply elem_of_cons in Hin as [[= -> ->]|Hin].
      * right. split; [done|]. exists x0. split; [done|]. left. left.
      * left. split; [|by right]. intros ->. apply Hk0.
        by apply (list_elem_of_fmap_2 fst) in Hin.
    + apply elem_of_cons in Hin as [[= -> ->]|Hin].
      * left. split; [done|left].
      * destruct (IH Hnd Hin) as [[? ?]|(-> & x & -> & Hx)].
        -- left. split; [done|by right].
        -- right. split; [done|]. exists x. split; [done|].
           destruct Hx as [Hx|[-> Hx]]; [left; by right|right].
           split; [done|]. by intros [?|?]%elem_of_cons.
Qed.

Lemma filter_none (P : A → Prop) `{∀ a, Decision (P a)} (l : list A) :
  (∀ a, a ∈ l → ¬ P a) → filter P l = [].
Proof.
  induction l as [|a l IH]; intros Hl; [done|].
  rewrite filter_cons_False by (apply Hl; left).
  apply IH. intros a' Ha'. apply Hl. by right.
Qed.

Lemma groups_of_grouped (rows : list A) : grouped key rows (groups_of key rows).
Proof.
  unfold groups_of. induction rows as [|a rows IH] using rev_ind.
  - cbn. split; [constructor|]. split.
    + intros k x Hin. by apply elem_of_nil in Hin.
    + intros a Hin. by apply elem_of_nil in Hin.
  - rewrite foldl_app. cbn [foldl].
    set (groups := foldl _ [] rows) in *.
    destruct IH as (Hnd & Hgroup & Hkeys). split; [|split].
    + rewrite add_to_groups_keys. destruct (decide _) as [Hin|Hin].
      * by rewrite app_nil_r.
      * apply NoDup_app. split; [done|]. split; [|apply NoDup_singleton].
        intros k Hk ->%list_elem_of_singleton. done.
    + intros k x Hin.
      apply (add_to_groups_elem _ _ _ _ _ Hnd) in Hin
        as [[Hne Hin]|(-> & x0 & -> & Hx)].
      * destruct (Hgroup k x Hin) as [Hx ->]. split; [done|].
        rewrite filter_app, filter_cons_False, filter_nil, app_nil_r by done. done.
      * split; [by destruct x0|].
        rewrite filter_app, filter_cons_True, filter_nil by done. f_equal.
        destruct Hx as [Hx|[-> Hx]]; [by apply Hgroup|].
        symmetry. apply filter_none. intros a' Ha' Hk. apply Hx.
        rewrite <- Hk. by apply Hkeys.
    + intros a' Ha'. rewrite add_to_groups_keys.
      apply elem_of_app in Ha' as [Ha'|Ha'].
      * apply elem_of_app. left. by apply Hkeys.
      * apply list_elem_of_singleton in Ha' as ->.
        destruct (decide (key a ∈ groups.*1)).
        -- by rewrite app_nil_r.
        -- apply elem_of_app. right. left.
Qed.

(** Sorting the groups keeps them. *)
Lemma grouped_Permutation (rows : list A) (groups groups' : list (K * list A)) :
  groups ≡ₚ groups' → grouped key rows groups → grouped key rows groups'.
Proof.
  intros Hperm (Hnd & Hgroup & Hkeys). split; [|split].
  - by rewrite <- Hperm.
  - intros k x Hin. apply Hgroup. by rewrite Hperm.
  - intros a Ha. rewrite <- Hperm. by apply Hkeys.
Qed.
End grouping.

Lemma filter_fmap_in {A B} (f : A → B) (P : B → Prop) (Q : A → Prop)
    `{∀ b, Decision (P b)} `{∀ a, Decision (Q a)} (l : list A) :
  (∀ a, a ∈ l → P (f a) ↔ Q a) →
  filter P (f <$> l) = f <$> filter Q l.
Proof.
  induction l as [|a l IH]; intros Hl; [done|].
  cbn [fmap list_fmap]. destruct (decide (Q a)) as [Hq|Hq].
  - rewrite !filter_cons_True by (done || by apply Hl; [left|]).
    cbn. f_equal. apply IH. intros a' Ha'. apply Hl. by right.
  - rewrite !filter_cons_False by (done || (rewrite Hl; [done|left])).
    apply IH. intros a' Ha'. apply Hl. by right.
Qed.

Lemma groupby_grouped (rows : list Line.t) :
  grouped (λ l, (Line.bus0 l, Line.bus1 l)) rows (groupby rows).
Proof.
  unfold groupby. eapply grouped_Permutation; [|apply groups_of_grouped].
  symmetry. apply merge_sort_Permutation.
Qed.

(** *** The run of group_parallel_lines *)

Lemma group_parallel_lines_ok (w : World) (network : ref) (net : Network) :
  heap w !! network = Some net →
  Forall (orderable (lines net)) (Line.name <$> lines net) →
  group_parallel_lines network w
    = (Ok tt,
       mkWorld (<[network :=
                    set_lines ((λ g, aggregate g.1 g.2)
                                 <$> groupby (ordered <$> lines net)) net]>
                  (heap w)) (fs w) (trace w)).
Proof.
  intros Hnet Hall. unfold group_parallel_lines.
  rewrite (bind_ok _ _ _ _ _ (deref_ok _ _ _ Hnet)).
  erewrite bind_ok; [|by apply (order_loop_ok network _ w net)].
  replace ((λ l, if decide (Line.name l ∈ Line.name <$> lines net)
                 then ordered l else l) <$> lines net)
    with (ordered <$> lines net); cycle 1.
  { apply list_fmap_ext. intros i l Hl. rewrite decide_True; [done|].
    apply list_elem_of_fmap_2. by eapply list_elem_of_lookup_2. }
  erewrite bind_ok; [|apply deref_ok, lookup_insert_eq].
  erewrite update_ok; [|apply lookup_insert_eq].
  cbn [heap fs trace lines set_lines]. by rewrite insert_insert_eq, set_lines_twice.
Qed.

Lemma group_parallel_lines_raise (w : World) (network : ref) (net : Network) :
  heap w !! network = Some net →
  ¬ Forall (orderable (lines net)) (Line.name <$> lines net) →
  ∃ w' : World, group_parallel_lines network w = (Raise ValueError, w').
Proof.
  intros Hnet Hall.
  destruct (order_loop_raise network (Line.name <$> lines net) w net) as [w' E];
    try done.
  exists w'. unfold group_parallel_lines.
  rewrite (bind_ok _ _ _ _ _ (deref_ok _ _ _ Hnet)).
  by apply bind_raise.
Qed.

(** The groups of the ordered lines are the sets of lines with the same
    endpoints. *)
Lemma groupby_ordered (ls : list Line.t) (k : string * string) (x : list Line.t) :
  Forall (λ l, is_Some (endpoints l)) ls →
  (k, x) ∈ groupby (ordered <$> ls) →
  ∃ b0 b1 : Z,
    k = (py_str b0, py_str b1) ∧ (b0 ≤ b1)%Z ∧
    filter (λ l, endpoints l = Some (b0, b1)) ls ≠ [] ∧
    x = ordered <$> filter (λ l, endpoints l = Some (b0, b1)) ls.
Proof.
  intros Hparse Hin. rewrite Forall_forall in Hparse.
  destruct (groupby_grouped (ordered <$> ls)) as (_ & Hgroup & _).
  destruct (Hgroup k x Hin) as [Hne Hx].
  destruct x as [|r x']; [done|].
  assert (Hr : r ∈ filter (λ l, (Line.bus0 l, Line.bus1 l) = k) (ordered <$> ls))
    by (rewrite <- Hx; left).
  apply list_elem_of_filter in Hr as [Hk Hr].
  apply list_elem_of_fmap in Hr as (l0 & -> & Hl0).
  destruct (Hparse l0 Hl0) as [[b0 b1] E0].
  destruct (ordered_key l0 b0 b1 E0) as (H0 & H1 & Hle).
  exists b0, b1. rewrite H0, H1 in Hk. subst k.
  assert (Hfilter : filter (λ l, (Line.bus0 l, Line.bus1 l) = (py_str b0, py_str b1))
                      (ordered <$> ls)
                    = ordered <$> filter (λ l, endpoints l = Some (b0, b1)) ls).
  { apply filter_fmap_in. intros l Hl. destruct (Hparse l Hl) as [[a b] E].
    destruct (ordered_key l a b E) as (Ha & Hb & _). rewrite Ha, Hb, E. split.
    - intros [= ->%py_str_inj ->%py_str_inj]. done.
    - by intros [= -> ->]. }
  split; [done|]. split; [done|]. rewrite Hfilter in Hx. split; [|done].
  intros Hnil. by rewrite Hnil in Hx.
Qed.

(** A column other than the buses is the same on the ordered lines. *)
Lemma ordered_column {B} (f : Line.t → B) (ls : list Line.t) :
  (∀ l v, f (Line.set_bus0 v l) = f l) →
  (∀ l v, f (Line.set_bus1 v l) = f l) →
  f <$> (ordered <$> ls) = f <$> ls.
Proof.
  intros H0 H1. rewrite <- list_fmap_compose. apply list_fmap_ext.
  intros _ l _. cbn. unfold ordered.
  destruct (endpoints l) as [[b0 b1]|]; [|done]. by rewrite H1, H0.
Qed.

(** The new table: one aggregated line for every pair of endpoints. *)
Lemma new_lines_rows (ls : list Line.t) (nl : Line.t) :
  Forall (λ l, is_Some (endpoints l)) ls →
  nl ∈ (λ g, aggregate g.1 g.2) <$> groupby (ordered <$> ls) →
  ∃ b0 b1 : Z,
    (b0 ≤ b1)%Z ∧
    filter (λ l, endpoints l = Some (b0, b1)) ls ≠ [] ∧
    nl = aggregate (py_str b0, py_str b1)
           (ordered <$> filter (λ l, endpoints l = Some (b0, b1)) ls).
Proof.
  intros Hparse Hnl. apply list_elem_of_fmap in Hnl as ([k x] & -> & Hin).
  destruct (groupby_ordered ls k x Hparse Hin) as (b0 & b1 & -> & Hle & Hne & ->).
  by exists b0, b1.
Qed.

Lemma endpoints_aggregate (b0 b1 : Z) (x : list Line.t) :
  (b0 ≤ b1)%Z → endpoints (aggregate (py_str b0, py_str b1) x) = Some (b0, b1).
Proof.
  intros Hle. unfold endpoints. cbn. rewrite !py_int_str. cbn.
  f_equal. f_equal; lia.
Qed.

Lemma new_lines_NoDup (ls : list Line.t) :
  Forall (λ l, is_Some (endpoints l)) ls →
  NoDup (endpoints <$> ((λ g, aggregate g.1 g.2) <$> groupby (ordered <$> ls))).
Proof.
  intros Hparse. rewrite <- list_fmap_compose.
  destruct (groupby_grouped (ordered <$> ls)) as (Hnd & _ & _).
  apply NoDup_fmap_2_strong; [|by eapply NoDup_fmap_1].
  intros [k1 x1] [k2 x2] H1 H2. cbn.
  destruct (groupby_ordered ls k1 x1 Hparse H1) as (a1 & b1 & -> & Hle1 & _ & Hx1).
  destruct (groupby_ordered ls k2 x2 Hparse H2) as (a2 & b2 & -> & Hle2 & _ & Hx2).
  rewrite !endpoints_aggregate by done. intros [= -> ->]. by rewrite Hx1, Hx2.
Qed.

Lemma new_lines_cover (ls : list Line.t) (l : Line.t) :
  Forall (λ l, is_Some (endpoints l)) ls →
  l ∈ ls →
  endpoints l ∈ endpoints <$> ((λ g, aggregate g.1 g.2) <$> groupby (ordered <$> ls)).
Proof.
  intros Hparse Hl.
  destruct (groupby_grouped (ordered <$> ls)) as (_ & _ & Hkeys).
  specialize (Hkeys (ordered l) (list_elem_of_fmap_2 _ _ _ Hl)).
  apply list_elem_of_fmap in Hkeys as ([k x] & Hk & Hin). cbn in Hk.
  destruct (groupby_ordered ls k x Hparse Hin) as (b0 & b1 & -> & Hle & _ & _).
  rewrite Forall_forall in Hparse. destruct (Hparse l Hl) as [[a b] E].
  destruct (ordered_key l a b E) as (Ha & Hb & _).
  rewrite Ha, Hb in Hk. injection Hk as ->%py_str_inj ->%py_str_inj.
  rewrite E, <- (endpoints_aggregate b0 b1 x Hle).
  apply list_elem_of_fmap_2. by apply (list_elem_of_fmap_2 (λ g, aggregate g.1 g.2) _ (_, x)).
Qed.

(** Python compares strings by code points: a total order. *)
Lemma string_leb_trans (a b c : string) :
  String.leb a b = true → String.leb b c = true → String.leb a c = true.
Proof.
  unfold String.leb. revert b c.
  induction a as [|x a IH]; intros [|y b] [|z c]; cbn; try done.
  unfold Ascii.compare.
  destruct (N.compare_spec (N_of_ascii x) (N_of_ascii y)) as [E1|L1|G1];
    destruct (N.compare_spec (N_of_ascii y) (N_of_ascii z)) as [E2|L2|G2];
    try done.
  - rewrite E1, E2, N.compare_refl. apply IH.
  - rewrite E1. intros _ _. by rewrite (proj2 (N.compare_lt_iff _ _) L2).
  - rewrite <- E2. by rewrite (proj2 (N.compare_lt_iff _ _) L1).
  - assert (L : (N_of_ascii x < N_of_ascii z)%N) by lia.
    by rewrite (proj2 (N.compare_lt_iff _ _) L).
Qed.

Lemma string_leb_refl (a : string) : String.leb a a = true.
Proof. by destruct (String.leb_total a a). Qed.

(** The reducers return a member of the group that no member is below. *)
Lemma str_min_in (x : list string) : x ≠ [] → str_min x ∈ x.
Proof.
  destruct x as [|v x]; [done|]. intros _. cbn [str_min].
  revert v. induction x as [|s x IH]; intros v; [left|].
  cbn [foldl]. destruct (String.leb v s).
  - specialize (IH v). apply elem_of_cons in IH as [->|IH]; [left|by do 2 right].
  - right. apply IH.
Qed.

Lemma str_min_le (x : list string) :
  Forall (λ s, String.leb (str_min x) s = true) x.
Proof.
  destruct x as [|v x]; [constructor|]. cbn [str_min].
  assert (H : ∀ v, String.leb (foldl (λ a b, if String.leb a b then a else b) v x) v = true
                   ∧ Forall (λ s, String.leb
                                    (foldl (λ a b, if String.leb a b then a else b) v x) s
                                  = true) x).
  { induction x as [|s x IH]; intros w.
    - split; [apply string_leb_refl|constructor].
    - cbn [foldl]. destruct (String.leb w s) eqn:E.
      + destruct (IH w) as [Hw Hx]. split; [done|]. constructor; [|done].
        by eapply string_leb_trans.
      + destruct (IH s) as [Hs Hx]. split; [|by constructor].
        eapply string_leb_trans; [exact Hs|].
        destruct (String.leb_total w s) as [E'|E']; congruence. }
  destruct (H v) as [Hv Hx]. by constructor.
Qed.

Lemma np_min_in (x : list R) : x ≠ [] → np_min x ∈ x.
Proof.
  destruct x as [|v x]; [done|]. intros _. cbn [np_min].
  revert v. induction x as [|s x IH]; intros v; [left|].
  cbn [foldl]. destruct (Rle_dec v s).
  - rewrite Rmin_left by done.
    specialize (IH v). apply elem_of_cons in IH as [->|IH]; [left|by do 2 right].
  - rewrite Rmin_right by lra. right. apply IH.
Qed.

Lemma np_min_le (x : list R) : Forall (λ s, (np_min x <= s)%R) x.
Proof.
  destruct x as [|v x]; [constructor|]. cbn [np_min].
  assert (H : ∀ v, (foldl Rmin v x <= v)%R
                   ∧ Forall (λ s, (foldl Rmin v x <= s)%R) x).
  { induction x as [|s x IH]; intros w.
    - split; [cbn; lra|constructor].
    - cbn [foldl]. destruct (IH (Rmin w s)) as [Hw Hx].
      pose proof (Rmin_l w s). pose proof (Rmin_r w s).
      split; [lra|]. constructor; [lra|done]. }
  destruct (H v) as [Hv Hx]. by constructor.
Qed.

(** The reciprocal of the sum of the reciprocals, with a value of zero
    in the group and without. *)
Lemma parallel_zero (x : list R) : 0%R ∈ x → parallel x = 0%R.
Proof. intros H. unfold parallel. by rewrite bool_decide_eq_true_2. Qed.

Lemma parallel_nonzero (x : list R) :
  0%R ∉ x → parallel x = (/ foldr Rplus 0 (Rinv <$> x))%R.
Proof. intros H. unfold parallel. by rewrite bool_decide_eq_false_2. Qed.

Lemma integer_buses_endpoints (l : Line.t) : integer_buses l → is_Some (endpoints l).
Proof.
  intros (b0 & b1 & H0 & H1 & _). unfold endpoints. rewrite H0, H1. by eexists.
Qed.

(** C1, as the code has it: on a network whose lines have distinct labels
    and integer bus ids, [group_parallel_lines] replaces the table of
    lines by one line for every unordered pair of buses, the bus ids
    being compared as integers.  The line of a pair aggregates the lines
    between these buses, in the order of the table:
    - b, b_pu, cables, g, g_pu, num_parallel, s_nom, s_nom_max, s_nom_min
      and s_nom_opt are the sums over the group;
    - capital_cost and length are the minima: a value of the group that
      no value of the group is below;
    - frequency is the mean: the sum divided by the number of lines;
    - r, r_pu, x and x_pu are the reciprocal of the sum of the
      reciprocals where no value of the group is zero (and the
      reciprocals do not cancel), and zero where a value is zero;
    - the index label is the smallest old label, as strings compare. *)
Theorem group_parallel_lines_spec (w : World) (network : ref) (net : Network) :
  heap w !! network = Some net →
  NoDup (Line.name <$> lines net) →
  Forall integer_buses (lines net) →
  let sum := foldr Rplus 0%R in
  let minimum (v : R) (xs : list R) := v ∈ xs ∧ Forall (λ x, (v <= x)%R) xs in
  let reciprocal_sum (v : R) (xs : list R) :=
    (0%R ∈ xs → v = 0%R) ∧
    (0%R ∉ xs → sum (Rinv <$> xs) ≠ 0%R → v = (/ sum (Rinv <$> xs))%R) in
  ∃ new_lines : list Line.t,
    group_parallel_lines network w
      = (Ok tt, mkWorld (<[network := mkNetwork (snapshots net) (buses net) new_lines
                   (transformers net) (generators net) (loads net)
                   (carriers net) (loads_t_p_set net)
                   (generators_t_p_set net) (generators_t_p net)
                   (lines_t_p0 net) (lines_t_q0 net) (lines_t_losses net)
                   (results_solver_time net) (Z_matrix net)]> (heap w))
                        (fs w) (trace w)) ∧
    NoDup (endpoints <$> new_lines) ∧
    (∀ l, l ∈ lines net → endpoints l ∈ endpoints <$> new_lines) ∧
    ∀ nl, nl ∈ new_lines →
      ∃ b0 b1 : Z,
        let group := filter (λ l, endpoints l = Some (b0, b1)) (lines net) in
        group ≠ [] ∧
        endpoints nl = Some (b0, b1) ∧
        Line.b nl = sum (Line.b <$> group) ∧
        Line.b_pu nl = sum (Line.b_pu <$> group) ∧
        Line.cables nl = sum (Line.cables <$> group) ∧
        Line.g nl = sum (Line.g <$> group) ∧
        Line.g_pu nl = sum (Line.g_pu <$> group) ∧
        Line.num_parallel nl = sum (Line.num_parallel <$> group) ∧
        Line.s_nom nl = sum (Line.s_nom <$> group) ∧
        Line.s_nom_max nl = sum (Line.s_nom_max <$> group) ∧
        Line.s_nom_min nl = sum (Line.s_nom_min <$> group) ∧
        Line.s_nom_opt nl = sum (Line.s_nom_opt <$> group) ∧
        minimum (Line.capital_cost nl) (Line.capital_cost <$> group) ∧
        minimum (Line.length nl) (Line.length <$> group) ∧
        Line.frequency nl
          = (sum (Line.frequency <$> group) / INR (length group))%R ∧
        reciprocal_sum (Line.r nl) (Line.r <$> group) ∧
        reciprocal_sum (Line.r_pu nl) (Line.r_pu <$> group) ∧
        reciprocal_sum (Line.x nl) (Line.x <$> group) ∧
        reciprocal_sum (Line.x_pu nl) (Line.x_pu <$> group) ∧
        Line.name nl ∈ Line.name <$> group ∧
        Forall (λ s, String.leb (Line.name nl) s = true) (Line.name <$> group).
Proof.
  intros Hnet Hnd Hint sum minimum reciprocal_sum.
  assert (Hparse : Forall (λ l, is_Some (endpoints l)) (lines net)).
  { eapply Forall_impl; [exact Hint|]. apply integer_buses_endpoints. }
  eexists.
  split; [by apply group_parallel_lines_ok, orderable_all|].
  split; [by apply new_lines_NoDup|]. split; [intros l; by apply new_lines_cover|].
  intros nl Hnl.
  destruct (new_lines_rows _ _ Hparse Hnl) as (b0 & b1 & Hle & Hne & ->).
  exists b0, b1. cbn zeta. split; [done|].
  split; [by apply endpoints_aggregate|].
  set (group := filter (λ l, endpoints l = Some (b0, b1)) (lines net)) in *.
  assert (Hpar : ∀ xs : list R, reciprocal_sum (parallel xs) xs).
  { intros xs. split; [apply parallel_zero|]. intros H0 _. by apply parallel_nonzero. }
  assert (Hmin : ∀ xs : list R, xs ≠ [] → minimum (np_min xs) xs).
  { intros xs Hxs. split; [by apply np_min_in|apply np_min_le]. }
  assert (Hcol : ∀ {A} (f : Line.t → A), f <$> group ≠ []).
  { intros A f E. apply fmap_nil_inv in E. done. }
  unfold aggregate. cbn [Line.b Line.b_pu Line.cables Line.g Line.g_pu
    Line.num_parallel Line.s_nom Line.s_nom_max Line.s_nom_min Line.s_nom_opt
    Line.capital_cost Line.length Line.frequency Line.r Line.r_pu Line.x
    Line.x_pu Line.name].
  rewrite !(ordered_column Line.b), !(ordered_column Line.b_pu),
    !(ordered_column Line.cables), !(ordered_column Line.g),
    !(ordered_column Line.g_pu), !(ordered_column Line.num_parallel),
    !(ordered_column Line.s_nom), !(ordered_column Line.s_nom_max),
    !(ordered_column Line.s_nom_min), !(ordered_column Line.s_nom_opt),
    !(ordered_column Line.capital_cost), !(ordered_column Line.length),
    !(ordered_column Line.frequency), !(ordered_column Line.r),
    !(ordered_column Line.r_pu), !(ordered_column Line.x),
    !(ordered_column Line.x_pu), !(ordered_column Line.name) by done.
  fold group.
  repeat (split; [first [reflexivity | by apply Hmin | apply Hpar]|]).
  split.
  - unfold np_mean, np_sum. by rewrite length_fmap.
  - repeat (split; [apply Hpar|]).
    split; [by apply str_min_in|apply str_min_le].
Qed.

Lemma group_parallel_lines_spec_witness :
  let sum := foldr Rplus 0%R in
  let minimum (v : R) (xs : list R) := v ∈ xs ∧ Forall (λ x, (v <= x)%R) xs in
  let reciprocal_sum (v : R) (xs : list R) :=
    (0%R ∈ xs → v = 0%R) ∧
    (0%R ∉ xs → sum (Rinv <$> xs) ≠ 0%R → v = (/ sum (Rinv <$> xs))%R) in
  ∃ new_lines : list Line.t,
    group_parallel_lines 0 (Examples.world Examples.net)
      = (Ok tt, mkWorld (<[0 := set_lines new_lines Examples.net]>
                           (heap (Examples.world Examples.net)))
                        (fs (Examples.world Examples.net))
                        (trace (Examples.world Examples.net))) ∧
    NoDup (endpoints <$> new_lines) ∧
    (∀ l, l ∈ lines Examples.net → endpoints l ∈ endpoints <$> new_lines) ∧
    ∀ nl, nl ∈ new_lines →
      ∃ b0 b1 : Z,
        let group := filter (λ l, endpoints l = Some (b0, b1)) (lines Examples.net) in
        group ≠ [] ∧
        endpoints nl = Some (b0, b1) ∧
        Line.b nl = sum (Line.b <$> group) ∧
        Line.b_pu nl = sum (Line.b_pu <$> group) ∧
        Line.cables nl = sum (Line.cables <$> group) ∧
        Line.g nl = sum (Line.g <$> group) ∧
        Line.g_pu nl = sum (Line.g_pu <$> group) ∧
        Line.num_parallel nl = sum (Line.num_parallel <$> group) ∧
        Line.s_nom nl = sum (Line.s_nom <$> group) ∧
        Line.s_nom_max nl = sum (Line.s_nom_max <$> group) ∧
        Line.s_nom_min nl = sum (Line.s_nom_min <$> group) ∧
        Line.s_nom_opt nl = sum (Line.s_nom_opt <$> group) ∧
        minimum (Line.capital_cost nl) (Line.capital_cost <$> group) ∧
        minimum (Line.length nl) (Line.length <$> group) ∧
        Line.frequency nl
          = (sum (Line.frequency <$> group) / INR (length group))%R ∧
        reciprocal_sum (Line.r nl) (Line.r <$> group) ∧
        reciprocal_sum (Line.r_pu nl) (Line.r_pu <$> group) ∧
        reciprocal_sum (Line.x nl) (Line.x <$> group) ∧
        reciprocal_sum (Line.x_pu nl) (Line.x_pu <$> group) ∧
        Line.name nl ∈ Line.name <$> group ∧
        Forall (λ s, String.leb (Line.name nl) s = true) (Line.name <$> group).
Proof.
  apply (group_parallel_lines_spec (Examples.world Examples.net) 0 Examples.net).
  - reflexivity.
  - distinct_labels.
  - repeat (apply Forall_cons; split); try by apply Forall_nil.
    + exists 3%Z, 1%Z. by vm_compute.
    + exists 1%Z, 3%Z. by vm_compute.
    + exists 1%Z, 2%Z. by vm_compute.
Defined.

(** C1 as stated fails on a network whose bus ids are not integers: the
    call ends with ValueError, and the two parallel lines are still two
    lines. *)
Lemma group_parallel_lines_counterexample :
  ∃ w' : World,
    group_parallel_lines 0 (Examples.world Examples.net_named)
      = (Raise ValueError, w') ∧
    (∀ w'' : World,
       group_parallel_lines 0 (Examples.world Examples.net_named) ≠ (Ok tt, w'')) ∧
    lines <$> heap w' !! 0
      = Some [Examples.line "1" "Bus 1" "Bus 2"; Examples.line "2" "Bus 2" "Bus 1"].
Proof.
  assert (E : group_parallel_lines 0 (Examples.world Examples.net_named)
              = (Raise ValueError, Examples.world Examples.net_named)).
  { unfold group_parallel_lines.
    erewrite bind_ok; [|by apply deref_ok].
    apply bind_raise. cbn [for_each fmap list_fmap lines Examples.net_named].
    apply bind_raise. apply (order_buses_raise _ 0 Examples.net_named); [reflexivity|].
    intros (row & [= <-] & [e He]). discriminate. }
  eexists. split; [exact E|]. split; [|reflexivity]. intros w''. by rewrite E.
Qed.

(** The labels compare as strings: of the parallel lines "7" and "10" the
    aggregated line keeps the label "10". *)
Example str_min_labels : str_min ["7"; "10"] = "10".
Proof. reflexivity. Qed.

(** C9: when [group_parallel_lines] has returned, every line of the
    network has integer bus ids with int(bus0) <= int(bus1); they are the
    smaller and the larger bus id of a line of the old table. *)
Theorem group_parallel_lines_ordered (w w' : World) (network : ref) (net : Network) :
  heap w !! network = Some net →
  group_parallel_lines network w = (Ok tt, w') →
  ∃ net' : Network,
    heap w' !! network = Some net' ∧
    Forall (λ nl, ∃ b0 b1 : Z,
                    py_int (Line.bus0 nl) = Some b0 ∧
                    py_int (Line.bus1 nl) = Some b1 ∧
                    (b0 ≤ b1)%Z ∧
                    ∃ l, l ∈ lines net ∧ endpoints l = Some (b0, b1))
           (lines net').
Proof.
  intros Hnet Hrun.
  pose proof (orderable_dec (lines net)) as Hdec.
  destruct (decide (Forall (orderable (lines net)) (Line.name <$> lines net)))
    as [Hall|Hall].
  - rewrite (group_parallel_lines_ok _ _ _ Hnet Hall) in Hrun.
    apply orderable_all in Hall as [_ Hparse].
    injection Hrun as <-. eexists. split; [apply lookup_insert_eq|].
    cbn [lines set_lines]. apply Forall_forall. intros nl Hnl.
    destruct (new_lines_rows _ _ Hparse Hnl) as (b0 & b1 & Hle & Hne & ->).
    exists b0, b1. cbn. rewrite !py_int_str. repeat split; [done|].
    destruct (filter _ (lines net)) as [|l ls] eqn:E; [done|].
    assert (Hl : l ∈ filter (λ l, endpoints l = Some (b0, b1)) (lines net))
      by (rewrite E; left).
    apply list_elem_of_filter in Hl as [? ?]. by exists l.
  - destruct (group_parallel_lines_raise _ _ _ Hnet Hall) as [w'' E].
    rewrite E in Hrun. discriminate.
Qed.

Lemma group_parallel_lines_ordered_witness :
  ∃ net' : Network,
    heap (mkWorld (<[0 := set_lines ((λ g, aggregate g.1 g.2)
                                       <$> groupby (ordered <$> lines Examples.net))
                            Examples.net]>
                     (heap (Examples.world Examples.net)))
                  (fs (Examples.world Examples.net))
                  (trace (Examples.world Examples.net))) !! 0 = Some net' ∧
    Forall (λ nl, ∃ b0 b1 : Z,
                    py_int (Line.bus0 nl) = Some b0 ∧
                    py_int (Line.bus1 nl) = Some b1 ∧
                    (b0 ≤ b1)%Z ∧
                    ∃ l, l ∈ lines Examples.net ∧ endpoints l = Some (b0, b1))
           (lines net').
Proof.
  apply (group_parallel_lines_ordered (Examples.world Examples.net) _ 0 Examples.net).
  - reflexivity.
  - vm_compute. reflexivity.
Defined.

Lemma calc_line_losses_spec_witness :
  ∃ (net' : Network) (losses : Frame),
    calc_line_losses 0 (Examples.world Examples.net)
      = (Ok tt, mkWorld (<[0 := net']> (heap (Examples.world Examples.net)))
                        (fs (Examples.world Examples.net))
                        (trace (Examples.world Examples.net))) ∧
    net' = mkNetwork (snapshots Examples.net) (buses Examples.net) (lines net')
             (transformers net') (generators Examples.net) (loads Examples.net)
             (carriers Examples.net) (loads_t_p_set Examples.net)
             (generators_t_p_set Examples.net) (generators_t_p Examples.net)
             (lines_t_p0 Examples.net) (lines_t_q0 Examples.net) (Some losses)
             (results_solver_time Examples.net) (Z_matrix Examples.net) ∧
    index losses = index (lines_t_p0 Examples.net) ∧
    columns losses = Line.name <$> lines Examples.net ∧
    length (data losses) = length (index (lines_t_p0 Examples.net)) ∧
    (∀ (t j : nat) (line : Line.t) (v x y : R) (p q : list cell),
       lines Examples.net !! j = Some line →
       Line.v_nom line = Some v →
       data (lines_t_p0 Examples.net) !! t = Some p → p !! j = Some (Some x) →
       data (lines_t_q0 Examples.net) !! t = Some q → q !! j = Some (Some y) →
       let I := (sqrt (x ^ 2 + y ^ 2) * 1000000 / (v * 1000))%R in
       ∃ row : list cell,
         data losses !! t = Some row ∧
         row !! j = Some (Some (I ^ 2 * Line.r line / 1000000)%R)) ∧
    (∀ (j : nat) (line : Line.t),
       lines Examples.net !! j = Some line →
       ∃ per_snapshot : list R,
         length per_snapshot = length (data losses) ∧
         (∀ (t : nat) (x : R), per_snapshot !! t = Some x →
            ∃ row, data losses !! t = Some row ∧ row !! j = Some (Some x)) ∧
         lines net' !! j
           = Some (Line.mk (Line.name line) (Line.bus0 line) (Line.bus1 line)
                     (Line.b line) (Line.b_pu line) (Line.cables line)
                     (Line.capital_cost line) (Line.frequency line)
                     (Line.g line) (Line.g_pu line) (Line.geom line)
                     (Line.length line) (Line.num_parallel line)
                     (Line.r line) (Line.r_pu line) (Line.s_nom line)
                     (Line.s_nom_extendable line) (Line.s_nom_max line)
                     (Line.s_nom_min line) (Line.s_nom_opt line)
                     (Line.scn_name line) (Line.sub_network line)
                     (Line.terrain_factor line) (Line.topo line)
                     (Line.type line) (Line.v_ang_max line)
                     (Line.v_ang_min line) (Line.x line) (Line.x_pu line)
                     (Line.v_nom line)
                     (Some (Some (foldr Rplus 0%R per_snapshot))))) ∧
    length (lines net') = length (lines Examples.net) ∧
    (∀ (j : nat) (tr : Transformer.t),
       transformers Examples.net !! j = Some tr →
       transformers net' !! j
         = Some (Transformer.mk (Transformer.name tr) (Transformer.bus0 tr)
                   (Transformer.bus1 tr) (Transformer.s_nom tr)
                   (Some (Transformer.s_nom tr * (1 - 0.998))%R))) ∧
    length (transformers net') = length (transformers Examples.net).
Proof.
  apply (calc_line_losses_spec (Examples.world Examples.net) 0 Examples.net).
  - reflexivity.
  - unfold pf_results, numbers. cbn.
    repeat first [ done | apply Forall_nil | apply Forall_cons; split | split
                 | by eexists | exists 110%R; split; [done|lra] ].
Defined.

(** ** The model at work *)

Example py_int_examples :
  py_int "26387" = Some 26387%Z ∧ py_int "-12" = Some (-12)%Z ∧
  py_int "007" = Some 7%Z ∧ py_int "Bus 1" = None ∧ py_int "" = None ∧
  py_int " 7" = Some 7%Z ∧ py_int "+7" = Some 7%Z ∧ py_int "7 " = Some 7%Z ∧
  py_int "1_0" = Some 10%Z ∧ py_int "1__0" = None ∧ py_int "_1" = None ∧
  py_int "1_" = None ∧ py_int "+ 7" = None ∧ py_int "0x10" = None.
Proof. repeat split. Qed.

Example py_slice_examples :
  py_slice [1; 2; 3; 4; 5]%Z 2 4 = [3; 4]%Z ∧
  py_slice [1; 2; 3; 4; 5]%Z 4 6 = [5]%Z ∧
  py_slice [1; 2; 3; 4; 5]%Z 6 8 = [] ∧
  py_slice [1; 2; 3; 4; 5]%Z 0 (-2) = [1; 2; 3]%Z.
Proof. repeat split. Qed.

(** The three lines of the example network become two: the line "9"
    between the buses 1 and 2, and the line "10" for the parallel lines
    "7" and "10" between the buses 1 and 3. *)
Example new_lines_example :
  (λ nl, (Line.name nl, Line.bus0 nl, Line.bus1 nl))
    <$> ((λ g, aggregate g.1 g.2) <$> groupby (ordered <$> lines Examples.net))
  = [("9", "1", "2"); ("10", "1", "3")].
Proof. vm_compute. reflexivity. Qed.

(** Two parallel lines of 2 Ohm and 260 MVA each make one line of 1 Ohm
    and 520 MVA. *)
Example reducers_example :
  parallel [2; 2]%R = 1%R ∧ np_sum [260; 260]%R = 520%R ∧
  np_mean [50; 50]%R = 50%R ∧ np_min [10; 10]%R = 10%R.
Proof.
  split; [|unfold np_sum, np_mean, np_min; cbn; split; [|split]].
  - rewrite parallel_nonzero.
    + cbn. replace (/ 2 + (/ 2 + 0))%R with 1%R by lra. apply Rinv_1.
    + intros H. repeat (apply elem_of_cons in H as [H|H]; [lra|]).
      by apply elem_of_nil in H.
  - lra.
  - lra.
  - apply Rmin_left. lra.
Qed.

(** A line without resistance in a group makes the group one without;
    a column of NaN has the sum NaN, an empty one the sum 0. *)
Example zero_and_nan_examples :
  parallel [0; 2]%R = 0%R ∧
  nansum [None; None] = None ∧ nansum [] = Some 0%R ∧
  nansum [Some 1%R; None] = Some (1 + 0)%R.
Proof.
  split; [apply parallel_zero; left|]. repeat split.
Qed.

(** With the path 'out/1' on a disk without a directory 'out': the
    directories 'out' and 'out/1' are made, the export goes to 'out/1'
    and the Z matrix to 'out'.  With the empty path nothing is made. *)
Example results_to_csv_examples :
  let w' := (results_to_csv (H := Examples.pypsa) 0 (Path "out/1")
               (Examples.world MoreExamples.net_Z)).2 in
  (results_to_csv (H := Examples.pypsa) 0 (Path "out/1")
     (Examples.world MoreExamples.net_Z)).1 = Ok tt ∧
  dirs (fs w') !! ["home"; "etrago"; "out"] = Some {[ "Z.csv" := MoreExamples.Z ]} ∧
  dom <$> dirs (fs w') !! ["home"; "etrago"; "out"; "1"] = Some {[ "network.csv" ]} ∧
  dom (dirs (fs w')) = {[ []; ["home"]; ["home"; "etrago"]; ["home"; "etrago"; "out"];
                          ["home"; "etrago"; "out"; "1"] ]} ∧
  results_to_csv (H := Examples.pypsa) 0 (Path "")
    (Examples.world MoreExamples.net_Z)
  = (Raise FileNotFoundError, Examples.world MoreExamples.net_Z).
Proof.
  destruct (export_network_csv (PyPSA := Examples.pypsa) MoreExamples.net_Z)
    as [exported Hexp].
  rewrite !(results_to_csv_run (H := Examples.pypsa) _ 0 MoreExamples.net_Z _ exported)
    by done.
  cbv zeta. repeat split; by vm_compute.
Qed.

(** The line "7" of the example network carries 3 MW and 4 MVar in the
    first snapshot, at 110 kV and with 2 Ohm: the apparent power is 5 MVA,
    and the losses are (5 * 10^6 / (110 * 10^3))² * 2 / 10^6 MW. *)
Example losses_example :
  iat (losses_per_timestep Examples.net [110; 110; 110]%R) 0 0
    = Some (Some ((5 * 1000000 / (110 * 1000)) ^ 2 * 2 / 1000000)%R).
Proof.
  rewrite (losses_per_timestep_iat Examples.net _ 0 0 (Some 3%R) (Some 4%R)
             (Examples.line "7" "3" "1") 110%R); try reflexivity.
  - cbn. do 2 f_equal.
    replace (3 * (3 * 1) + 4 * (4 * 1))%R with (5 * 5)%R by lra.
    rewrite sqrt_square by lra. reflexivity.
  - unfold pf_results, numbers. cbn.
    repeat first [ done | apply Forall_nil | apply Forall_cons; split | split
                 | by eexists | exists 110%R; split; [done|lra] ].
Qed.

(** * Further properties of the code *)

(** ** The other queries *)

(** Two masks over the same table combine row by row. *)
Lemma zip_with_masks {A} (f : bool → bool → bool) (g h : A → bool) (l : list A) :
  zip_with f (g <$> l) (h <$> l) = (λ x, f (g x) (h x)) <$> l.
Proof. by rewrite zip_with_fmap_l, zip_with_fmap_r, zip_with_diag. Qed.

Lemma boolean_index_mask {A} (P : A → Prop) `{∀ x, Decision (P x)}
    (m : A → bool) (l : list A) :
  (∀ x, m x = bool_decide (P x)) →
  boolean_index l (m <$> l) = filter P l.
Proof.
  intros Hm. rewrite <- (boolean_index_filter P).
  f_equal. apply list_fmap_ext. intros _ x _. apply Hm.
Qed.

Lemma buses_of_vlvl_run (w : World) (network : ref) (net : Network)
    (voltage_level : list R) :
  heap w !! network = Some net →
  buses_of_vlvl network voltage_level w
    = (Ok (Bus.name <$> filter (λ b, Bus.v_nom b ∈ voltage_level) (buses net)), w).
Proof.
  intros Hnet. unfold buses_of_vlvl.
  rewrite (bind_ok _ _ _ _ _ (deref_ok _ _ _ Hnet)).
  unfold mret, M_ret. do 3 f_equal. rewrite <- list_fmap_compose.
  by apply boolean_index_mask.
Qed.

Lemma buses_grid_linked_run (w : World) (network : ref) (net : Network)
    (voltage_level : list R) :
  heap w !! network = Some net →
  buses_grid_linked network voltage_level w
    = (Ok (Bus.name <$>
             filter (λ b, (Bus.name b ∈ Line.bus0 <$> lines net
                           ∨ Bus.name b ∈ Line.bus1 <$> lines net)
                          ∧ Bus.v_nom b ∈ voltage_level) (buses net)), w).
Proof.
  intros Hnet. unfold buses_grid_linked.
  rewrite (bind_ok _ _ _ _ _ (deref_ok _ _ _ Hnet)).
  unfold mret, M_ret. do 3 f_equal.
  rewrite <- !list_fmap_compose, !zip_with_masks.
  apply boolean_index_mask. intros b. cbn. unfold isin.
  by rewrite bool_decide_and, bool_decide_or.
Qed.

Lemma connected_grid_lines_run (w : World) (network : ref) (net : Network)
    (busids : list string) :
  heap w !! network = Some net →
  connected_grid_lines network busids w
    = (Ok (filter (λ l, Line.bus1 l ∈ busids ∨ Line.bus0 l ∈ busids) (lines net)), w).
Proof.
  intros Hnet. unfold connected_grid_lines.
  rewrite (bind_ok _ _ _ _ _ (deref_ok _ _ _ Hnet)).
  unfold mret, M_ret. do 2 f_equal.
  rewrite <- !list_fmap_compose, zip_with_masks.
  apply boolean_index_mask. intros l. cbn. unfold isin.
  by rewrite bool_decide_or.
Qed.

(** X1: [buses_grid_linked] returns the labels of the buses that have a
    voltage of the list and are the first or the second bus of a line of
    the network, in table order, and no other label. *)
Theorem buses_grid_linked_spec (w : World) (network : ref) (net : Network)
    (voltage_level : list R) :
  heap w !! network = Some net →
  ∃ ids : list string,
    buses_grid_linked network voltage_level w = (Ok ids, w) ∧
    ids = Bus.name <$>
            filter (λ b, (Bus.name b ∈ Line.bus0 <$> lines net
                          ∨ Bus.name b ∈ Line.bus1 <$> lines net)
                         ∧ Bus.v_nom b ∈ voltage_level) (buses net) ∧
    ∀ i, i ∈ ids ↔
         ∃ b l, b ∈ buses net ∧ Bus.name b = i ∧ Bus.v_nom b ∈ voltage_level ∧
                l ∈ lines net ∧ (Line.bus0 l = i ∨ Line.bus1 l = i).
Proof.
  intros Hnet. eexists. split; [by apply buses_grid_linked_run|].
  split; [reflexivity|].
  intros i. rewrite list_elem_of_fmap. split.
  - intros (b & -> & Hb). apply list_elem_of_filter in Hb as [[Hl Hv] Hb].
    destruct Hl as [Hl|Hl]; apply list_elem_of_fmap in Hl as (l & Hl & Hin);
      exists b, l; eauto 10.
  - intros (b & l & Hb & <- & Hv & Hl & Hend). exists b. split; [done|].
    apply list_elem_of_filter. split; [|done]. split; [|done].
    destruct Hend as [<-|<-]; [left|right]; by apply list_elem_of_fmap_2.
Qed.

Lemma buses_grid_linked_spec_witness :
  ∃ ids : list string,
    buses_grid_linked 0 [220%R] (Examples.world Examples.net)
      = (Ok ids, Examples.world Examples.net) ∧
    ids = Bus.name <$>
            filter (λ b, (Bus.name b ∈ Line.bus0 <$> lines Examples.net
                          ∨ Bus.name b ∈ Line.bus1 <$> lines Examples.net)
                         ∧ Bus.v_nom b ∈ [220%R]) (buses Examples.net) ∧
    ∀ i, i ∈ ids ↔
         ∃ b l, b ∈ buses Examples.net ∧ Bus.name b = i ∧ Bus.v_nom b ∈ [220%R] ∧
                l ∈ lines Examples.net ∧ (Line.bus0 l = i ∨ Line.bus1 l = i).
Proof.
  apply (buses_grid_linked_spec (Examples.world Examples.net) 0 Examples.net).
  reflexivity.
Defined.

(** X2: [connected_grid_lines] returns exactly the lines of which the
    first or the second bus is among the given buses, in table order; for
    an empty list of buses it returns no line. *)
Theorem connected_grid_lines_spec (w : World) (network : ref) (net : Network)
    (busids : list string) :
  heap w !! network = Some net →
  ∃ ls : list Line.t,
    connected_grid_lines network busids w = (Ok ls, w) ∧
    ls `sublist_of` lines net ∧
    (∀ l, l ∈ ls ↔ l ∈ lines net ∧ (Line.bus0 l ∈ busids ∨ Line.bus1 l ∈ busids)) ∧
    (busids = [] → ls = []).
Proof.
  intros Hnet. eexists. split; [by apply connected_grid_lines_run|].
  split; [apply sublist_filter|]. split.
  - intros l. rewrite list_elem_of_filter. tauto.
  - intros ->. apply filter_none. intros l _ [H|H]; by apply elem_of_nil in H.
Qed.

Lemma connected_grid_lines_spec_witness :
  ∃ ls : list Line.t,
    connected_grid_lines 0 ["2"] (Examples.world Examples.net)
      = (Ok ls, Examples.world Examples.net) ∧
    ls `sublist_of` lines Examples.net ∧
    (∀ l, l ∈ ls ↔ l ∈ lines Examples.net
                   ∧ (Line.bus0 l ∈ ["2"] ∨ Line.bus1 l ∈ ["2"])) ∧
    (["2"] = [] → ls = []).
Proof.
  apply (connected_grid_lines_spec (Examples.world Examples.net) 0 Examples.net).
  reflexivity.
Defined.

(** X3: [connected_transformer] returns the transformers whose first bus
    is among the given buses; a transformer that touches these buses with
    its second bus only is not returned. *)
Theorem connected_transformer_spec (w : World) (network : ref) (net : Network)
    (busids : list string) :
  heap w !! network = Some net →
  ∃ trs : list Transformer.t,
    connected_transformer network busids w = (Ok trs, w) ∧
    trs = filter (λ tr, Transformer.bus0 tr ∈ busids) (transformers net) ∧
    ∀ tr, tr ∈ transformers net → Transformer.bus0 tr ∉ busids → tr ∉ trs.
Proof.
  intros Hnet. eexists. split; [|split; [reflexivity|]].
  - unfold connected_transformer.
    rewrite (bind_ok _ _ _ _ _ (deref_ok _ _ _ Hnet)).
    unfold mret, M_ret. do 2 f_equal.
    rewrite <- list_fmap_compose.
    by apply boolean_index_mask.
  - intros tr _ Hno Hin. apply list_elem_of_filter in Hin as [? _]. done.
Qed.

Lemma connected_transformer_spec_witness :
  ∃ trs : list Transformer.t,
    connected_transformer 0 ["2"] (Examples.world Examples.net)
      = (Ok trs, Examples.world Examples.net) ∧
    trs = filter (λ tr, Transformer.bus0 tr ∈ ["2"]) (transformers Examples.net) ∧
    ∀ tr, tr ∈ transformers Examples.net → Transformer.bus0 tr ∉ ["2"] → tr ∉ trs.
Proof.
  apply (connected_transformer_spec (Examples.world Examples.net) 0 Examples.net).
  reflexivity.
Defined.

(** X4: the queries fit together: the buses that [buses_grid_linked]
    returns are among those that [buses_of_vlvl] returns for the same
    voltages, in the same order, and for each of them
    [connected_grid_lines] finds at least one line. *)
Theorem grid_linked_buses_have_lines (w : World) (network : ref) (net : Network)
    (voltage_level : list R) :
  heap w !! network = Some net →
  ∃ linked all : list string,
    buses_grid_linked network voltage_level w = (Ok linked, w) ∧
    buses_of_vlvl network voltage_level w = (Ok all, w) ∧
    linked `sublist_of` all ∧
    ∀ i, i ∈ linked →
         ∃ ls, connected_grid_lines network [i] w = (Ok ls, w) ∧ ls ≠ [].
Proof.
  intros Hnet. eexists _, _.
  split; [by apply buses_grid_linked_run|]. split; [by apply buses_of_vlvl_run|].
  split.
  - apply fmap_sublist.
    rewrite <- (list_filter_filter
                  (λ b, Bus.name b ∈ Line.bus0 <$> lines net
                        ∨ Bus.name b ∈ Line.bus1 <$> lines net)
                  (λ b, Bus.v_nom b ∈ voltage_level)).
    apply sublist_filter.
  - intros i Hi. apply list_elem_of_fmap in Hi as (b & -> & Hb).
    apply list_elem_of_filter in Hb as [[Hl _] _].
    eexists. split; [by apply connected_grid_lines_run|].
    assert (∃ l, l ∈ lines net ∧ (Line.bus1 l ∈ [Bus.name b] ∨ Line.bus0 l ∈ [Bus.name b]))
      as (l & Hl' & Hend).
    { destruct Hl as [Hl|Hl]; apply list_elem_of_fmap in Hl as (l & -> & Hin);
        exists l; (split; [done|]); [right|left]; left. }
    intros Hnil.
    assert (Hin : l ∈ filter (λ l, Line.bus1 l ∈ [Bus.name b] ∨ Line.bus0 l ∈ [Bus.name b])
                         (lines net)) by (by apply list_elem_of_filter).
    rewrite Hnil in Hin. by apply elem_of_nil in Hin.
Qed.

Lemma grid_linked_buses_have_lines_witness :
  ∃ linked all : list string,
    buses_grid_linked 0 [110%R] (Examples.world Examples.net)
      = (Ok linked, Examples.world Examples.net) ∧
    buses_of_vlvl 0 [110%R] (Examples.world Examples.net)
      = (Ok all, Examples.world Examples.net) ∧
    linked `sublist_of` all ∧
    ∀ i, i ∈ linked →
         ∃ ls, connected_grid_lines 0 [i] (Examples.world Examples.net)
               = (Ok ls, Examples.world Examples.net) ∧ ls ≠ [].
Proof.
  apply (grid_linked_buses_have_lines (Examples.world Examples.net) 0 Examples.net).
  reflexivity.
Defined.

(** ** load_shedding: errors, frame and the case in which it works *)

(** The three ways in which [load_shedding] ends. *)
Lemma load_shedding_run (w : World) (network : ref) (net : Network)
    (kwargs : gmap string R) :
  heap w !! network = Some net →
  let net1 := add_carrier "load" net in
  let w1 := mkWorld (<[network := net1]> (heap w)) (fs w) (trace w) in
  let marginal_cost := default 10000%R (kwargs !! "marginal_cost") in
  let p_nom := from_option Some (frame_max_max (loads_t_p_set net)) (kwargs !! "p_nom") in
  load_shedding network kwargs w =
    match astype_int (Generator.name <$> generators net) with
    | None => (Raise ValueError, w1)
    | Some ids =>
        match index_max ids with
        | None => (Raise TypeError, w1)
        | Some m =>
            (Ok tt,
             mkWorld
               (<[network :=
                    import_components_from_dataframe
                      (load_shedding_frame marginal_cost p_nom (Bus.name <$> buses net)
                         (py_str <$> seqZ m (Z.of_nat (length (buses net)))))
                      net1]> (heap w))
               (fs w) (trace w))
        end
    end.
Proof. apply load_shedding_with_run. Qed.

(** X5: on a network without generators [load_shedding] raises TypeError
    (the maximum of the empty index is NaN, which range() refuses); the
    carrier "load" has been added by then and stays. *)
Theorem load_shedding_no_generator (w : World) (network : ref) (net : Network)
    (kwargs : gmap string R) :
  heap w !! network = Some net →
  generators net = [] →
  load_shedding network kwargs w
    = (Raise TypeError,
       mkWorld (<[network := add_carrier "load" net]> (heap w)) (fs w) (trace w)).
Proof.
  intros Hnet Hgen. rewrite (load_shedding_run _ _ _ _ Hnet), Hgen. reflexivity.
Qed.

Lemma load_shedding_no_generator_witness :
  load_shedding 0 ∅ (Examples.world Examples.net_named)
    = (Raise TypeError,
       mkWorld (<[0 := add_carrier "load" Examples.net_named]>
                  (heap (Examples.world Examples.net_named)))
               (fs (Examples.world Examples.net_named))
               (trace (Examples.world Examples.net_named))).
Proof.
  apply (load_shedding_no_generator (Examples.world Examples.net_named) 0
           Examples.net_named ∅); reflexivity.
Defined.

(** X6: when some generator has a label that int() does not accept
    (the labels that it accepts being within [int64]), [load_shedding]
    raises ValueError, whatever the other labels are; the carrier "load"
    has been added by then, if the network did not have it, and stays;
    everything else in the network, the generators among it, is as it
    was. *)
Theorem load_shedding_bad_label (w : World) (network : ref) (net : Network)
    (kwargs : gmap string R) (gen : Generator.t) :
  heap w !! network = Some net →
  gen ∈ generators net →
  py_int (Generator.name gen) = None →
  Forall (λ g, ∀ z : Z, py_int (Generator.name g) = Some z → int64 z)
         (generators net) →
  load_shedding network kwargs w
    = (Raise ValueError,
       mkWorld (<[network :=
                    mkNetwork (snapshots net) (buses net) (lines net)
                      (transformers net) (generators net) (loads net)
                      (if bool_decide ("load" ∈ carriers net) then carriers net
                       else carriers net ++ ["load"])
                      (loads_t_p_set net) (generators_t_p_set net)
                      (generators_t_p net) (lines_t_p0 net) (lines_t_q0 net)
                      (lines_t_losses net) (results_solver_time net)
                      (Z_matrix net)]> (heap w))
               (fs w) (trace w)).
Proof.
  intros Hnet Hgen Hint _.
  rewrite (load_shedding_run _ _ _ _ Hnet).
  unfold astype_int. rewrite mapM_None_2.
  - do 3 f_equal. unfold add_carrier. destruct net. cbn.
    by destruct (bool_decide _).
  - apply Exists_exists. exists (Generator.name gen).
    split; [by apply list_elem_of_fmap_2|done].
Qed.

Lemma load_shedding_bad_label_witness :
  let net := MoreExamples.net_wind in
  load_shedding 0 ∅ (Examples.world net)
    = (Raise ValueError,
       mkWorld (<[0 :=
                    mkNetwork (snapshots net) (buses net) (lines net)
                      (transformers net) (generators net) (loads net)
                      (if bool_decide ("load" ∈ carriers net) then carriers net
                       else carriers net ++ ["load"])
                      (loads_t_p_set net) (generators_t_p_set net)
                      (generators_t_p net) (lines_t_p0 net) (lines_t_q0 net)
                      (lines_t_losses net) (results_solver_time net)
                      (Z_matrix net)]> (heap (Examples.world net)))
               (fs (Examples.world net)) (trace (Examples.world net))).
Proof.
  intros net.
  apply (load_shedding_bad_label (Examples.world net) 0 net ∅
           (Generator.mk "wind 1" "1" "wind" 0 (Some 100%R))).
  - reflexivity.
  - left.
  - reflexivity.
  - repeat (apply Forall_cons; split); try by apply Forall_nil.
    all: intros z H; vm_compute in H; try discriminate;
      injection H as <-; unfold int64; lia.
Defined.

Lemma set_generators_frame (gens : list Generator.t) (n n' : Network) :
  n' = set_generators (generators n') (set_carriers (carriers n') n) →
  set_generators gens n' = set_generators gens (set_carriers (carriers n') n).
Proof. intros E. destruct n, n'. cbn in *. by injection E as -> -> -> -> -> -> -> -> -> -> -> -> ->. Qed.

(** X7: whatever the outcome, [load_shedding] touches the network it is
    given and nothing else, and of that network only the carriers and the
    generators: "load" is a carrier afterwards, the carriers and the
    generators that were there are still there, in place, and every other
    table is as it was; when it raises, the generators are unchanged. *)
Theorem load_shedding_frame_rule (w : World) (network : ref) (net : Network)
    (kwargs : gmap string R) :
  heap w !! network = Some net →
  ∃ (r : result unit) (net' : Network),
    load_shedding network kwargs w
      = (r, mkWorld (<[network := net']> (heap w)) (fs w) (trace w)) ∧
    net' = set_generators (generators net') (set_carriers (carriers net') net) ∧
    "load" ∈ carriers net' ∧
    carriers net `prefix_of` carriers net' ∧
    generators net `prefix_of` generators net' ∧
    (r ≠ Ok tt → generators net' = generators net).
Proof.
  intros Hnet. rewrite (load_shedding_run _ _ _ _ Hnet).
  set (net1 := add_carrier "load" net).
  assert (H1 : net1 = set_generators (generators net1) (set_carriers (carriers net1) net)
               ∧ "load" ∈ carriers net1 ∧ carriers net `prefix_of` carriers net1
               ∧ generators net1 = generators net).
  { unfold net1, add_carrier. case_bool_decide as Hc.
    - by destruct net.
    - destruct net. cbn. split; [done|]. split; [|split; [|done]].
      + apply elem_of_app. right. left.
      + by eexists. }
  destruct H1 as (Heta & Hload & Hpre & Hgen).
  assert (Hrefused : net1 = set_generators (generators net1) (set_carriers (carriers net1) net)
               ∧ "load" ∈ carriers net1 ∧ carriers net `prefix_of` carriers net1
               ∧ generators net `prefix_of` generators net1
               ∧ (∀ r : result unit, r ≠ Ok tt → generators net1 = generators net)).
  { split; [exact Heta|]. split; [exact Hload|]. split; [exact Hpre|].
    rewrite Hgen. split; [reflexivity|done]. }
  destruct (astype_int _) as [ids|]; [destruct (index_max ids) as [m|]|].
  - eexists _, _. split; [reflexivity|].
    unfold import_components_from_dataframe. destruct (decide _).
    + assert (Hc : carriers (set_generators (generators net1 ++ load_shedding_frame
                  (default 10000%R (kwargs !! "marginal_cost"))
                  (from_option Some (frame_max_max (loads_t_p_set net)) (kwargs !! "p_nom"))
                  (Bus.name <$> buses net)
                  (py_str <$> seqZ m (Z.of_nat (length (buses net))))) net1)
                  = carriers net1) by reflexivity.
      rewrite Hc. split; [|split; [exact Hload|split; [exact Hpre|split]]].
      * by apply set_generators_frame.
      * cbn. rewrite Hgen. by eexists.
      * done.
    + destruct Hrefused as (? & ? & ? & ? & ?); eauto 10.
  - eexists _, _. split; [reflexivity|].
    destruct Hrefused as (? & ? & ? & ? & ?); eauto 10.
  - eexists _, _. split; [reflexivity|].
    destruct Hrefused as (? & ? & ? & ? & ?); eauto 10.
Qed.

Lemma load_shedding_frame_rule_witness :
  ∃ (r : result unit) (net' : Network),
    load_shedding 0 ∅ (Examples.world Examples.net)
      = (r, mkWorld (<[0 := net']> (heap (Examples.world Examples.net)))
                    (fs (Examples.world Examples.net))
                    (trace (Examples.world Examples.net))) ∧
    net' = set_generators (generators net') (set_carriers (carriers net') Examples.net) ∧
    "load" ∈ carriers net' ∧
    carriers Examples.net `prefix_of` carriers net' ∧
    generators Examples.net `prefix_of` generators net' ∧
    (r ≠ Ok tt → generators net' = generators Examples.net).
Proof.
  apply (load_shedding_frame_rule (Examples.world Examples.net) 0 Examples.net ∅).
  reflexivity.
Defined.



(** The maximum that skips NaN is at least every number of the list. *)
Lemma nanmax_ge (l : list cell) (x : R) :
  Some x ∈ l → ∃ m : R, nanmax l = Some m ∧ (x <= m)%R.
Proof.
  induction l as [|c l IH]; intros Hin; [by apply elem_of_nil in Hin|].
  change (nanmax (c :: l)) with
    (match c, nanmax l with
     | Some x, Some y => Some (Rmax x y)
     | Some x, None => Some x
     | None, acc => acc
     end).
  apply elem_of_cons in Hin as [<-|Hin].
  - destruct (nanmax l) as [y|]; eexists; (split; [reflexivity|]).
    + apply Rmax_l.
    + lra.
  - destruct (IH Hin) as (y & -> & Hy). destruct c as [z|].
    + eexists. split; [reflexivity|]. etrans; [exact Hy|apply Rmax_r].
    + by eexists.
Qed.

Lemma frame_max_max_ge (F : Frame) (t j : nat) (x : R) :
  j < length (columns F) →
  iat F t j = Some (Some x) →
  ∃ m : R, frame_max_max F = Some m ∧ (x <= m)%R.
Proof.
  intros Hj Hx. unfold iat in Hx.
  destruct (data F !! t) as [row|] eqn:Hrow; [|done].
  change (row !! j = Some (Some x)) in Hx.
  destruct (nanmax_ge (column F j) x) as (y & Hy & Hxy).
  { unfold column. apply list_elem_of_fmap. exists row.
    split; [cbv beta; by rewrite Hx|by eapply list_elem_of_lookup_2]. }
  destruct (nanmax_ge ((λ j, nanmax (column F j)) <$> seq 0 (length (columns F))) y)
    as (m & Hm & Hym).
  { apply list_elem_of_fmap. exists j. split; [done|]. apply elem_of_seq. lia. }
  exists m. split; [exact Hm|lra].
Qed.

(** X9: without the keyword p_nom, every generator that [load_shedding]
    adds can carry each single load of each snapshot: its capacity is a
    number, and no cell of loads_t.p_set is larger. *)
Theorem load_shedding_default_p_nom (w : World) (network : ref) (net : Network)
    (kwargs : gmap string R) (w' : World) (net' : Network) (gen : Generator.t)
    (t j : nat) (x : R) :
  heap w !! network = Some net →
  kwargs !! "p_nom" = None →
  load_shedding network kwargs w = (Ok tt, w') →
  heap w' !! network = Some net' →
  gen ∈ generators net' →
  gen ∉ generators net →
  j < length (columns (loads_t_p_set net)) →
  iat (loads_t_p_set net) t j = Some (Some x) →
  ∃ p : R, Generator.p_nom gen = Some p ∧ (x <= p)%R.
Proof.
  intros Hnet Hkw Hrun Hnet' Hgen Hnew Hj Hx.
  rewrite (load_shedding_run _ _ _ _ Hnet) in Hrun.
  destruct (astype_int _) as [ids|]; [|done].
  destruct (index_max ids) as [m|]; [|done].
  injection Hrun as <-. cbn [heap] in Hnet'.
  rewrite lookup_insert_eq in Hnet'. injection Hnet' as <-.
  unfold import_components_from_dataframe in Hgen.
  rewrite add_carrier_generators in Hgen. destruct (decide _).
  - change (gen ∈ generators net ++
              load_shedding_frame (default 10000%R (kwargs !! "marginal_cost"))
                (from_option Some (frame_max_max (loads_t_p_set net)) (kwargs !! "p_nom"))
                (Bus.name <$> buses net)
                (py_str <$> seqZ m (Z.of_nat (length (buses net))))) in Hgen.
    apply elem_of_app in Hgen as [Hgen|Hgen]; [done|].
    unfold load_shedding_frame in Hgen.
    apply elem_of_zip_with in Hgen as (i & b & -> & _ & _). cbn.
    rewrite Hkw. cbn. by eapply frame_max_max_ge.
  - by rewrite add_carrier_generators in Hgen.
Qed.

Lemma load_shedding_default_p_nom_witness :
  ∃ p : R,
    Generator.p_nom
      (Generator.mk "8" "2" "load shedding" 10000
         (frame_max_max (loads_t_p_set MoreExamples.net_zeros)))
      = Some p ∧ (30 <= p)%R.
Proof.
  eapply (load_shedding_default_p_nom (Examples.world MoreExamples.net_zeros) 0
           MoreExamples.net_zeros ∅
           (load_shedding 0 ∅ (Examples.world MoreExamples.net_zeros)).2 _ _ 0 0 30).
  - reflexivity.
  - reflexivity.
  - by vm_compute.
  - vm_compute. reflexivity.
  - right. right. left.
  - intros Hin%list_elem_of_In. destruct Hin as [?|[]]. discriminate.
  - cbn. lia.
  - reflexivity.
Defined.

(** ** parallelisation on any network *)

(** A slice with bounds that are not negative. *)
Lemma py_slice_take_drop {A} (l : list A) (a b : Z) :
  (0 ≤ a ≤ b)%Z →
  py_slice l a b = take (Z.to_nat (b - a)) (drop (Z.to_nat a) l).
Proof.
  intros Hab. unfold py_slice, slice_bound.
  destruct (Z.ltb_spec a 0); [lia|]. destruct (Z.ltb_spec b 0); [lia|].
  destruct (Z.le_gt_cases a (Z.of_nat (length l))) as [Ha|Ha].
  - rewrite (Z.min_l a) by lia.
    destruct (Z.le_gt_cases b (Z.of_nat (length l))) as [Hb|Hb].
    + by rewrite (Z.min_l b) by lia.
    + rewrite (Z.min_r b) by lia.
      rewrite !take_ge; [done| |]; rewrite length_drop; lia.
  - rewrite (Z.min_r a) by lia. rewrite !drop_ge by lia. by rewrite !take_nil.
Qed.

(** Consecutive chunks make up a prefix. *)
Lemma concat_chunks {A} (l : list A) (g k : nat) :
  concat ((λ i, take g (drop (g * i) l)) <$> seq 0 k) = take (g * k) l.
Proof.
  induction k as [|k IH].
  - by rewrite Nat.mul_0_r.
  - rewrite seq_S, fmap_app, concat_app, IH. cbn [fmap list_fmap concat].
    rewrite app_nil_r, Nat.add_0_l, take_take_drop. f_equal. lia.
Qed.

Section more_pypsa_properties.
Context `{PyPSA}.

(** X10: [parallelisation] on a network with any snapshots, for a
    positive [group_size], the numbers being small enough for the float
    quotient to truncate as the exact one (|end_h - start_h + 1| +
    group_size below 2^52): the hours [start_h] and [end_h] only fix the
    number k = floor((end_h - start_h + 1) / group_size) of solver calls;
    the i-th call gets the snapshots at the positions group_size * i to
    group_size * i + group_size - 1 of network.snapshots, counted from
    its first snapshot whatever [start_h] is, and fewer (or none) where
    the snapshots end.  Together the calls cover the first group_size * k
    snapshots of the network, in order, each once.  Without a call the
    world is left as it was. *)
Theorem parallelisation_windows (w : World) (network : ref) (net : Network)
    (start_h end_h group_size : Z) (solver_name : string)
    (extra : option extra_functionality_t) :
  heap w !! network = Some net →
  (0 < group_size)%Z →
  (Z.abs (end_h - start_h + 1) + group_size < 2 ^ 52)%Z →
  let k := ((end_h - start_h + 1) `div` group_size)%Z in
  ∃ (w' : World) (calls : list event),
    parallelisation network start_h end_h group_size solver_name extra w
      = (Ok tt, w') ∧
    trace w' = trace w ++ calls ∧
    fs w' = fs w ∧
    length calls = Z.to_nat k ∧
    lopf_windows calls
      = (λ i : Z, take (Z.to_nat group_size)
                    (drop (Z.to_nat (group_size * i)) (snapshots net)))
          <$> seqZ 0 k ∧
    concat (lopf_windows calls) = take (Z.to_nat (group_size * k)) (snapshots net) ∧
    ((k ≤ 0)%Z → w' = w).
Proof.
  intros Hnet Hg _ k. set (N := (end_h - start_h + 1)%Z) in *.
  assert (Hrange : py_range (N ÷ group_size) = seqZ 0 k).
  { unfold py_range, k. destruct (Z.le_gt_cases 0 N).
    - rewrite Z.quot_div_nonneg by lia. done.
    - rewrite !seqZ_nil; [done| |].
      + apply Z.lt_le_incl, Z.div_lt_upper_bound; lia.
      + pose proof (Z.quot_opp_l N group_size ltac:(lia)).
        pose proof (Z.quot_pos (- N) group_size ltac:(lia) ltac:(lia)). lia. }
  assert (Hrun : parallelisation network start_h end_h group_size solver_name extra w
                 = for_each (seqZ 0 k)
                     (λ i, net ← deref network;
                           network_lopf network
                             (py_slice (snapshots net) (group_size * i)
                                (group_size * i + group_size))
                             solver_name extra) w).
  { unfold parallelisation, int_div. rewrite decide_False by lia.
    erewrite bind_ok; [|reflexivity]. fold N. by rewrite Hrange. }
  destruct (parallelisation_loop network group_size solver_name extra
              (seqZ 0 k) w net Hnet) as (w' & net' & E & _ & _ & Hfs & Ht).
  exists w', ((λ i, Lopf network
                      (py_slice (snapshots net) (group_size * i)
                         (group_size * i + group_size)) solver_name)
                <$> seqZ 0 k).
  assert (Hwin : lopf_windows
                   ((λ i, Lopf network
                            (py_slice (snapshots net) (group_size * i)
                               (group_size * i + group_size)) solver_name)
                      <$> seqZ 0 k)
                 = (λ i : Z, take (Z.to_nat group_size)
                               (drop (Z.to_nat (group_size * i)) (snapshots net)))
                     <$> seqZ 0 k).
  { rewrite lopf_windows_fmap. apply list_fmap_ext. intros j i Hi.
    apply lookup_seqZ in Hi as [-> Hj].
    rewrite py_slice_take_drop by nia. do 2 f_equal. lia. }
  split; [by rewrite Hrun|]. split; [done|]. split; [done|].
  split; [by rewrite length_fmap, length_seqZ|]. split; [done|]. split.
  - rewrite Hwin. destruct (Z.le_gt_cases 0 k) as [Hk|Hk].
    + unfold seqZ. rewrite <- list_fmap_compose.
      rewrite Z2Nat.inj_mul by lia.
      rewrite <- (concat_chunks (snapshots net) (Z.to_nat group_size) (Z.to_nat k)).
      f_equal. apply list_fmap_ext.
      intros j i Hi. cbn. do 2 f_equal. lia.
    + rewrite seqZ_nil by lia. cbn.
      replace (Z.to_nat (group_size * k)) with 0 by nia. done.
  - intros Hk. rewrite seqZ_nil in E by lia. cbn in E. by injection E.
Qed.
End more_pypsa_properties.

Lemma parallelisation_windows_witness :
  ∃ (w' : World) (calls : list event),
    parallelisation (H := Examples.pypsa) 0 3 5 2 "glpk" None
      (Examples.world Examples.net5) = (Ok tt, w') ∧
    trace w' = trace (Examples.world Examples.net5) ++ calls ∧
    fs w' = fs (Examples.world Examples.net5) ∧
    length calls = 1 ∧
    lopf_windows calls
      = (λ i : Z, take 2 (drop (Z.to_nat (2 * i)) (snapshots Examples.net5)))
          <$> seqZ 0 1 ∧
    concat (lopf_windows calls) = take 2 (snapshots Examples.net5) ∧
    ((1 ≤ 0)%Z → w' = Examples.world Examples.net5).
Proof.
  apply (parallelisation_windows (H := Examples.pypsa) (Examples.world Examples.net5) 0
           Examples.net5 3 5 2 "glpk" None).
  - reflexivity.
  - lia.
  - cbn. lia.
Defined.

(** ** results_to_csv: the Z matrix, and calling it again *)

(** Exporting again into the folder of an export changes nothing. *)
Lemma export_again (e old : gmap string Table) (t : Table) :
  <["network.csv" := t]> (e ∪ <["network.csv" := t]> (e ∪ old))
  = <["network.csv" := t]> (e ∪ old).
Proof.
  apply map_eq. intros k. destruct (decide (k = "network.csv")) as [->|Hk].
  - by rewrite !lookup_insert_eq.
  - rewrite !lookup_insert_ne by done. rewrite !lookup_union.
    rewrite lookup_insert_ne by done. rewrite lookup_union.
    by destruct (e !! k), (old !! k).
Qed.

Lemma export_again_Z (e old : gmap string Table) (t z : Table) :
  (<["network.csv" := t]> (e ∪ old)) !! "Z.csv" = None →
  <["network.csv" := t]> (e ∪ <["Z.csv" := z]> (<["network.csv" := t]> (e ∪ old)))
  = <["Z.csv" := z]> (<["network.csv" := t]> (e ∪ old)).
Proof.
  intros Hz. rewrite lookup_insert_ne in Hz by done.
  apply lookup_union_None in Hz as [Hez Hoz].
  apply map_eq. intros k. destruct (decide (k = "network.csv")) as [->|Hk].
  - rewrite lookup_insert_eq, lookup_insert_ne by done. by rewrite lookup_insert_eq.
  - rewrite lookup_insert_ne by done. rewrite lookup_union.
    destruct (decide (k = "Z.csv")) as [->|Hkz].
    + by rewrite !lookup_insert_eq, Hez.
    + rewrite !lookup_insert_ne by done. rewrite lookup_union.
      by destruct (e !! k), (old !! k).
Qed.

Section results_to_csv_properties.
Context `{PyPSA}.

(** X11: the Z matrix of a network that has one.  [results_to_csv] looks
    for Z.csv not in [path] but in the directory that is left of [path]
    when the digits at both its ends are stripped: with the path
    'out/1' that is the directory 'out', which the call has made on the
    way.  When the stripped path names no directory, the error of
    [os.listdir] is raised (after the export into [path]).  When it
    names another directory than [path]: if that holds a file or a
    directory Z.csv, it is left as it is; otherwise the matrix is
    written to a new Z.csv there, and nothing else in that directory
    changes. *)
Theorem results_to_csv_Z (w : World) (network : ref) (net : Network) (p : string)
    (z : Table) :
  heap w !! network = Some net →
  Z_matrix net = Some z →
  well_formed (fs w) →
  valid_path p →
  p ≠ "" →
  no_file_on (fs w) p →
  no_dir_for (fs w) p (export_to_csv_folder net) →
  let d := py_strip "0123456789" p in
  ∃ (r : result unit) (w' : World),
    results_to_csv network (Path p) w = (r, w') ∧
    match lookup_path (fs w') d with
    | IsDir ld =>
        r = Ok tt ∧
        (ld ≠ target (fs w) p →
         let before := default ∅ (dirs (fs w) !! ld) in
         dirs (fs w') !! ld
         = Some (if bool_decide (is_Some (before !! "Z.csv")
                                 ∨ is_Some (dirs (fs w') !! (ld ++ ["Z.csv"])))
                 then before else <["Z.csv" := z]> before))
    | IsFile _ _ => r = Raise NotADirectoryError
    | Missing e => r = Raise e
    end.
Proof.
  intros Hnet HZ Hwf _ Hp Hfile Hdir d.
  destruct (export_network_csv net) as [exported Hexp].
  destruct (results_to_csv_clear _ _ _ _ _ Hnet Hexp Hwf Hp Hfile Hdir)
    as (d1 & Hmk & Hrun).
  cbv zeta in Hrun. rewrite HZ in Hrun. cbn [fs dirs cwd heap trace] in Hrun.
  fold d in Hrun.
  destruct (mkdirs_grows _ _ _ _ _ Hmk) as [Hkeep Hnew].
  set (c := cwd (fs w)) in *.
  set (l := target (fs w) p) in *.
  set (files3 := <["network.csv" := _]> _) in Hrun.
  set (d3 := <[l := files3]> d1) in *.
  destruct (lookup_path (mkFS c d3) d) as [ld|l0 n0|e0] eqn:Hq.
  2:{ eexists _, _. split; [exact Hrun|]. cbn [fs]. by rewrite Hq. }
  2:{ eexists _, _. split; [exact Hrun|]. cbn [fs]. by rewrite Hq. }
  pose proof (lookup_path_is_dir _ _ _ Hq) as [fd Hfd]. cbn [dirs] in Hfd.
  rewrite Hfd in Hrun. cbn [default] in Hrun. unfold Datatypes.id in Hrun.
  assert (Hbefore : ld ≠ l → default ∅ (dirs (fs w) !! ld) = fd).
  { intros Hne. unfold d3 in Hfd. rewrite lookup_insert_ne in Hfd by done.
    destruct (Hnew _ _ Hfd) as [->|(-> & -> & _)]; done. }
  case_bool_decide as Hcond.
  - destruct Hcond as [HnoZ HnoZdir].
    eexists _, _. split; [exact Hrun|]. cbn [fs dirs].
    rewrite (lookup_path_mono c d3 _ d ld); [|intros k Hk|done].
    2:{ destruct (decide (k = ld)) as [->|Hne].
        - rewrite lookup_insert_eq. by eexists.
        - by rewrite lookup_insert_ne. }
    split; [done|]. intros Hne. cbv zeta. rewrite (Hbefore Hne).
    rewrite lookup_insert_eq. f_equal.
    rewrite bool_decide_eq_false_2; [done|].
    rewrite lookup_insert_ne by (intros E; apply (f_equal length) in E;
                                 rewrite length_app in E; cbn in E; lia).
    rewrite HnoZ, HnoZdir. by intros [[? ?]|[? ?]].
  - eexists _, _. split; [exact Hrun|]. cbn [fs dirs]. rewrite Hq.
    split; [done|]. intros Hne. cbv zeta. rewrite (Hbefore Hne), Hfd. f_equal.
    rewrite bool_decide_eq_true_2; [done|].
    destruct (fd !! "Z.csv") as [t|] eqn:E1; [left; by eexists|].
    destruct (d3 !! (ld ++ ["Z.csv"])) as [v|] eqn:E2; [right; by eexists|].
    by destruct Hcond.
Qed.

(** X12: when [path] has no digit at either end, Z.csv belongs to the
    folder of the export itself: the call succeeds, and afterwards that
    folder holds the Z.csv of the export or the one that was there
    already, if any, and the Z matrix of the network otherwise; nothing
    is written where the folder has a directory of the name Z.csv. *)
Theorem results_to_csv_Z_in_export (w : World) (network : ref) (net : Network)
    (p : string) (z : Table) :
  heap w !! network = Some net →
  Z_matrix net = Some z →
  well_formed (fs w) →
  valid_path p →
  p ≠ "" →
  no_file_on (fs w) p →
  no_dir_for (fs w) p (export_to_csv_folder net) →
  py_strip "0123456789" p = p →
  ∃ (w' : World) (files : gmap string Table),
    results_to_csv network (Path p) w = (Ok tt, w') ∧
    dirs (fs w') !! target (fs w) p = Some files ∧
    let written := export_to_csv_folder net
                   ∪ default ∅ (dirs (fs w) !! target (fs w) p) in
    files !! "Z.csv"
    = if bool_decide (is_Some (dirs (fs w') !! (target (fs w) p ++ ["Z.csv"])))
      then written !! "Z.csv"
      else Some (default z (written !! "Z.csv")).
Proof.
  intros Hnet HZ Hwf _ Hp Hfile Hdir Hstrip.
  destruct (export_network_csv net) as [exported Hexp].
  destruct (results_to_csv_clear _ _ _ _ _ Hnet Hexp Hwf Hp Hfile Hdir)
    as (d1 & Hmk & Hrun).
  cbv zeta in Hrun. rewrite HZ, Hstrip in Hrun. cbn [fs dirs cwd heap trace] in Hrun.
  destruct (mkdirs_grows _ _ _ _ _ Hmk) as [Hkeep Hnew].
  set (c := cwd (fs w)) in *.
  set (l := target (fs w) p) in *.
  set (e := export_to_csv_folder net) in *.
  assert (Hold : default ∅ (d1 !! l) = default ∅ (dirs (fs w) !! l)).
  { destruct (d1 !! l) as [v|] eqn:E.
    - destruct (Hnew _ _ E) as [->|(-> & -> & _)]; done.
    - destruct (dirs (fs w) !! l) as [v|] eqn:E'; [|done].
      by rewrite (Hkeep _ _ E') in E. }
  rewrite Hold in Hrun.
  set (old := default ∅ (dirs (fs w) !! l)) in *.
  set (files3 := <["network.csv" := _]> (e ∪ old)) in Hrun.
  set (d3 := <[l := files3]> d1) in *.
  assert (Hlook : lookup_path (mkFS c d3) p = IsDir l).
  { apply (lookup_path_mono c d1).
    - intros k Hk. unfold d3. destruct (decide (k = l)) as [->|Hne].
      + rewrite lookup_insert_eq. by eexists.
      + by rewrite lookup_insert_ne.
    - unfold lookup_path. cbn [dirs]. rewrite bool_decide_eq_false_2 by done.
      change (start (mkFS c d1) p) with (start (fs w) p).
      assert (Hs1 : is_dir d1 (start (fs w) p) = true).
      { apply is_dir_true, (mkdirs_keeps _ _ _ _ _ _ Hmk), is_dir_true.
        by apply well_formed_start. }
      rewrite Hs1. by apply mkdirs_ok_walk in Hmk. }
  rewrite Hlook in Hrun.
  assert (Hd3l : d3 !! l = Some files3) by apply lookup_insert_eq.
  rewrite Hd3l in Hrun. cbn [default] in Hrun. unfold Datatypes.id in Hrun.
  assert (Hwritten : files3 !! "Z.csv" = (e ∪ old) !! "Z.csv").
  { unfold files3. by rewrite lookup_insert_ne. }
  assert (Hlen : l ++ ["Z.csv"] ≠ l).
  { intros E. apply (f_equal length) in E. rewrite length_app in E. cbn in E. lia. }
  case_bool_decide as Hcond.
  - destruct Hcond as [HnoZ HnoZdir].
    eexists _, _. split; [exact Hrun|]. cbn [fs dirs].
    split; [apply lookup_insert_eq|]. cbv zeta.
    rewrite lookup_insert_eq, lookup_insert_ne by done.
    rewrite bool_decide_eq_false_2 by (rewrite HnoZdir; by intros [? ?]).
    by rewrite <- Hwritten, HnoZ.
  - eexists _, _. split; [exact Hrun|]. cbn [fs dirs].
    split; [done|]. cbv zeta. rewrite Hwritten.
    case_bool_decide as Hdirz; [done|].
    destruct ((e ∪ old) !! "Z.csv") as [t|] eqn:E; [done|].
    destruct Hcond. split; [by rewrite Hwritten|].
    by apply eq_None_not_Some.
Qed.

(** X13: calling [results_to_csv] again, on the same network and with
    the same path, has the same outcome and changes nothing: the files
    are those of the first call. *)
Theorem results_to_csv_again (w w1 : World) (network : ref) (path : path_arg)
    (r : result unit) :
  is_Some (heap w !! network) →
  results_to_csv network path w = (r, w1) →
  results_to_csv network path w1 = (r, w1).
Proof.
  intros [net Hnet] Hrun. destruct path as [|p].
  { cbn in *. by injection Hrun as <- <-. }
  destruct (export_network_csv net) as [exported Hexp].
  rewrite (results_to_csv_run _ _ _ _ _ Hnet Hexp) in Hrun.
  destruct (bool_decide (p = "") || negb (is_dir (dirs (fs w)) (start (fs w) p)))
    eqn:Hstart.
  { injection Hrun as <- <-. rewrite (results_to_csv_run _ _ _ _ _ Hnet Hexp).
    by rewrite Hstart. }
  cbv zeta in Hrun.
  apply orb_false_iff in Hstart as [Hp Hs]. apply negb_false_iff in Hs.
  set (c := cwd (fs w)) in *.
  set (s := start (fs w) p) in *.
  set (names := split_slash p) in *.
  set (l := target (fs w) p) in *.
  set (W := λ d, mkWorld (heap w) (mkFS c d) (trace w)).
  (* the second call, from a world with the directories [d2] *)
  assert (Hagain : ∀ d2 : gmap location (gmap string Table),
            results_to_csv network (Path p) (W d2)
            = if negb (is_dir d2 s) then (Raise FileNotFoundError, W d2)
              else
                let r := mkdirs d2 s names in
                match r.1 with
                | Some e => (Raise e, W r.2)
                | None =>
                    if decide (map_Forall (λ (name : string) (_ : Table),
                                             r.2 !! (l ++ [name]) = None)
                                          (export_to_csv_folder net))
                    then
                      let data := assign_column "time" (VNum (results_solver_time net))
                                    (read_csv exported) in
                      let files := <["network.csv" := to_csv data]>
                                     (export_to_csv_folder net ∪ default ∅ (r.2 !! l)) in
                      match Z_matrix net with
                      | None => (Ok tt, W (<[l := files]> r.2))
                      | Some z =>
                          match lookup_path (mkFS c (<[l := files]> r.2))
                                  (py_strip "0123456789" p) with
                          | IsDir ld =>
                              (Ok tt,
                               if bool_decide
                                    (default ∅ (<[l := files]> r.2 !! ld) !! "Z.csv" = None
                                     ∧ <[l := files]> r.2 !! (ld ++ ["Z.csv"]) = None)
                               then W (<[ld := <["Z.csv" := z]>
                                                  (default ∅ (<[l := files]> r.2 !! ld))]>
                                         (<[l := files]> r.2))
                               else W (<[l := files]> r.2))
                          | IsFile _ _ => (Raise NotADirectoryError, W (<[l := files]> r.2))
                          | Missing e => (Raise e, W (<[l := files]> r.2))
                          end
                      end
                    else (Raise IsADirectoryError, W r.2)
                end).
  { intros d2. rewrite (results_to_csv_run (W d2) _ net p exported) by done.
    cbn [W fs dirs cwd heap trace]. apply bool_decide_eq_false in Hp.
    rewrite bool_decide_eq_false_2 by done. cbn [orb]. reflexivity. }
  assert (Hw : W (dirs (fs w)) = w) by apply world_eta.
  destruct (mkdirs (dirs (fs w)) s names) as [[e|] d1] eqn:Hmk; cbn [fst snd] in Hrun.
  { (* makedirs has failed *)
    injection Hrun as <- <-. fold (W d1). rewrite Hagain.
    assert (Hs1 : is_dir d1 s = true).
    { apply is_dir_true, (mkdirs_keeps _ _ _ _ _ _ Hmk). by apply is_dir_true. }
    rewrite Hs1. cbn [negb]. cbv zeta. by rewrite (mkdirs_again _ _ _ _ _ Hmk). }
  assert (Hs1 : is_dir d1 s = true).
  { apply is_dir_true, (mkdirs_keeps _ _ _ _ _ _ Hmk). by apply is_dir_true. }
  assert (Hwalk1 : walk d1 s names = IsDir l) by (by apply mkdirs_ok_walk in Hmk).
  assert (Hl1 : is_Some (d1 !! l)).
  { apply is_dir_true. by eapply walk_is_dir. }
  destruct (decide (map_Forall _ _)) as [Hfree|Hclash].
  2:{ (* the export has failed *)
      injection Hrun as <- <-. fold (W d1). rewrite Hagain, Hs1. cbn [negb]. cbv zeta.
      rewrite (mkdirs_again _ _ _ _ _ Hmk). cbn [fst snd].
      by rewrite decide_False. }
  set (t := to_csv (assign_column "time" (VNum (results_solver_time net))
                      (read_csv exported))) in *.
  set (e := export_to_csv_folder net) in *.
  set (files := <["network.csv" := t]> (e ∪ default ∅ (d1 !! l))) in *.
  set (d3 := <[l := files]> d1) in *.
  set (q := py_strip "0123456789" p) in *.
  cbn [fs dirs cwd heap trace] in Hrun. fold (W d3) in Hrun.
  assert (Hd3l : d3 !! l = Some files) by apply lookup_insert_eq.
  assert (Hdom3 : ∀ k, is_Some (d1 !! k) → is_Some (d3 !! k)).
  { intros k Hk. unfold d3. destruct (decide (k = l)) as [->|Hne].
    - rewrite lookup_insert_eq. by eexists.
    - by rewrite lookup_insert_ne. }
  (* the second call from a world with the same directories, in which
     the files of the export are written *)
  assert (Hsecond : ∀ d2 : gmap location (gmap string Table),
            (∀ k, is_Some (d1 !! k) ↔ is_Some (d2 !! k)) →
            <[l := <["network.csv" := t]> (e ∪ default ∅ (d2 !! l))]> d2 = d2 →
            results_to_csv network (Path p) (W d2)
            = match Z_matrix net with
              | None => (Ok tt, W d2)
              | Some z =>
                  match lookup_path (mkFS c d2) q with
                  | IsDir ld =>
                      (Ok tt,
                       if bool_decide (default ∅ (d2 !! ld) !! "Z.csv" = None
                                       ∧ d2 !! (ld ++ ["Z.csv"]) = None)
                       then W (<[ld := <["Z.csv" := z]> (default ∅ (d2 !! ld))]> d2)
                       else W d2)
                  | IsFile _ _ => (Raise NotADirectoryError, W d2)
                  | Missing e => (Raise e, W d2)
                  end
              end).
  { intros d2 Hdom Hsame. rewrite Hagain.
    assert (Hs2 : is_dir d2 s = true) by (by apply is_dir_true, Hdom, is_dir_true).
    rewrite Hs2. cbn [negb]. cbv zeta.
    assert (Hwalk2 : walk d2 s names = IsDir l).
    { apply (walk_mono d1); [|done]. intros k. apply Hdom. }
    rewrite (mkdirs_walk_dir _ _ _ _ Hwalk2). cbn [fst snd].
    rewrite decide_True; cycle 1.
    { intros name v Hname. apply eq_None_not_Some. intros Hk.
      apply (proj2 (Hdom _)) in Hk. pose proof (Hfree name v Hname) as Hn.
      cbn beta in Hn. apply (is_Some_None (A := gmap string Table)).
      rewrite <- Hn. exact Hk. }
    fold t e. by rewrite Hsame. }
  assert (Hsame3 : <[l := <["network.csv" := t]> (e ∪ default ∅ (d3 !! l))]> d3 = d3).
  { rewrite Hd3l. cbn [default]. unfold Datatypes.id. unfold files at 1.
    rewrite export_again. fold files. unfold d3. apply insert_insert_eq. }
  assert (Hdom13 : ∀ k, is_Some (d1 !! k) ↔ is_Some (d3 !! k)).
  { intros k. split; [apply Hdom3|]. unfold d3.
    destruct (decide (k = l)) as [->|Hne]; [done|]. by rewrite lookup_insert_ne. }
  destruct (Z_matrix net) as [z|] eqn:HZ.
  2:{ injection Hrun as <- <-. by rewrite Hsecond. }
  destruct (lookup_path (mkFS c d3) q) as [ld|l0 n0|e0] eqn:Hq.
  2:{ injection Hrun as <- <-. rewrite Hsecond by done. by rewrite Hq. }
  2:{ injection Hrun as <- <-. rewrite Hsecond by done. by rewrite Hq. }
  case_bool_decide as Hcond.
  2:{ injection Hrun as <- <-. rewrite Hsecond by done. rewrite Hq.
      by rewrite bool_decide_eq_false_2. }
  (* the first call has written Z.csv *)
  destruct Hcond as [HnoZ HnoZdir].
  pose proof (lookup_path_is_dir _ _ _ Hq) as [fd Hfd]. cbn [dirs] in Hfd.
  rewrite Hfd in Hrun, HnoZ. cbn [default] in Hrun, HnoZ.
  unfold Datatypes.id in Hrun, HnoZ.
  set (dZ := <[ld := <["Z.csv" := z]> fd]> d3) in *.
  injection Hrun as <- <-. fold (W dZ).
  assert (HdomZ : ∀ k, is_Some (d3 !! k) ↔ is_Some (dZ !! k)).
  { intros k. unfold dZ. destruct (decide (k = ld)) as [->|Hne].
    - rewrite lookup_insert_eq, Hfd. split; by eexists.
    - by rewrite lookup_insert_ne. }
  rewrite Hsecond; cycle 1.
  { intros k. by rewrite Hdom13, HdomZ. }
  { destruct (decide (ld = l)) as [Heq|Hne].
    - assert (fd = files) as -> by (rewrite Heq, Hd3l in Hfd; congruence).
      unfold dZ. rewrite Heq, lookup_insert_eq. cbn [default]. unfold Datatypes.id.
      replace (<["network.csv" := t]> (e ∪ <["Z.csv" := z]> files))
        with (<["Z.csv" := z]> files)
        by (symmetry; apply export_again_Z; exact HnoZ).
      apply insert_insert_eq.
    - unfold dZ. rewrite lookup_insert_ne, Hd3l by done. cbn [default].
      unfold Datatypes.id. unfold files at 1. rewrite export_again. fold files.
      apply insert_id. by rewrite lookup_insert_ne. }
  rewrite (lookup_path_mono c d3 dZ q ld); [|intros k; apply HdomZ|done].
  rewrite bool_decide_eq_false_2; [done|].
  intros [Hn _]. unfold dZ in Hn. rewrite lookup_insert_eq in Hn. cbn [default] in Hn.
  unfold Datatypes.id in Hn. by rewrite lookup_insert_eq in Hn.
Qed.
End results_to_csv_properties.

Lemma results_to_csv_Z_witness :
  let w := Examples.world MoreExamples.net_Z in
  let p := "out/1" in
  let d := py_strip "0123456789" p in
  ∃ (r : result unit) (w' : World),
    results_to_csv (H := Examples.pypsa) 0 (Path p) w = (r, w') ∧
    match lookup_path (fs w') d with
    | IsDir ld =>
        r = Ok tt ∧
        (ld ≠ target (fs w) p →
         let before := default ∅ (dirs (fs w) !! ld) in
         dirs (fs w') !! ld
         = Some (if bool_decide (is_Some (before !! "Z.csv")
                                 ∨ is_Some (dirs (fs w') !! (ld ++ ["Z.csv"])))
                 then before else <["Z.csv" := MoreExamples.Z]> before))
    | IsFile _ _ => r = Raise NotADirectoryError
    | Missing e => r = Raise e
    end.
Proof.
  apply (results_to_csv_Z (H := Examples.pypsa)
           (Examples.world MoreExamples.net_Z) 0 MoreExamples.net_Z
           "out/1" MoreExamples.Z).
  - reflexivity.
  - reflexivity.
  - apply disk_well_formed.
  - valid_path_literal.
  - discriminate.
  - apply no_file_on_empty, disk_empty.
  - apply no_dir_for_fresh; [cbn; not_in_list|].
    unfold Examples.world, Examples.disk. cbn [fs dirs].
    repeat apply map_Forall_insert_2; [..|apply map_Forall_empty];
      apply Nat.leb_le; by vm_compute.
Defined.

Lemma results_to_csv_Z_in_export_witness :
  let w := Examples.world MoreExamples.net_Z in
  let p := "results" in
  ∃ (w' : World) (files : gmap string Table),
    results_to_csv (H := Examples.pypsa) 0 (Path p) w = (Ok tt, w') ∧
    dirs (fs w') !! target (fs w) p = Some files ∧
    let written := export_to_csv_folder (PyPSA := Examples.pypsa) MoreExamples.net_Z
                   ∪ default ∅ (dirs (fs w) !! target (fs w) p) in
    files !! "Z.csv"
    = if bool_decide (is_Some (dirs (fs w') !! (target (fs w) p ++ ["Z.csv"])))
      then written !! "Z.csv"
      else Some (default MoreExamples.Z (written !! "Z.csv")).
Proof.
  apply (results_to_csv_Z_in_export (H := Examples.pypsa)
           (Examples.world MoreExamples.net_Z) 0 MoreExamples.net_Z
           "results" MoreExamples.Z).
  - reflexivity.
  - reflexivity.
  - apply disk_well_formed.
  - valid_path_literal.
  - discriminate.
  - apply no_file_on_empty, disk_empty.
  - apply no_dir_for_fresh; [cbn; not_in_list|].
    unfold Examples.world, Examples.disk. cbn [fs dirs].
    repeat apply map_Forall_insert_2; [..|apply map_Forall_empty];
      apply Nat.leb_le; by vm_compute.
  - reflexivity.
Defined.

Lemma results_to_csv_again_witness :
  let run := results_to_csv (H := Examples.pypsa) 0 (Path "results")
               (Examples.world MoreExamples.net_Z) in
  results_to_csv (H := Examples.pypsa) 0 (Path "results") run.2 = (run.1, run.2).
Proof.
  apply (results_to_csv_again (H := Examples.pypsa)
           (Examples.world MoreExamples.net_Z)).
  - by eexists.
  - apply surjective_pairing.
Defined.

(** ** calc_line_losses: signs, and the table of grouped lines *)

(** Without the column v_nom there are no losses: AttributeError, and
    nothing is written. *)
Lemma calc_line_losses_raise (w : World) (network : ref) (net : Network) (l : Line.t) :
  heap w !! network = Some net →
  l ∈ lines net → Line.v_nom l = None →
  calc_line_losses network w = (Raise AttributeError, w).
Proof.
  intros Hnet Hl Hv. unfold calc_line_losses.
  rewrite (bind_ok _ _ _ _ _ (deref_ok _ _ _ Hnet)).
  rewrite mapM_None_2; [done|]. apply Exists_exists. by exists l.
Qed.

(** X14: the two functions do not compose: after [group_parallel_lines]
    has returned on a network with lines, the table of lines has lost
    the column v_nom (it is not among the aggregated columns), and
    [calc_line_losses] raises AttributeError, leaving everything as the
    grouping left it. *)
Theorem calc_line_losses_after_grouping (w w' : World) (network : ref)
    (net : Network) :
  heap w !! network = Some net →
  lines net ≠ [] →
  group_parallel_lines network w = (Ok tt, w') →
  calc_line_losses network w' = (Raise AttributeError, w').
Proof.
  intros Hnet Hne Hrun.
  pose proof (orderable_dec (lines net)) as Hdec.
  destruct (decide (Forall (orderable (lines net)) (Line.name <$> lines net)))
    as [Hall|Hall].
  - rewrite (group_parallel_lines_ok _ _ _ Hnet Hall) in Hrun.
    injection Hrun as <-.
    destruct (groupby (ordered <$> lines net)) as [|[k x] groups] eqn:Hgroups.
    + destruct (groupby_grouped (ordered <$> lines net)) as (_ & _ & Hkeys).
      destruct (lines net) as [|l ls]; [done|].
      specialize (Hkeys (ordered l) ltac:(left)). rewrite Hgroups in Hkeys.
      by apply elem_of_nil in Hkeys.
    + eapply (calc_line_losses_raise _ _ _ (aggregate k x)).
      * apply lookup_insert_eq.
      * left.
      * reflexivity.
  - destruct (group_parallel_lines_raise _ _ _ Hnet Hall) as [w'' E].
    rewrite E in Hrun. discriminate.
Qed.

Lemma calc_line_losses_after_grouping_witness :
  let w' := mkWorld (<[0 := set_lines ((λ g, aggregate g.1 g.2)
                                         <$> groupby (ordered <$> lines Examples.net))
                              Examples.net]>
                       (heap (Examples.world Examples.net)))
                    (fs (Examples.world Examples.net))
                    (trace (Examples.world Examples.net)) in
  calc_line_losses 0 w' = (Raise AttributeError, w').
Proof.
  apply (calc_line_losses_after_grouping (Examples.world Examples.net) _ 0 Examples.net).
  - reflexivity.
  - discriminate.
  - vm_compute. reflexivity.
Defined.

Lemma foldr_Rplus_nonneg (xs : list R) :
  Forall (λ x, (0 <= x)%R) xs → (0 <= foldr Rplus 0%R xs)%R.
Proof. induction 1 as [|x xs Hx _ IH]; cbn; lra. Qed.

(** The losses of a line at a timestep, for a resistance that is not
    negative. *)
Lemma losses_per_timestep_nonneg (net : Network) (v_nom : list R)
    (t j : nat) (x : R) :
  pf_results net →
  Forall (λ l, (0 <= Line.r l)%R) (lines net) →
  iat (losses_per_timestep net v_nom) t j = Some (Some x) →
  (0 <= x)%R.
Proof.
  intros Hpf Hr Hx.
  destruct (i0_lines_shape net v_nom Hpf) as [_ Hc1].
  unfold losses_per_timestep in Hx. rewrite iat_frame_map in Hx.
  rewrite iat_frame_series_binop in Hx by done. rewrite iat_frame_map in Hx.
  destruct (iat (i0_lines net v_nom) t j) as [a|]; [|done]. cbn in Hx.
  rewrite list_lookup_fmap in Hx.
  destruct (lines net !! j) as [line|] eqn:Hline; [|done]. cbn in Hx.
  destruct a as [a|]; [|done]. cbn in Hx. injection Hx as <-.
  rewrite Forall_forall in Hr.
  assert (0 <= Line.r line)%R by (apply Hr; by eapply list_elem_of_lookup_2).
  assert (0 <= a ^ 2)%R by apply pow2_ge_0.
  apply Rmult_le_pos; [by apply Rmult_le_pos|].
  apply Rlt_le, Rinv_0_lt_compat. lra.
Qed.

(** X15: on a network with power-flow results (numbers for every line
    and snapshot, a snapshot at least, nominal voltages that are not
    zero), with resistances and transformer ratings that are not negative,
    no loss that [calc_line_losses] computes is negative: neither a cell
    of lines_t.losses, nor the losses of a line, nor the losses of a
    transformer; every line and transformer has a number as its losses. *)
Theorem calc_line_losses_nonneg (w : World) (network : ref) (net : Network) :
  heap w !! network = Some net →
  pf_results net →
  Forall (λ l, (0 <= Line.r l)%R) (lines net) →
  Forall (λ tr, (0 <= Transformer.s_nom tr)%R) (transformers net) →
  ∃ (net' : Network) (losses : Frame),
    calc_line_losses network w
      = (Ok tt, mkWorld (<[network := net']> (heap w)) (fs w) (trace w)) ∧
    lines_t_losses net' = Some losses ∧
    (∀ (t j : nat) (row : list cell) (x : R),
       data losses !! t = Some row → row !! j = Some (Some x) → (0 <= x)%R) ∧
    Forall (λ l, ∃ x : R, Line.losses l = Some (Some x) ∧ (0 <= x)%R) (lines net') ∧
    Forall (λ tr, ∃ x : R, Transformer.losses tr = Some x ∧ (0 <= x)%R)
           (transformers net').
Proof.
  intros Hnet Hpf Hr Hs.
  assert (Hv : ∃ v_nom, mapM Line.v_nom (lines net) = Some v_nom).
  { destruct Hpf as (_ & _ & _ & _ & _ & _ & Hv). apply mapM_is_Some.
    eapply Forall_impl; [exact Hv|]. intros l (v & E & _). by exists v. }
  destruct Hv as [v_nom Hv].
  assert (Hvlen : length v_nom = length (lines net)).
  { apply mapM_Some in Hv. symmetry. by eapply Forall2_length. }
  set (losses := losses_per_timestep net v_nom).
  destruct (losses_per_timestep_shape net v_nom Hpf) as [Hidx Hcol].
  fold losses in Hidx, Hcol.
  pose proof (losses_per_timestep_numbers net v_nom Hpf Hvlen) as Hnum.
  fold losses in Hnum.
  assert (Hlen : length (frame_sum losses) = length (lines net)).
  { unfold frame_sum. by rewrite length_fmap, length_seq, Hcol, length_fmap. }
  assert (Hcell : ∀ (t j : nat) (row : list cell) (x : R),
            data losses !! t = Some row → row !! j = Some (Some x) → (0 <= x)%R).
  { intros t j row x Hrow Hx.
    apply (losses_per_timestep_nonneg net v_nom t j x Hpf Hr).
    fold losses. unfold iat. by rewrite Hrow. }
  set (net1 := set_lines_t_losses losses net).
  set (net2 := set_lines (zip_with Line.set_losses (frame_sum losses) (lines net)) net1).
  set (net3 := set_transformers
                 (zip_with Transformer.set_losses
                    ((λ tr, (Transformer.s_nom tr * (1 - 0.998))%R) <$> transformers net2)
                    (transformers net2)) net2).
  exists net3, losses. split; [|split; [done|split; [done|split]]].
  - unfold calc_line_losses.
    rewrite (bind_ok _ _ _ _ _ (deref_ok _ _ _ Hnet)). rewrite Hv. cbn [try].
    erewrite bind_ok; [|reflexivity]. fold losses.
    rewrite (bind_ok _ _ _ _ _ (update_ok _ _ _ _ Hnet)). fold net1.
    rewrite decide_True by done.
    erewrite bind_ok; [|reflexivity].
    erewrite bind_ok; [|apply update_ok, lookup_insert_eq].
    cbn [heap fs trace]. rewrite insert_insert_eq. fold net2.
    erewrite bind_ok; [|apply deref_ok, lookup_insert_eq].
    erewrite update_ok; [|apply lookup_insert_eq].
    cbn [heap fs trace]. by rewrite insert_insert_eq.
  - cbn [net3 net2 lines set_transformers set_lines].
    apply Forall_forall. intros l Hl.
    apply elem_of_zip_with in Hl as (v & l0 & -> & Hv0 & _).
    unfold frame_sum in Hv0.
    apply list_elem_of_fmap in Hv0 as (j & -> & Hj).
    apply elem_of_seq in Hj as [_ Hj]. cbn in Hj.
    destruct (column_numbers losses j Hnum Hj) as (xs & Ecol & Lxs & Hxs).
    exists (foldr Rplus 0%R xs). split.
    + cbn [Line.set_losses Line.losses]. rewrite Ecol, nansum_numbers; [done|].
      destruct Hpf as (_ & Hne & _). intros ->. rewrite Hidx in Lxs.
      by destruct (index (lines_t_p0 net)).
    + apply foldr_Rplus_nonneg, Forall_forall. intros x Hx.
      apply list_elem_of_lookup in Hx as [t Ht].
      destruct (Hxs t x Ht) as (row & Hrow & Hcellx). by eapply Hcell.
  - cbn [net3 transformers set_transformers net2 set_lines net1 set_lines_t_losses].
    apply Forall_forall. intros tr Htr.
    apply elem_of_zip_with in Htr as (v & tr0 & -> & Hv0 & _).
    exists v. split; [done|].
    apply list_elem_of_fmap in Hv0 as (tr1 & -> & Htr1).
    rewrite Forall_forall in Hs. specialize (Hs tr1 Htr1). nra.
Qed.

Lemma calc_line_losses_nonneg_witness :
  ∃ (net' : Network) (losses : Frame),
    calc_line_losses 0 (Examples.world Examples.net)
      = (Ok tt, mkWorld (<[0 := net']> (heap (Examples.world Examples.net)))
                        (fs (Examples.world Examples.net))
                        (trace (Examples.world Examples.net))) ∧
    lines_t_losses net' = Some losses ∧
    (∀ (t j : nat) (row : list cell) (x : R),
       data losses !! t = Some row → row !! j = Some (Some x) → (0 <= x)%R) ∧
    Forall (λ l, ∃ x : R, Line.losses l = Some (Some x) ∧ (0 <= x)%R) (lines net') ∧
    Forall (λ tr, ∃ x : R, Transformer.losses tr = Some x ∧ (0 <= x)%R)
           (transformers net').
Proof.
  apply (calc_line_losses_nonneg (Examples.world Examples.net) 0 Examples.net).
  - reflexivity.
  - unfold pf_results, numbers. cbn.
    repeat first [ done | apply Forall_nil | apply Forall_cons; split | split
                 | by eexists | exists 110%R; split; [done|lra] ].
  - repeat constructor; cbn; lra.
  - repeat constructor; cbn; lra.
Defined.

(** ** group_parallel_lines: the labels, single lines *)





Lemma filter_unique {A} (P : A → Prop) `{∀ a, Decision (P a)} (l : list A) (a : A) :
  NoDup l → a ∈ l → P a → (∀ a', a' ∈ l → P a' → a' = a) → filter P l = [a].
Proof.
  induction l as [|b l IH]; intros Hnd Ha HP Huniq; [by apply elem_of_nil in Ha|].
  apply NoDup_cons in Hnd as [Hb Hnd].
  apply elem_of_cons in Ha as [->|Ha].
  - rewrite filter_cons_True by done. f_equal. apply filter_none.
    intros a' Ha' HP'. apply Hb. rewrite <- (Huniq a'); [done|by right|done].
  - rewrite filter_cons_False.
    + apply IH; try done. intros a' Ha'. apply Huniq. by right.
    + intros HPb. apply Hb. rewrite (Huniq b); [done|left|done].
Qed.

(** The reducers on a group of one line. *)
Lemma np_sum_singleton (a : R) : np_sum [a] = a.
Proof. unfold np_sum. cbn. lra. Qed.

Lemma np_mean_singleton (a : R) : np_mean [a] = a.
Proof. unfold np_mean, np_sum. cbn. lra. Qed.

Lemma parallel_singleton (v : R) :
  parallel [v] = if decide (v = 0%R) then 0%R else (/ / v)%R.
Proof.
  unfold parallel, np_sum. cbn [fmap list_fmap foldr].
  destruct (decide (v = 0%R)) as [->|Hv].
  - rewrite bool_decide_eq_true_2; [done|left].
  - rewrite bool_decide_eq_false_2; [by rewrite Rplus_0_r|].
    intros H%list_elem_of_singleton. by apply Hv.
Qed.

(** X18: a line that is the only one between its two buses goes through
    [group_parallel_lines] with the values of the aggregated columns as
    they were, but for r, r_pu, x and x_pu, which are the reciprocal of
    the reciprocal of the old value (zero for zero): its row in the new
    table has the buses in ascending order, in the decimal notation of
    [str], and is without the columns v_nom and losses. *)
Theorem group_parallel_lines_keeps_single (w : World) (network : ref)
    (net : Network) (l : Line.t) :
  heap w !! network = Some net →
  NoDup (Line.name <$> lines net) →
  Forall integer_buses (lines net) →
  l ∈ lines net →
  (∀ l', l' ∈ lines net → endpoints l' = endpoints l → l' = l) →
  let twice_reciprocal (v : R) := if decide (v = 0%R) then 0%R else (/ / v)%R in
  ∃ (new_lines : list Line.t) (b0 b1 : Z),
    group_parallel_lines network w
      = (Ok tt, mkWorld (<[network := mkNetwork (snapshots net) (buses net) new_lines
                   (transformers net) (generators net) (loads net)
                   (carriers net) (loads_t_p_set net)
                   (generators_t_p_set net) (generators_t_p net)
                   (lines_t_p0 net) (lines_t_q0 net) (lines_t_losses net)
                   (results_solver_time net) (Z_matrix net)]> (heap w))
                        (fs w) (trace w)) ∧
    endpoints l = Some (b0, b1) ∧
    Line.mk (Line.name l) (py_str b0) (py_str b1) (Line.b l) (Line.b_pu l)
      (Line.cables l) (Line.capital_cost l) (Line.frequency l) (Line.g l)
      (Line.g_pu l) (Line.geom l) (Line.length l) (Line.num_parallel l)
      (twice_reciprocal (Line.r l)) (twice_reciprocal (Line.r_pu l))
      (Line.s_nom l) (Line.s_nom_extendable l) (Line.s_nom_max l)
      (Line.s_nom_min l) (Line.s_nom_opt l) (Line.scn_name l)
      (Line.sub_network l) (Line.terrain_factor l) (Line.topo l)
      (Line.type l) (Line.v_ang_max l) (Line.v_ang_min l)
      (twice_reciprocal (Line.x l)) (twice_reciprocal (Line.x_pu l))
      None None
      ∈ new_lines.
Proof.
  intros Hnet Hnd Hint Hl Huniq twice_reciprocal.
  assert (Hparse : Forall (λ l, is_Some (endpoints l)) (lines net)).
  { eapply Forall_impl; [exact Hint|]. apply integer_buses_endpoints. }
  pose proof (new_lines_cover (lines net) l Hparse Hl) as Hcover.
  apply list_elem_of_fmap in Hcover as (nl & He & Hnl).
  destruct (new_lines_rows _ _ Hparse Hnl) as (b0 & b1 & Hle & Hne & Hagg).
  rewrite Hagg, endpoints_aggregate in He by done.
  eexists _, b0, b1.
  split; [by apply group_parallel_lines_ok, orderable_all|].
  split; [done|].
  rewrite (filter_unique _ (lines net) l) in Hagg.
  - match goal with |- ?row ∈ _ => replace row with nl; [done|] end.
    rewrite Hagg. unfold aggregate. cbn [fmap list_fmap]. unfold ordered. rewrite He.
    cbn [fmap list_fmap fst snd Line.set_bus0 Line.set_bus1 Line.name
         Line.bus0 Line.bus1 Line.b Line.b_pu Line.cables Line.capital_cost
         Line.frequency Line.g Line.g_pu Line.geom Line.length
         Line.num_parallel Line.r Line.r_pu Line.s_nom Line.s_nom_extendable
         Line.s_nom_max Line.s_nom_min Line.s_nom_opt Line.scn_name
         Line.sub_network Line.terrain_factor Line.topo Line.type
         Line.v_ang_max Line.v_ang_min Line.x Line.x_pu].
    rewrite !np_sum_singleton, !np_mean_singleton, !parallel_singleton.
    cbn [np_min str_min first bool_min foldl foldr head default].
    by rewrite andb_true_r.
  - by eapply NoDup_fmap_1.
  - done.
  - done.
  - intros l' Hl' He'. apply Huniq; [done|congruence].
Qed.

Lemma group_parallel_lines_keeps_single_witness :
  let l := Examples.line "9" "1" "2" in
  let twice_reciprocal (v : R) := if decide (v = 0%R) then 0%R else (/ / v)%R in
  ∃ (new_lines : list Line.t) (b0 b1 : Z),
    group_parallel_lines 0 (Examples.world Examples.net)
      = (Ok tt, mkWorld (<[0 := set_lines new_lines Examples.net]>
                           (heap (Examples.world Examples.net)))
                        (fs (Examples.world Examples.net))
                        (trace (Examples.world Examples.net))) ∧
    endpoints l = Some (b0, b1) ∧
    Line.mk (Line.name l) (py_str b0) (py_str b1) (Line.b l) (Line.b_pu l)
      (Line.cables l) (Line.capital_cost l) (Line.frequency l) (Line.g l)
      (Line.g_pu l) (Line.geom l) (Line.length l) (Line.num_parallel l)
      (twice_reciprocal (Line.r l)) (twice_reciprocal (Line.r_pu l))
      (Line.s_nom l) (Line.s_nom_extendable l) (Line.s_nom_max l)
      (Line.s_nom_min l) (Line.s_nom_opt l) (Line.scn_name l)
      (Line.sub_network l) (Line.terrain_factor l) (Line.topo l)
      (Line.type l) (Line.v_ang_max l) (Line.v_ang_min l)
      (twice_reciprocal (Line.x l)) (twice_reciprocal (Line.x_pu l))
      None None
      ∈ new_lines.
Proof.
  intros l.
  apply (group_parallel_lines_keeps_single (Examples.world Examples.net) 0
           Examples.net l).
  - reflexivity.
  - distinct_labels.
  - repeat (apply Forall_cons; split); try by apply Forall_nil.
    + exists 3%Z, 1%Z. by vm_compute.
    + exists 1%Z, 3%Z. by vm_compute.
    + exists 1%Z, 2%Z. by vm_compute.
  - do 2 right. left.
  - intros l' Hl' He.
    apply elem_of_cons in Hl' as [->|Hl']; [vm_compute in He; discriminate|].
    apply elem_of_cons in Hl' as [->|Hl']; [vm_compute in He; discriminate|].
    apply elem_of_cons in Hl' as [->|Hl']; [done|].
    by apply elem_of_nil in Hl'.
Defined.

(** ** group_parallel_lines: what is left behind when it fails *)

Lemma for_each_app {A} (l1 l2 : list A) (body : A → M unit) (w : World) :
  for_each (l1 ++ l2) body w = (for_each l1 body ≫= λ _, for_each l2 body) w.
Proof.
  revert w. induction l1 as [|a l1 IH]; intros w; [done|].
  cbn [app for_each]. unfold mbind, M_bind in *.
  destruct (body a w) as [[[]|e] w1]; [apply IH|done].
Qed.

Lemma first_failure {A} (P : A → Prop) `{∀ a, Decision (P a)} (l : list A) :
  ¬ Forall P l →
  ∃ (l1 : list A) (a : A) (l2 : list A), l = l1 ++ a :: l2 ∧ Forall P l1 ∧ ¬ P a.
Proof.
  induction l as [|a l IH]; intros Hno; [destruct Hno; constructor|].
  destruct (decide (P a)) as [Ha|Ha].
  - destruct IH as (l1 & b & l2 & -> & Hl1 & Hb).
    { intros Hl. apply Hno. by constructor. }
    exists (a :: l1), b, l2. split; [done|]. split; [by constructor|done].
  - exists [], a, l. by repeat split.
Qed.

(** X19: [group_parallel_lines] is not all or nothing.  On a network
    whose lines have distinct labels, when a bus id of some line is not
    an integer (the bus ids that are integers being within [int64]), it
    raises ValueError at the first such line; no line is merged or
    removed, but the lines before that one are left with their buses put
    in ascending order; the other lines, the rest of the network, the
    files and the solver trace are as before. *)
Theorem group_parallel_lines_failure (w : World) (network : ref) (net : Network) :
  heap w !! network = Some net →
  NoDup (Line.name <$> lines net) →
  ¬ Forall (λ l, is_Some (endpoints l)) (lines net) →
  Forall (λ l, ∀ z : Z, py_int (Line.bus0 l) = Some z ∨ py_int (Line.bus1 l) = Some z
                        → int64 z) (lines net) →
  ∃ (before : list Line.t) (bad : Line.t) (after : list Line.t),
    lines net = before ++ bad :: after ∧
    Forall (λ l, is_Some (endpoints l)) before ∧
    endpoints bad = None ∧
    group_parallel_lines network w
      = (Raise ValueError,
         mkWorld (<[network := mkNetwork (snapshots net) (buses net) ((ordered <$> before) ++ bad :: after)
                   (transformers net) (generators net) (loads net)
                   (carriers net) (loads_t_p_set net)
                   (generators_t_p_set net) (generators_t_p net)
                   (lines_t_p0 net) (lines_t_q0 net) (lines_t_losses net)
                   (results_solver_time net) (Z_matrix net)]>
                    (heap w)) (fs w) (trace w)).
Proof.
  intros Hnet Hnd Hno _.
  destruct (first_failure (λ l, is_Some (endpoints l)) (lines net) Hno)
    as (before & bad & after & Hlines & Hbefore & Hbad).
  exists before, bad, after. split; [done|]. split; [done|].
  assert (Ebad : endpoints bad = None).
  { destruct (endpoints bad); [destruct Hbad; by eexists|done]. }
  split; [done|].
  assert (Hnames : Line.name <$> lines net
                   = (Line.name <$> before) ++ Line.name bad :: (Line.name <$> after)).
  { by rewrite Hlines, fmap_app, fmap_cons. }
  assert (Hfresh : ∀ l, l ∈ bad :: after → Line.name l ∉ Line.name <$> before).
  { intros l Hl Hin. rewrite Hnames in Hnd.
    apply NoDup_app in Hnd as (_ & Hdisj & _). apply (Hdisj _ Hin).
    change (Line.name l ∈ Line.name <$> bad :: after). by apply list_elem_of_fmap_2. }
  assert (Hord : Forall (orderable (lines net)) (Line.name <$> before)).
  { apply Forall_fmap, Forall_forall. intros l Hl. exists l. split.
    - apply rows_of_label_NoDup; [done|]. rewrite Hlines. apply elem_of_app. by left.
    - rewrite Forall_forall in Hbefore. by apply Hbefore. }
  assert (Hmap : (λ l, if decide (Line.name l ∈ Line.name <$> before)
                       then ordered l else l) <$> lines net
                 = (ordered <$> before) ++ bad :: after).
  { rewrite Hlines, fmap_app. f_equal.
    - apply list_fmap_ext. intros i l Hl. rewrite decide_True; [done|].
      apply list_elem_of_fmap_2. by eapply list_elem_of_lookup_2.
    - rewrite <- (list_fmap_id (bad :: after)) at 2.
      apply list_fmap_ext. intros i l Hl. rewrite decide_False; [done|].
      apply Hfresh. by eapply list_elem_of_lookup_2. }
  unfold group_parallel_lines.
  rewrite (bind_ok _ _ _ _ _ (deref_ok _ _ _ Hnet)).
  apply bind_raise. rewrite Hnames, for_each_app.
  rewrite (bind_ok _ _ _ _ _
             (order_loop_ok network (Line.name <$> before) w net Hnet Hord)).
  rewrite Hmap. cbn [for_each]. apply bind_raise.
  eapply order_buses_raise; [apply lookup_insert_eq|].
  cbn [lines set_lines]. intros (row & Hrow & Hsome).
  assert (Hin : bad ∈ List.filter (λ l, bool_decide (Line.name l = Line.name bad))
                        ((ordered <$> before) ++ bad :: after)).
  { apply rows_of_label. split; [|done]. apply elem_of_app. right. left. }
  rewrite Hrow in Hin. apply list_elem_of_singleton in Hin as <-.
  rewrite Ebad in Hsome. by destruct Hsome.
Qed.

Lemma group_parallel_lines_failure_witness :
  ∃ (before : list Line.t) (bad : Line.t) (after : list Line.t),
    lines MoreExamples.net_mixed = before ++ bad :: after ∧
    Forall (λ l, is_Some (endpoints l)) before ∧
    endpoints bad = None ∧
    group_parallel_lines 0 (Examples.world MoreExamples.net_mixed)
      = (Raise ValueError,
         mkWorld (<[0 := set_lines ((ordered <$> before) ++ bad :: after)
                           MoreExamples.net_mixed]>
                    (heap (Examples.world MoreExamples.net_mixed)))
                 (fs (Examples.world MoreExamples.net_mixed))
                 (trace (Examples.world MoreExamples.net_mixed))).
Proof.
  apply (group_parallel_lines_failure (Examples.world MoreExamples.net_mixed) 0
           MoreExamples.net_mixed).
  - reflexivity.
  - distinct_labels.
  - intros Hparse. apply Forall_cons in Hparse as [_ Hparse].
    apply Forall_cons in Hparse as [[e He] _]. discriminate.
  - repeat (apply Forall_cons; split); try by apply Forall_nil.
    all: intros z [H|H]; vm_compute in H; try discriminate;
      injection H as <-; unfold int64; lia.
Defined.

(** On the network of two lines of which the second has the bus id
    "Bus 2": the call fails at the label "2", and the line "1" from bus 3
    to bus 1 is left as a line from bus 1 to bus 3. *)
Example group_parallel_lines_failure_example :
  ∃ w' : World,
    group_parallel_lines 0 (Examples.world MoreExamples.net_mixed)
      = (Raise ValueError, w') ∧
    lines <$> heap w' !! 0
      = Some [Examples.line "1" "1" "3"; Examples.line "2" "Bus 2" "1"].
Proof. eexists. split; [vm_compute; reflexivity|reflexivity]. Qed.

(** ** loading_minimization: the penalty on the flows *)

Section loading_minimization_properties.
Context {K : Type}.
Implicit Types (model : Pyomo.Model (K := K)) (v : Pyomo.valuation (K := K)).

Lemma eval_foldl_Add v (es : list Pyomo.expr) (acc : Pyomo.expr) :
  Pyomo.eval v (foldl Pyomo.Add acc es)
    = (Pyomo.eval v acc + foldr Rplus 0 (Pyomo.eval v <$> es))%R.
Proof.
  revert acc. induction es as [|e es IH]; intros acc; cbn; [lra|].
  rewrite IH. cbn. lra.
Qed.

Lemma eval_py_sum v (es : list Pyomo.expr) :
  Pyomo.eval v (Pyomo.py_sum es) = foldr Rplus 0%R (Pyomo.eval v <$> es).
Proof. unfold Pyomo.py_sum. rewrite eval_foldl_Add. cbn. lra. Qed.

(** The value of the new objective. *)
Lemma eval_loading_minimization model (snapshots : list snapshot) v :
  Pyomo.eval v (Pyomo.objective (Pyomo.loading_minimization model snapshots))
    = (Pyomo.eval v (Pyomo.objective model)
       + 0.00001 * foldr Rplus 0
                     ((λ i, v "number1" i + v "number2" i)
                        <$> Pyomo.passive_branch_p_index model))%R.
Proof.
  cbn [Pyomo.loading_minimization Pyomo.objective Pyomo.setattr
       Pyomo.passive_branch_p_index Pyomo.eval].
  rewrite eval_py_sum, <- list_fmap_compose. reflexivity.
Qed.

(** What the new components ask of a feasible point. *)
Lemma feasible_loading_minimization model (snapshots : list snapshot) v (i : K) :
  Pyomo.feasible (Pyomo.loading_minimization model snapshots) v →
  i ∈ Pyomo.passive_branch_p_index model →
  (0 < v "number1" i)%R ∧ (0 < v "number2" i)%R ∧
  (v "number1" i - v "number2" i)%R = v "passive_branch_p" i.
Proof.
  intros Hfeas Hi. unfold Pyomo.feasible in Hfeas.
  cbn [Pyomo.loading_minimization Pyomo.components Pyomo.setattr
       Pyomo.passive_branch_p_index] in Hfeas.
  rewrite map_Forall_lookup in Hfeas.
  pose proof (Hfeas "cRule" _ (lookup_insert_eq _ _ _)) as Hc.
  pose proof (Hfeas "number2"
                (Pyomo.Var (Pyomo.passive_branch_p_index model) Pyomo.PositiveReals)
                ltac:(rewrite lookup_insert_ne by done; apply lookup_insert_eq)) as H2.
  pose proof (Hfeas "number1"
                (Pyomo.Var (Pyomo.passive_branch_p_index model) Pyomo.PositiveReals)
                ltac:(rewrite !lookup_insert_ne by done; apply lookup_insert_eq)) as H1.
  cbn in Hc, H1, H2. rewrite Forall_forall in Hc, H1, H2.
  split; [by apply H1|]. split; [by apply H2|]. by apply Hc.
Qed.

Lemma foldr_Rplus_le {A} (f g : A → R) (l : list A) :
  (∀ a, a ∈ l → (f a <= g a)%R) →
  (foldr Rplus 0 (f <$> l) <= foldr Rplus 0 (g <$> l))%R.
Proof.
  induction l as [|a l IH]; intros Hle; cbn; [lra|].
  assert (f a <= g a)%R by (apply Hle; left).
  assert (foldr Rplus 0 (f <$> l) <= foldr Rplus 0 (g <$> l))%R
    by (apply IH; intros a' Ha'; apply Hle; by right).
  lra.
Qed.

(** X21: what [loading_minimization] adds to the optimisation is a
    penalty on the loading of the passive branches.  At every feasible
    point of the new model, on every branch and snapshot, number1 and
    number2 are positive with number1 - number2 = passive_branch_p, so
    their sum is at least the absolute flow; the new objective is the
    old one plus 0.00001 times the sum of all number1 and number2, which
    is at least the old objective plus 0.00001 times the sum of the
    absolute flows. *)
Theorem loading_minimization_penalty model (snapshots : list snapshot) v :
  Pyomo.feasible (Pyomo.loading_minimization model snapshots) v →
  (∀ i, i ∈ Pyomo.passive_branch_p_index model →
        (v "number1" i - v "number2" i)%R = v "passive_branch_p" i ∧
        (Rabs (v "passive_branch_p" i) <= v "number1" i + v "number2" i)%R) ∧
  Pyomo.eval v (Pyomo.objective (Pyomo.loading_minimization model snapshots))
    = (Pyomo.eval v (Pyomo.objective model)
       + 0.00001 * foldr Rplus 0
                     ((λ i, v "number1" i + v "number2" i)
                        <$> Pyomo.passive_branch_p_index model))%R ∧
  (Pyomo.eval v (Pyomo.objective model) + 0.00001 * Pyomo.total_flow model v
   <= Pyomo.eval v (Pyomo.objective (Pyomo.loading_minimization model snapshots)))%R.
Proof.
  intros Hfeas.
  assert (Hflow : ∀ i, i ∈ Pyomo.passive_branch_p_index model →
            (v "number1" i - v "number2" i)%R = v "passive_branch_p" i ∧
            (Rabs (v "passive_branch_p" i) <= v "number1" i + v "number2" i)%R).
  { intros i Hi.
    destruct (feasible_loading_minimization _ _ _ _ Hfeas Hi) as (H1 & H2 & <-).
    split; [done|]. unfold Rabs. destruct (Rcase_abs _); lra. }
  split; [done|]. split; [apply eval_loading_minimization|].
  rewrite eval_loading_minimization. unfold Pyomo.total_flow.
  pose proof (foldr_Rplus_le (λ i, Rabs (v "passive_branch_p" i))
                (λ i, v "number1" i + v "number2" i)%R
                (Pyomo.passive_branch_p_index model)
                (λ i Hi, proj2 (Hflow i Hi))).
  lra.
Qed.

(** A valuation that differs on variables that the expression does not
    mention gives the same value. *)
Lemma eval_ext v v' (e : Pyomo.expr) :
  (∀ name i, Pyomo.mentions name e → v' name i = v name i) →
  Pyomo.eval v' e = Pyomo.eval v e.
Proof.
  induction e as [c|var i|a IHa b IHb|a IHa b IHb|a IHa b IHb];
    intros Hsame; cbn in *; try done.
  - by apply Hsame.
  - rewrite IHa, IHb; [done|intros; apply Hsame; by right|intros; apply Hsame; by left].
  - rewrite IHa, IHb; [done|intros; apply Hsame; by right|intros; apply Hsame; by left].
  - rewrite IHa, IHb; [done|intros; apply Hsame; by right|intros; apply Hsame; by left].
Qed.

(** X22: [loading_minimization] does not cut off any solution of the
    model it is given.  For a model that does not use the names number1,
    number2 and cRule, every feasible point extends to a feasible point
    of the new model, with the same values for all the variables of the
    old model, and for every eps > 0 with a penalty that exceeds the
    absolute flow by eps on each branch and snapshot: the objective is
    the old one plus 0.00001 times the sum of |passive_branch_p| + eps. *)
Theorem loading_minimization_keeps_feasible model (snapshots : list snapshot) v
    (eps : R) :
  Pyomo.unused "number1" model →
  Pyomo.unused "number2" model →
  Pyomo.components model !! "cRule" = None →
  Pyomo.feasible model v →
  (0 < eps)%R →
  ∃ v' : Pyomo.valuation,
    (∀ name i, name ≠ "number1" → name ≠ "number2" → v' name i = v name i) ∧
    Pyomo.feasible (Pyomo.loading_minimization model snapshots) v' ∧
    Pyomo.eval v' (Pyomo.objective (Pyomo.loading_minimization model snapshots))
      = (Pyomo.eval v (Pyomo.objective model)
         + 0.00001 * foldr Rplus 0
                       ((λ i, Rabs (v "passive_branch_p" i) + eps)
                          <$> Pyomo.passive_branch_p_index model))%R.
Proof.
  intros (Hn1 & Ho1 & Hc1) (Hn2 & Ho2 & Hc2) Hcr Hfeas Heps.
  set (v' := λ (name : string) (i : K),
         if decide (name = "number1") then
           (Rmax (v "passive_branch_p" i) 0 + eps / 2)%R
         else if decide (name = "number2") then
           (Rmax (- v "passive_branch_p" i) 0 + eps / 2)%R
         else v name i).
  assert (Hsame : ∀ name i, name ≠ "number1" → name ≠ "number2" →
                            v' name i = v name i).
  { intros name i H1 H2. unfold v'. by rewrite !decide_False. }
  assert (Heval : ∀ e, ¬ Pyomo.mentions "number1" e → ¬ Pyomo.mentions "number2" e →
                       Pyomo.eval v' e = Pyomo.eval v e).
  { intros e H1 H2. apply eval_ext. intros name i Hm.
    apply Hsame; intros ->; done. }
  assert (Hnew : ∀ i, (0 < v' "number1" i)%R ∧ (0 < v' "number2" i)%R ∧
                      (v' "number1" i - v' "number2" i)%R = v' "passive_branch_p" i ∧
                      (v' "number1" i + v' "number2" i)%R
                      = (Rabs (v "passive_branch_p" i) + eps)%R).
  { intros i. unfold v'.
    rewrite (decide_True (P := "number1" = "number1")) by done.
    rewrite (decide_False (P := "number2" = "number1")) by done.
    rewrite (decide_True (P := "number2" = "number2")) by done.
    rewrite (decide_False (P := "passive_branch_p" = "number1")) by done.
    rewrite (decide_False (P := "passive_branch_p" = "number2")) by done.
    generalize (v "passive_branch_p" i). intros p.
    unfold Rmax, Rabs.
    destruct (Rle_dec p 0), (Rle_dec (- p) 0), (Rcase_abs p); repeat split; lra. }
  exists v'. split; [|split].
  - exact Hsame.
  - unfold Pyomo.feasible.
    cbn [Pyomo.loading_minimization Pyomo.components Pyomo.setattr
         Pyomo.passive_branch_p_index].
    apply map_Forall_insert_2.
    { apply Forall_forall. intros i _. cbn. by destruct (Hnew i) as (_ & _ & ? & _). }
    apply map_Forall_insert_2.
    { apply Forall_forall. intros i _. cbn. by destruct (Hnew i) as (_ & ? & _). }
    apply map_Forall_insert_2.
    { apply Forall_forall. intros i _. cbn. by destruct (Hnew i) as (? & _). }
    apply map_Forall_lookup_2. intros name c Hc.
    pose proof (map_Forall_lookup_1 _ _ _ _ Hfeas Hc) as Hold.
    pose proof (map_Forall_lookup_1 _ _ _ _ Hc1 Hc) as Hm1.
    pose proof (map_Forall_lookup_1 _ _ _ _ Hc2 Hc) as Hm2.
    assert (name ≠ "number1") by (intros ->; congruence).
    assert (name ≠ "number2") by (intros ->; congruence).
    destruct c as [index within|index rule]; cbn in *.
    + eapply Forall_impl; [exact Hold|]. intros i Hi. cbn in *. by rewrite Hsame.
    + rewrite Forall_forall in Hold, Hm1, Hm2. apply Forall_forall. intros i Hi.
      specialize (Hold i Hi). specialize (Hm1 i Hi). specialize (Hm2 i Hi).
      destruct (rule i) as [a b|a b]; cbn in *;
        rewrite !Heval by tauto; done.
  - rewrite eval_loading_minimization, Heval by done.
    replace ((λ i, v' "number1" i + v' "number2" i)%R
               <$> Pyomo.passive_branch_p_index model)
      with ((λ i, Rabs (v "passive_branch_p" i) + eps)%R
              <$> Pyomo.passive_branch_p_index model); [done|].
    apply list_fmap_ext. intros _ i _. by destruct (Hnew i) as (_ & _ & _ & ->).
Qed.
End loading_minimization_properties.

Lemma loading_minimization_penalty_witness :
  let model := MoreExamples.model in
  let v := MoreExamples.flows in
  (∀ i, i ∈ Pyomo.passive_branch_p_index model →
        (v "number1" i - v "number2" i)%R = v "passive_branch_p" i ∧
        (Rabs (v "passive_branch_p" i) <= v "number1" i + v "number2" i)%R) ∧
  Pyomo.eval v (Pyomo.objective (Pyomo.loading_minimization model [1; 2]%Z))
    = (Pyomo.eval v (Pyomo.objective model)
       + 0.00001 * foldr Rplus 0
                     ((λ i, v "number1" i + v "number2" i)
                        <$> Pyomo.passive_branch_p_index model))%R ∧
  (Pyomo.eval v (Pyomo.objective model) + 0.00001 * Pyomo.total_flow model v
   <= Pyomo.eval v (Pyomo.objective (Pyomo.loading_minimization model [1; 2]%Z)))%R.
Proof.
  apply (loading_minimization_penalty MoreExamples.model [1; 2]%Z MoreExamples.flows).
  unfold Pyomo.feasible.
  cbn [Pyomo.loading_minimization Pyomo.components Pyomo.setattr
       Pyomo.passive_branch_p_index MoreExamples.model].
  repeat (apply map_Forall_insert_2;
          [repeat (apply Forall_cons; split); try apply Forall_nil;
           unfold MoreExamples.flows; cbn; repeat case_decide; try done; lra|]).
  apply map_Forall_empty.
Defined.

Lemma loading_minimization_keeps_feasible_witness :
  let model := MoreExamples.model in
  let v := MoreExamples.flows in
  ∃ v' : Pyomo.valuation,
    (∀ name i, name ≠ "number1" → name ≠ "number2" → v' name i = v name i) ∧
    Pyomo.feasible (Pyomo.loading_minimization model [1; 2]%Z) v' ∧
    Pyomo.eval v' (Pyomo.objective (Pyomo.loading_minimization model [1; 2]%Z))
      = (Pyomo.eval v (Pyomo.objective model)
         + 0.00001 * foldr Rplus 0
                       ((λ i, Rabs (v "passive_branch_p" i) + 1)
                          <$> Pyomo.passive_branch_p_index model))%R.
Proof.
  apply (loading_minimization_keeps_feasible MoreExamples.model [1; 2]%Z
           MoreExamples.flows 1).
  - split; [reflexivity|]. split; [by intros []|].
    by apply map_Forall_singleton.
  - split; [reflexivity|]. split; [by intros []|].
    by apply map_Forall_singleton.
  - reflexivity.
  - apply map_Forall_singleton. by repeat constructor.
  - lra.
Defined.
